(** * ShopPulse SG: the filter bar, the footprint map, the chat client and
    the natural-language-to-SQL core, embedded and verified.

    The Angular front end (filter bar, map page, API service) is embedded
    from its TypeScript sources.  The NL→SQL core lives in the Python back
    end; the definitions that stand for it are marked as such. *)

From Stdlib Require Import ZArith QArith Lqa Ascii String List Bool Lia.
From stdpp Require Import base option list strings gmap sorting pretty.

Local Open Scope string_scope.
Local Open Scope list_scope.

(** ** JavaScript strings

    A JavaScript string is modelled by [string]; one [ascii] stands for one
    code unit.  [String.prototype.toLowerCase] and [String.prototype.trim]
    depend on the Unicode tables, so they are kept behind an interface: the
    theorems hold for every implementation, the examples run on the ASCII
    one below. *)

Class JsString := {
  toLowerCase : string → string;
  trim : string → string
}.

Module Js.

Definition is_upper (c : ascii) : bool :=
  let n := nat_of_ascii c in (65 <=? n)%nat && (n <=? 90)%nat.

Definition lower_char (c : ascii) : ascii :=
  if is_upper c then ascii_of_nat (nat_of_ascii c + 32) else c.

Fixpoint lower (s : string) : string :=
  match s with
  | EmptyString => EmptyString
  | String c s' => String (lower_char c) (lower s')
  end.

(** White space and line terminators of the ASCII range: TAB, LF, VT, FF,
    CR and SPACE. *)
Definition is_space (c : ascii) : bool :=
  let n := nat_of_ascii c in
  ((9 <=? n)%nat && (n <=? 13)%nat) || (n =? 32)%nat.

Fixpoint trim_start (s : string) : string :=
  match s with
  | EmptyString => EmptyString
  | String c s' => if is_space c then trim_start s' else s
  end.

(** [trim_end] drops the trailing white space: a character stays when it
    is no space or when something that stays follows it. *)
Fixpoint trim_end (s : string) : string :=
  match s with
  | EmptyString => EmptyString
  | String c s' =>
      match trim_end s' with
      | EmptyString => if is_space c then EmptyString else String c EmptyString
      | r => String c r
      end
  end.

Definition trim_ascii (s : string) : string := trim_end (trim_start s).

(** [s.includes(q)]: [q] occurs in [s] as a substring. *)
Fixpoint includes (s q : string) : bool :=
  String.prefix q s ||
  match s with
  | EmptyString => false
  | String _ s' => includes s' q
  end.

(** Truthiness of a string: every string but the empty one. *)
Definition truthy (s : string) : bool :=
  match s with EmptyString => false | _ => true end.

Definition is_digit (c : ascii) : bool :=
  let n := nat_of_ascii c in (48 <=? n)%nat && (n <=? 57)%nat.

Fixpoint all_digits (s : string) : bool :=
  match s with
  | EmptyString => true
  | String c s' => is_digit c && all_digits s'
  end.

(** [/^\d+$/.test(s)]: one digit at least and digits only. *)
Definition digits_regex (s : string) : bool := truthy s && all_digits s.

(** [a || b] on optional strings: the first operand unless it is
    undefined or empty. *)
Definition or_else (a : option string) (b : string) : string :=
  match a with
  | Some s => if truthy s then s else b
  | None => b
  end.

(** Value of a string of digits. *)
Fixpoint digits_value (acc : N) (s : string) : N :=
  match s with
  | EmptyString => acc
  | String c s' => digits_value (acc * 10 + N.of_nat (nat_of_ascii c - 48)) s'
  end.

(** A property key is an array index when it is the canonical decimal
    form of an integer below 2^32 - 1. *)
Definition array_index (k : string) : option N :=
  if digits_regex k then
    match k with
    | String "0" (String _ _) => None
    | _ =>
        if (String.length k <=? 10)%nat && (digits_value 0 k <? 4294967295)%N
        then Some (digits_value 0 k) else None
    end
  else None.

(** The names of the properties an object literal inherits from
    [Object.prototype] (the standard ones, those of Annex B included).  For
    such a key [o[key]] of an object that has no own property of that name
    is the inherited property: a function, or the prototype itself for
    [__proto__]. *)
Definition object_prototype_keys : list string :=
  ["constructor"; "hasOwnProperty"; "isPrototypeOf"; "propertyIsEnumerable";
   "toLocaleString"; "toString"; "valueOf"; "__proto__";
   "__defineGetter__"; "__defineSetter__"; "__lookupGetter__";
   "__lookupSetter__"].

Definition inherited (k : string) : bool :=
  existsb (String.eqb k) object_prototype_keys.

Definition index_leb (a b : N * string) : Prop := (a.1 ≤ b.1)%N.

#[export] Instance index_leb_dec : RelDecision index_leb.
Proof. intros a b. unfold index_leb. apply _. Defined.

(** [Object.keys] of an object whose own string keys were created in
    the order [ks]: the array indices in ascending order, then the other
    keys in creation order. *)
Definition object_keys (ks : list string) : list string :=
  let idx := omap (λ k, (λ n, (n, k)) <$> array_index k) ks in
  let rest := filter (λ k, array_index k = None) ks in
  (snd <$> merge_sort index_leb idx) ++ rest.

End Js.

#[export] Instance ascii_strings : JsString :=
  {| toLowerCase := Js.lower; trim := Js.trim_ascii |}.

(** ** The filter bar (shared/filter-bar.component.ts) *)

Module FilterBar.

Record FilterState := {
  from : option string;
  to : option string;
  ssic : option string;
  ssicCategory : option string;
  area : option string
}.

(** Modelled from the spec: the [SsicCategory] interface is declared in a
    revision of core/api.service.ts that is not among the sources; its
    fields are the ones the filter bar reads ([id], [label], the optional
    [sector] and the optional [keywords] list of the sector → category →
    keywords lookup). *)
Record SsicCategory := {
  id : string;
  label : string;
  sector : option string;
  keywords : option (list string)
}.

(** [SsicCategory & { display: string }] *)
Record DisplayCategory := {
  category : SsicCategory;
  display : string
}.

(** Modelled from the spec: an entry of [data.sectors] in the answer of
    [getSsicCategories], of which the component reads [id] and [label]. *)
Record Sector := {
  sector_id : string;
  sector_label : string
}.

(** Modelled from the spec: the answer of [ApiService.getSsicCategories];
    both fields may be missing ([data.categories ?? []]). *)
Record SsicCategoriesResponse := {
  resp_categories : option (list SsicCategory);
  resp_sectors : option (list Sector)
}.

Record Group := {
  group_sector : string;
  group_label : string;
  group_items : list DisplayCategory
}.

(** The component: its fields, and the values emitted on [stateChange],
    oldest first. *)
Record Component := {
  state : FilterState;
  categories : list SsicCategory;
  filteredCategories : list DisplayCategory;
  categoryInput : string;
  sectorLabel : gmap string string;
  groupedCategories : list Group;
  showCategoryList : bool;
  stateChange : list FilterState
}.

(** How a method ends: it returns, or an exception leaves it.  Either way
    the component is as the statements run so far left it. *)
Inductive outcome :=
| Returned (c : Component)
| Thrown (c : Component).

Definition after (o : outcome) : Component :=
  match o with
  | Returned c => c
  | Thrown c => c
  end.

Definition initial : Component :=
  {| state := {| from := None; to := None; ssic := None;
                 ssicCategory := None; area := None |};
     categories := []; filteredCategories := []; categoryInput := "";
     sectorLabel := ∅; groupedCategories := []; showCategoryList := false;
     stateChange := [] |}.

Definition set_state (f : FilterState → FilterState) (c : Component) : Component :=
  {| state := f (state c); categories := categories c;
     filteredCategories := filteredCategories c;
     categoryInput := categoryInput c; sectorLabel := sectorLabel c;
     groupedCategories := groupedCategories c;
     showCategoryList := showCategoryList c; stateChange := stateChange c |}.

Definition set_ssic (v : option string) (s : FilterState) : FilterState :=
  {| from := from s; to := to s; ssic := v;
     ssicCategory := ssicCategory s; area := area s |}.

Definition set_ssicCategory (v : option string) (s : FilterState) : FilterState :=
  {| from := from s; to := to s; ssic := ssic s;
     ssicCategory := v; area := area s |}.

Definition set_categoryInput (v : string) (c : Component) : Component :=
  {| state := state c; categories := categories c;
     filteredCategories := filteredCategories c;
     categoryInput := v; sectorLabel := sectorLabel c;
     groupedCategories := groupedCategories c;
     showCategoryList := showCategoryList c; stateChange := stateChange c |}.

Definition set_groupedCategories (v : list Group) (c : Component) : Component :=
  {| state := state c; categories := categories c;
     filteredCategories := filteredCategories c;
     categoryInput := categoryInput c; sectorLabel := sectorLabel c;
     groupedCategories := v;
     showCategoryList := showCategoryList c; stateChange := stateChange c |}.

Definition set_showCategoryList (v : bool) (c : Component) : Component :=
  {| state := state c; categories := categories c;
     filteredCategories := filteredCategories c;
     categoryInput := categoryInput c; sectorLabel := sectorLabel c;
     groupedCategories := groupedCategories c;
     showCategoryList := v; stateChange := stateChange c |}.

(** [this.stateChange.emit({ ...this.state })] *)
Definition onChange (c : Component) : Component :=
  {| state := state c; categories := categories c;
     filteredCategories := filteredCategories c;
     categoryInput := categoryInput c; sectorLabel := sectorLabel c;
     groupedCategories := groupedCategories c;
     showCategoryList := showCategoryList c;
     stateChange := stateChange c ++ [state c] |}.

Definition formatDisplay (c : SsicCategory) : string := label c.

(** [grouped[key].push(c)], creating the array on the first use of [key].
    The object is used as a map from sector key to array; its keys are
    listed in creation order. *)
Fixpoint group_push (key : string) (c : DisplayCategory)
    (grouped : list (string * list DisplayCategory))
    : list (string * list DisplayCategory) :=
  match grouped with
  | [] => [(key, [c])]
  | (k, items) :: rest =>
      if String.eqb k key then (k, items ++ [c]) :: rest
      else (k, items) :: group_push key c rest
  end.

(** [c.sector || 'other'] *)
Definition sector_key (c : DisplayCategory) : string :=
  Js.or_else (sector (category c)) "other".

(** The [forEach] loop that fills [grouped], an object literal used as a
    map.  For a key that names a property of [Object.prototype],
    [grouped[key]] is never undefined: it is the inherited property, so no
    array is assigned, and the inherited property has no [push]: the call
    throws a TypeError ([None]).  No own property of such a name is ever
    created, so for every other key [grouped[key]] is the array stored
    under it, if any. *)
Fixpoint group_all (items : list DisplayCategory)
    (grouped : list (string * list DisplayCategory))
    : option (list (string * list DisplayCategory)) :=
  match items with
  | [] => Some grouped
  | c :: rest =>
      let key := sector_key c in
      if Js.inherited key then None
      else group_all rest (group_push key c grouped)
  end.

Definition group_lookup (key : string)
    (grouped : list (string * list DisplayCategory)) : list DisplayCategory :=
  match find (λ e, String.eqb e.1 key) grouped with
  | Some e => e.2
  | None => []
  end.

Section WithStrings.
Context `{JsString}.

Definition matches_filter (query : string) (c : DisplayCategory) : bool :=
  let labelMatch := Js.includes (toLowerCase (label (category c))) query in
  let keywordMatch :=
    existsb (λ k, Js.includes (toLowerCase k) query)
            (default [] (keywords (category c))) in
  labelMatch || keywordMatch.

(** [items]: the categories listed for a filter. *)
Definition items_of (filter : string) (c : Component) : list DisplayCategory :=
  let query := toLowerCase (trim filter) in
  if Js.truthy query
  then List.filter (matches_filter query) (filteredCategories c)
  else filteredCategories c.

(** The keys of [grouped] are never names of inherited properties, so
    [this.sectorLabel[key]] reads an own property of [sectorLabel] or
    nothing. *)
Definition updateGroupedCategories (filter : string) (c : Component) : outcome :=
  let items := items_of filter c in
  match group_all items [] with
  | None => Thrown c
  | Some grouped =>
      Returned
        (set_groupedCategories
           ((λ key, {| group_sector := key;
                       group_label := Js.or_else (sectorLabel c !! key) key;
                       group_items := group_lookup key grouped |})
              <$> Js.object_keys (fst <$> grouped))
           c)
  end.

(** The callback of [ngOnInit], run on the answer of the lookup request.
    [acc[s.id] = s.label] creates or replaces an own property, except for
    the id [__proto__]: that assignment runs the inherited setter, which
    ignores a string. *)
Definition ngOnInit (data : SsicCategoriesResponse) (c : Component) : outcome :=
  let cats := default [] (resp_categories data) in
  let sectors := default [] (resp_sectors data) in
  let labels :=
    fold_left (λ (acc : gmap string string) s,
                 if String.eqb (sector_id s) "__proto__" then acc
                 else <[sector_id s := sector_label s]> acc)
              sectors ∅ in
  let c1 :=
    {| state := state c; categories := cats;
       filteredCategories :=
         (λ x, {| category := x; display := formatDisplay x |}) <$> cats;
       categoryInput := categoryInput c; sectorLabel := labels;
       groupedCategories := groupedCategories c;
       showCategoryList := showCategoryList c;
       stateChange := stateChange c |} in
  updateGroupedCategories "" c1.

Definition selectCategory (d : DisplayCategory) (c : Component) : Component :=
  let c := set_categoryInput (label (category d)) c in
  let c := set_state (set_ssicCategory (Some (id (category d)))) c in
  let c := set_state (set_ssic None) c in
  let c := set_showCategoryList false c in
  onChange c.

Definition showList (c : Component) : Component := set_showCategoryList true c.

(** [direct]: the first category whose label equals the input, both in
    lower case. *)
Definition find_direct (lower : string) (l : list DisplayCategory)
    : option DisplayCategory :=
  find (λ d, String.eqb (toLowerCase (label (category d))) lower) l.

(** [keyword]: the first category one of whose keywords equals the input,
    both in lower case. *)
Definition find_keyword (lower : string) (l : list DisplayCategory)
    : option DisplayCategory :=
  find (λ d, existsb (λ k, String.eqb (toLowerCase k) lower)
                     (default [] (keywords (category d)))) l.

(** [direct || keyword] *)
Definition find_match (lower : string) (l : list DisplayCategory)
    : option DisplayCategory :=
  match find_direct lower l with
  | Some d => Some d
  | None => find_keyword lower l
  end.

Definition onCategoryInput (c : Component) : outcome :=
  let value := trim (categoryInput c) in
  match updateGroupedCategories value c with
  | Thrown c => Thrown c
  | Returned c =>
      let c := set_showCategoryList true c in
      if negb (Js.truthy value) then
        let c := set_state (set_ssicCategory None) c in
        let c := set_state (set_ssic None) c in
        Returned (onChange c)
      else
        let lower := toLowerCase value in
        let c :=
          match find_match lower (filteredCategories c) with
          | Some m =>
              let c := set_state (set_ssicCategory (Some (id (category m)))) c in
              set_state (set_ssic None) c
          | None =>
              if Js.digits_regex value then
                let c := set_state (set_ssic (Some value)) c in
                set_state (set_ssicCategory None) c
              else
                let c := set_state (set_ssic None) c in
                set_state (set_ssicCategory None) c
          end in
        Returned (onChange c)
  end.

(** The input equals the label of [d], both in lower case. *)
Definition label_equals (value : string) (d : DisplayCategory) : Prop :=
  toLowerCase (label (category d)) = toLowerCase value.

(** The input equals a keyword of [d], both in lower case. *)
Definition keyword_equals (value : string) (d : DisplayCategory) : Prop :=
  ∃ k, k ∈ default [] (keywords (category d)) ∧ toLowerCase k = toLowerCase value.

End WithStrings.

(** No item has a sector key that names an inherited property: the loop of
    [updateGroupedCategories] runs to its end. *)
Definition groupable (items : list DisplayCategory) : Prop :=
  Forall (λ d, Js.inherited (sector_key d) = false) items.

(** At most one of [ssic] and [ssicCategory] is defined. *)
Definition at_most_one (s : FilterState) : Prop :=
  ssic s = None ∨ ssicCategory s = None.

(** A filter bar with two categories, showing the input [text]. *)
Definition sample (text : string) : Component :=
  {| state := state initial; categories := [];
     filteredCategories :=
       [{| category := {| id := "fnb"; label := "Food and Beverage";
                          sector := Some "services";
                          keywords := Some ["restaurants"; "56"] |};
           display := "Food and Beverage" |};
        {| category := {| id := "retail"; label := "Retail";
                          sector := Some "trade";
                          keywords := Some ["shops"; "food and beverage"] |};
           display := "Retail" |}];
     categoryInput := text; sectorLabel := ∅; groupedCategories := [];
     showCategoryList := false; stateChange := [] |}.

(** A filter bar whose first category has an empty label and whose second
    one has an empty keyword. *)
Definition sample_blank (text : string) : Component :=
  {| state := state initial; categories := [];
     filteredCategories :=
       [{| category := {| id := "misc"; label := ""; sector := None;
                          keywords := None |};
           display := "" |};
        {| category := {| id := "retail"; label := "Retail"; sector := None;
                          keywords := Some [""] |};
           display := "Retail" |}];
     categoryInput := text; sectorLabel := ∅; groupedCategories := [];
     showCategoryList := false; stateChange := [] |}.

(** A filter bar whose parent bound a state with both slots defined, and
    whose one category is of a sector called [constructor]. *)
Definition sample_constructor (text : string) : Component :=
  {| state := {| from := None; to := None; ssic := Some "47";
                 ssicCategory := Some "retail"; area := None |};
     categories := [];
     filteredCategories :=
       [{| category := {| id := "crafts"; label := "Crafts";
                          sector := Some "constructor"; keywords := None |};
           display := "Crafts" |}];
     categoryInput := text; sectorLabel := ∅; groupedCategories := [];
     showCategoryList := false; stateChange := [] |}.

End FilterBar.

(** ** JavaScript numbers of the map page

    Counts are integers; a quotient of two of them is a rational, or one of
    the three values JavaScript gives to a division by zero. *)

Module Num.

Inductive number :=
| Finite (q : Q)
| PosInfinity
| NegInfinity
| NaN.

(** [a / b] for integers [a] and [b]. *)
Definition div (a b : Z) : number :=
  if (b =? 0)%Z then
    if (a =? 0)%Z then NaN
    else if (0 <? a)%Z then PosInfinity else NegInfinity
  else Finite (inject_Z a / inject_Z b)%Q.

(** [k + x * m] for positive rational constants [k] and [m]. *)
Definition affine (k m : Q) (x : number) : number :=
  match x with
  | Finite q => Finite (k + q * m)%Q
  | other => other
  end.

(** [Math.max(...xs, last)] *)
Definition max_with (xs : list Z) (last : Z) : Z := foldr Z.max last xs.

End Num.

(** ** The footprint map (pages/map/map.page.ts) *)

Module MapPage.

Record MapHotspot := {
  subzone_id : option string;
  name : option string;
  planning_area_id : option string;
  count : Z;
  geometry : string
}.

(** What [L.geoJSON] does with a feature, by its geometry: a feature whose
    geometry is null (or another falsy value) is left out, a geometry that
    is no GeoJSON geometry makes it throw [Invalid GeoJSON object.] (or
    fail on its coordinates), and any other geometry becomes a layer. *)
Inductive Drawing :=
| Skipped
| Invalid
| Drawn.

Section WithJson.

(** [JSON.parse] on a geometry string, [None] when it throws, and what
    Leaflet does with the value parsed. *)
Variable Geometry : Type.
Variable JSON_parse : string → option Geometry.
Variable geometryToLayer : Geometry → Drawing.

Record Feature := {
  prop_name : string;
  prop_count : Z;
  prop_planning_area_id : string;
  feat_geometry : Geometry
}.

Record Style := {
  color : string;
  weight : Z;
  intensity : Num.number;
  fillAlpha : Num.number;
  fillOpacity : Q
}.

(** The GeoJSON layer: every feature that got a layer, with the style and
    the popup text the two callbacks give for it. *)
Record Layer := {
  layer_maxCount : Z;
  layer_features : list (Feature * Style * string)
}.

(** [map] is [None] before [ngAfterViewInit]; otherwise it holds the
    GeoJSON layer shown on it, if any. *)
Record Page := {
  map : option (option Layer);
  geoLayer : option Layer;
  loading : bool
}.

Inductive outcome :=
| Returned (p : Page)
| Thrown (p : Page).

Definition feature_of (h : MapHotspot) : option Feature :=
  g ← JSON_parse (geometry h);
  Some {| prop_name :=
            Js.or_else (name h) (Js.or_else (subzone_id h) "Unknown");
          prop_count := count h;
          prop_planning_area_id := Js.or_else (planning_area_id h) "";
          feat_geometry := g |}.

Definition style_of (maxCount : Z) (f : Feature) : Style :=
  let count := prop_count f in
  let intensity := Num.div count maxCount in
  {| color := "#0f172a"; weight := 1; intensity := intensity;
     fillAlpha := Num.affine 0.15 0.6 intensity;
     fillOpacity := 0.9 |}.

Definition popup_of (f : Feature) : string :=
  prop_name f +:+ "<br/>New entities: " +:+ pretty (prop_count f).

Definition maxCount_of (hotspots : list MapHotspot) : Z :=
  Num.max_with (count <$> hotspots) 1.

(** [addData] of [L.geoJSON] over the features of the collection, in
    order; [None] when it throws. *)
Fixpoint addData (features : list Feature) : option (list Feature) :=
  match features with
  | [] => Some []
  | f :: rest =>
      match geometryToLayer (feat_geometry f) with
      | Skipped => addData rest
      | Invalid => None
      | Drawn => cons f <$> addData rest
      end
  end.

(** The hotspots that get a layer. *)
Definition drawn (h : MapHotspot) : bool :=
  match JSON_parse (geometry h) with
  | Some g => if geometryToLayer g is Drawn then true else false
  | None => false
  end.

Definition renderGeo (hotspots : list MapHotspot) (p : Page) : outcome :=
  match map p with
  | None => Returned p
  | Some shown =>
      (* this.geoLayer.remove() *)
      let shown := if geoLayer p is Some _ then None else shown in
      let maxCount := maxCount_of hotspots in
      let thrown :=
        Thrown {| map := Some shown; geoLayer := geoLayer p;
                  loading := loading p |} in
      match mapM feature_of hotspots with
      | None => thrown
      | Some features =>
          match addData features with
          | None => thrown
          | Some added =>
              let layer :=
                {| layer_maxCount := maxCount;
                   layer_features :=
                     (λ f, (f, style_of maxCount f, popup_of f)) <$> added |} in
              Returned {| map := Some (Some layer); geoLayer := Some layer;
                          loading := loading p |}
          end
      end
  end.

End WithJson.

End MapPage.

(** ** The chat operations of the API client (core/api.service.ts) *)

Module Api.

#[warnings="-register-all"]
Inductive Json :=
| JNull
| JBool (b : bool)
| JNumber (n : Z)
| JString (s : string)
| JArray (l : list Json)
| JObject (fields : list (string * Json)).

Inductive Method := GET | POST.

Record Request := {
  method : Method;
  url : string;
  body : option Json;
  response_type : string
}.

(** The types that occur in the two response interfaces. *)
Inductive TsType :=
| TString
| TUnknown
| TRecord (key value : TsType)
| TArray (elem : TsType).

Record Interface := {
  iface_name : string;
  iface_extends : option string;
  iface_members : list (string * TsType)
}.

Definition ChatSqlResponse : Interface :=
  {| iface_name := "ChatSqlResponse"; iface_extends := None;
     iface_members :=
       [("intent", TString); ("slots", TRecord TString TUnknown);
        ("sql", TString)] |}.

Definition ChatResponse : Interface :=
  {| iface_name := "ChatResponse"; iface_extends := Some "ChatSqlResponse";
     iface_members :=
       [("data", TArray (TRecord TString TUnknown)); ("narrative", TString)] |}.

Definition interfaces : list Interface := [ChatSqlResponse; ChatResponse].

Definition find_interface (n : string) : option Interface :=
  find (λ i, String.eqb (iface_name i) n) interfaces.

(** The members of an interface, inherited ones first.  [depth] bounds the
    length of the [extends] chain that is followed. *)
Fixpoint members_of (depth : nat) (n : string) : option (list (string * TsType)) :=
  match depth with
  | O => None
  | S d =>
      i ← find_interface n;
      match iface_extends i with
      | None => Some (iface_members i)
      | Some parent =>
          inherited ← members_of d parent;
          Some (inherited ++ iface_members i)
      end
  end.

Definition shape_of (n : string) : option (list (string * TsType)) :=
  members_of (length interfaces) n.

Definition baseUrl : string := "http://localhost:8000".

Definition chatSql (question : string) : Request :=
  {| method := POST; url := baseUrl +:+ "/api/chat/sql-only";
     body := Some (JObject [("question", JString question)]);
     response_type := "ChatSqlResponse" |}.

Definition chatQuery (question : string) : Request :=
  {| method := POST; url := baseUrl +:+ "/api/chat/query";
     body := Some (JObject [("question", JString question)]);
     response_type := "ChatResponse" |}.

(** The part of a URL after its scheme and authority. *)
Fixpoint after_scheme (url : string) : option string :=
  match url with
  | EmptyString => None
  | String ":" (String "/" (String "/" rest)) => Some rest
  | String _ rest => after_scheme rest
  end.

Fixpoint from_slash (s : string) : string :=
  match s with
  | EmptyString => EmptyString
  | String c rest => if Ascii.eqb c "/" then s else from_slash rest
  end.

Definition path_of (url : string) : string :=
  match after_scheme url with
  | Some rest => from_slash rest
  | None => url
  end.

End Api.

(** ** The GET operations of the API client (core/api.service.ts) *)

(** [String(n)] of a number follows the number-to-string algorithm of the
    language (shortest digits, an exponent from 1e21 on, [NaN],
    [Infinity]).  It is kept behind an interface, with the one fact the
    pages rely on: an integer of magnitude below 2^53 is a number, and it is
    printed in decimal.  The theorems hold for every implementation, the
    examples run on the integers. *)
Class JsNumber := {
  number : Type;
  number_of_Z : Z → number;
  String_of_number : number → string;
  String_of_integer :
    ∀ n : Z, (Z.abs n < 2 ^ 53)%Z → String_of_number (number_of_Z n) = pretty n
}.

#[export] Instance integer_numbers : JsNumber :=
  {| number := Z; number_of_Z := λ n, n; String_of_number := pretty;
     String_of_integer := λ n _, eq_refl |}.

Module Service.

Section WithNumbers.
Context `{JsNumber}.

(** A value of a parameter object: a string or a number. *)
Inductive QueryValue :=
| QString (s : string)
| QNumber (n : number).

(** [HttpParams]: the parameters with their values, in insertion order. *)
Definition HttpParams : Type := list (string * string).

(** [httpParams.set(key, value)]: the value of [key] is replaced where it
    stands, a new key is added at the end. *)
Fixpoint set (key value : string) (hp : HttpParams) : HttpParams :=
  match hp with
  | [] => [(key, value)]
  | (k, v) :: rest =>
      if String.eqb k key then (k, value) :: rest
      else (k, v) :: set key value rest
  end.

(** [String(value)] *)
Definition String_of (v : QueryValue) : string :=
  match v with
  | QString s => s
  | QNumber n => String_of_number n
  end.

(** The loop of [getOverview], [getTrends] and [getHotspots] over
    [Object.entries(params ?? {})]: [if (value) httpParams.set(key, value)].
    An entry with an undefined value is [(key, None)]. *)
Definition truthy_params (entries : list (string * option string)) : HttpParams :=
  fold_left
    (λ hp e,
       match e.2 with
       | Some value => if Js.truthy value then set e.1 value hp else hp
       | None => hp
       end)
    entries [].

(** [value !== undefined && value !== null && value !== ''] *)
Definition defined (v : option QueryValue) : bool :=
  match v with
  | None => false
  | Some (QString s) => Js.truthy s
  | Some (QNumber _) => true
  end.

(** The loop of [getTopSsic] and [searchEntities]:
    [httpParams.set(key, String(value))] for every defined value. *)
Definition defined_params (entries : list (string * option QueryValue))
    : HttpParams :=
  fold_left
    (λ hp e,
       match e.2 with
       | Some value =>
           if defined (Some value) then set e.1 (String_of value) hp else hp
       | None => hp
       end)
    entries [].

Record Request := {
  url : string;
  params : HttpParams;
  response_type : string
}.

Definition getOverview (params : option (list (string * option string))) : Request :=
  {| url := Api.baseUrl +:+ "/api/overview";
     params := truthy_params (default [] params);
     response_type := "OverviewResponse" |}.

Definition getTrends (params : option (list (string * option string))) : Request :=
  {| url := Api.baseUrl +:+ "/api/trends/new-entities";
     params := truthy_params (default [] params);
     response_type := "TrendsResponse" |}.

Definition getTopSsic (params : option (list (string * option QueryValue))) : Request :=
  {| url := Api.baseUrl +:+ "/api/rankings/top-ssic";
     params := defined_params (default [] params);
     response_type := "RankingsResponse" |}.

Definition getHotspots (params : option (list (string * option string))) : Request :=
  {| url := Api.baseUrl +:+ "/api/map/hotspots";
     params := truthy_params (default [] params);
     response_type := "MapHotspotsResponse" |}.

Definition searchEntities (params : list (string * option QueryValue)) : Request :=
  {| url := Api.baseUrl +:+ "/api/entities/search";
     params := defined_params params;
     response_type := "EntitySearchResponse" |}.

Definition getEntity (uen : string) : Request :=
  {| url := Api.baseUrl +:+ "/api/entities/" +:+ uen;
     params := [];
     response_type := "EntityDetail" |}.

Record TrendPoint := {
  month : Z;
  tp_count : Z
}.

Record TrendsResponse := {
  series : list TrendPoint
}.

Record RankingItem := {
  ssic_code : option string;
  ssic_description : option string;
  ri_count : Z
}.

Record RankingsResponse := {
  items : list RankingItem
}.

Record MapHotspotsResponse := {
  month_start : Z;
  month_end : Z;
  hotspots : list MapPage.MapHotspot
}.

Record EntitySummary := {
  uen : string;
  entity_name : string;
  entity_status_description : string;
  entity_type_description : string;
  business_constitution_description : string;
  company_type_description : option string;
  registration_incorporation_date : option string;
  uen_issue_date : option string;
  primary_ssic_code : option string;
  secondary_ssic_code : option string;
  postal_code : option string;
  planning_area_id : option string;
  subzone_id : option string
}.

Record EntitySearchResponse := {
  total : Z;
  es_items : list EntitySummary
}.

(** What a loop sends for an entry: nothing for an undefined value or one
    the test [keep] refuses. *)
Definition kept {V} (keep : V → option string) (e : string * option V)
    : option (string * string) :=
  v ← e.2; s ← keep v; Some (e.1, s).

(** The test of the first loop, [if (value)]. *)
Definition keep_truthy (s : string) : option string :=
  if Js.truthy s then Some s else None.

(** The test of the second loop, with the string that is sent. *)
Definition keep_defined (v : QueryValue) : option string :=
  if defined (Some v) then Some (String_of v) else None.

(** What is sent for an optional text field: the field with its value when
    it is defined and not empty, nothing otherwise. *)
Definition field (key : string) (value : option string) : HttpParams :=
  match value with
  | Some s => if Js.truthy s then [(key, s)] else []
  | None => []
  end.

(** The parameter a page passes for an optional filter field. *)
Definition text (v : option string) : option QueryValue := QString <$> v.

End WithNumbers.

End Service.

(** ** The rest of the footprint map page (pages/map/map.page.ts) *)

Module MapFlow.

Section WithJson.
Variable Geometry : Type.
Variable JSON_parse : string → option Geometry.
Variable geometryToLayer : Geometry → MapPage.Drawing.

(** The page with its filters. *)
Record State := {
  page : MapPage.Page Geometry;
  filters : FilterBar.FilterState
}.

Definition set_loading (v : bool) (p : MapPage.Page Geometry) : MapPage.Page Geometry :=
  {| MapPage.map := MapPage.map Geometry p;
     MapPage.geoLayer := MapPage.geoLayer Geometry p;
     MapPage.loading := v |}.

(** [refresh]: nothing without a map; otherwise [loading] is set and the
    hotspots are requested. *)
Definition refresh (s : State) : State * list Service.Request :=
  match MapPage.map Geometry (page s) with
  | None => (s, [])
  | Some _ =>
      ({| page := set_loading true (page s); filters := filters s |},
       [Service.getHotspots
          (Some [("ssic", FilterBar.ssic (filters s));
                 ("from", FilterBar.from (filters s));
                 ("to", FilterBar.to (filters s))])])
  end.

(** The subscriber of [refresh]: [renderGeo], then [loading = false]; an
    exception of [renderGeo] leaves the assignment out. *)
Definition refresh_next (data : Service.MapHotspotsResponse) (s : State)
    : MapPage.outcome Geometry :=
  match MapPage.renderGeo Geometry JSON_parse geometryToLayer
          (Service.hotspots data) (page s) with
  | MapPage.Returned _ p => MapPage.Returned _ (set_loading false p)
  | MapPage.Thrown _ p => MapPage.Thrown _ p
  end.

(** [ngAfterViewInit]: the map is created, without a GeoJSON layer on it,
    and the hotspots are requested. *)
Definition ngAfterViewInit (s : State) : State * list Service.Request :=
  refresh {| page := {| MapPage.map := Some None;
                        MapPage.geoLayer := MapPage.geoLayer Geometry (page s);
                        MapPage.loading := MapPage.loading Geometry (page s) |};
             filters := filters s |}.

Definition onFiltersChange (next : FilterBar.FilterState) (s : State)
    : State * list Service.Request :=
  refresh {| page := page s; filters := next |}.

End WithJson.

End MapFlow.

(** ** The overview page (pages/overview/overview.page.ts) *)

Module OverviewPage.

Section WithResponse.
Context `{JsNumber}.
Variable OverviewResponse : Type.

Record Page := {
  filters : FilterBar.FilterState;
  overview : option OverviewResponse;
  trends : option Service.TrendsResponse;
  rankings : option Service.RankingsResponse;
  loading : bool
}.

Definition refresh (p : Page) : Page * list Service.Request :=
  let params :=
    [("from", FilterBar.from (filters p)); ("to", FilterBar.to (filters p));
     ("ssic", FilterBar.ssic (filters p)); ("area", FilterBar.area (filters p))] in
  ({| filters := filters p; overview := overview p; trends := trends p;
      rankings := rankings p; loading := true |},
   [Service.getOverview (Some params);
    Service.getTrends (Some params);
    Service.getTopSsic
      (Some [("from", Service.text (FilterBar.from (filters p)));
             ("to", Service.text (FilterBar.to (filters p)));
             ("area", Service.text (FilterBar.area (filters p)));
             ("limit", Some (Service.QNumber (number_of_Z 10)))])]).

Definition onFiltersChange (next : FilterBar.FilterState) (p : Page)
    : Page * list Service.Request :=
  refresh {| filters := next; overview := overview p; trends := trends p;
             rankings := rankings p; loading := loading p |}.

(** The three subscribers of [refresh]. *)
Definition overview_next (data : OverviewResponse) (p : Page) : Page :=
  {| filters := filters p; overview := Some data; trends := trends p;
     rankings := rankings p; loading := loading p |}.

Definition trends_next (data : Service.TrendsResponse) (p : Page) : Page :=
  {| filters := filters p; overview := overview p; trends := Some data;
     rankings := rankings p; loading := false |}.

Definition rankings_next (data : Service.RankingsResponse) (p : Page) : Page :=
  {| filters := filters p; overview := overview p; trends := trends p;
     rankings := Some data; loading := loading p |}.

Definition chartLabels (p : Page) : list string :=
  match trends p with
  | Some t => (λ point, pretty (Service.month point)) <$> Service.series t
  | None => []
  end.

Definition chartValues (p : Page) : list Z :=
  match trends p with
  | Some t => Service.tp_count <$> Service.series t
  | None => []
  end.

End WithResponse.

End OverviewPage.

(** ** The industries page (src/unnamed/part_003) *)

Module IndustriesPage.

Section WithNumbers.
Context `{JsNumber}.

Record Page := {
  filters : FilterBar.FilterState;
  rankings : list Service.RankingItem;
  selected : option Service.RankingItem
}.

Definition refresh (p : Page) : Page * list Service.Request :=
  (p,
   [Service.getTopSsic
      (Some [("from", Service.text (FilterBar.from (filters p)));
             ("to", Service.text (FilterBar.to (filters p)));
             ("area", Service.text (FilterBar.area (filters p)));
             ("limit", Some (Service.QNumber (number_of_Z 15)))])]).

Definition onFiltersChange (next : FilterBar.FilterState) (p : Page)
    : Page * list Service.Request :=
  refresh {| filters := next; rankings := rankings p; selected := selected p |}.

(** The subscriber of [refresh]: [data.items[0]] is undefined for an empty
    list. *)
Definition refresh_next (data : Service.RankingsResponse) (p : Page) : Page :=
  {| filters := filters p; rankings := Service.items data;
     selected := Service.items data !! 0 |}.

Definition select (item : Service.RankingItem) (p : Page) : Page :=
  {| filters := filters p; rankings := rankings p; selected := Some item |}.

End WithNumbers.

End IndustriesPage.

(** ** The entities page (src/unnamed/part_001) *)

Module EntitiesPage.

Section WithDetail.
Context `{JsNumber}.
Variable EntityDetail : Type.

Record Page := {
  query : string;
  status : string;
  ssic : string;
  items : list Service.EntitySummary;
  total : Z;
  selected : option EntityDetail;
  loading : bool
}.

Definition search (p : Page) : Page * list Service.Request :=
  ({| query := query p; status := status p; ssic := ssic p; items := items p;
      total := total p; selected := selected p; loading := true |},
   [Service.searchEntities
      [("q", Some (Service.QString (query p)));
       ("ssic", Some (Service.QString (ssic p)));
       ("status", Some (Service.QString (status p)));
       ("limit", Some (Service.QNumber (number_of_Z 50)));
       ("offset", Some (Service.QNumber (number_of_Z 0)))]]).

Definition search_next (data : Service.EntitySearchResponse) (p : Page) : Page :=
  {| query := query p; status := status p; ssic := ssic p;
     items := Service.es_items data; total := Service.total data;
     selected := selected p; loading := false |}.

Definition select (item : Service.EntitySummary) (p : Page)
    : Page * list Service.Request :=
  (p, [Service.getEntity (Service.uen item)]).

Definition select_next (detail : EntityDetail) (p : Page) : Page :=
  {| query := query p; status := status p; ssic := ssic p; items := items p;
     total := total p; selected := Some detail; loading := loading p |}.

Definition close (p : Page) : Page :=
  {| query := query p; status := status p; ssic := ssic p; items := items p;
     total := total p; selected := None; loading := loading p |}.

End WithDetail.

End EntitiesPage.

(** ** The chat page (src/unnamed/part_002) *)

Module ChatPage.

Inductive Role := user | assistant.

Record ChatMessage := {
  role : Role;
  text : string
}.

(** [ChatResponse] of core/api.service.ts. *)
Record ChatResponse := {
  intent : string;
  slots : list (string * Api.Json);
  sql : string;
  data : list (list (string * Api.Json));
  narrative : string
}.

Record Page := {
  question : string;
  messages : list ChatMessage;
  response : option ChatResponse;
  loading : bool
}.

Definition initial : Page :=
  {| question := ""; messages := []; response := None; loading := false |}.

Section WithStrings.
Context `{JsString}.

Definition submit (p : Page) : Page * list Api.Request :=
  let question' := trim (question p) in
  if negb (Js.truthy question') then (p, [])
  else
    ({| question := "";
        messages := messages p ++ [{| role := user; text := question' |}];
        response := response p; loading := true |},
     [Api.chatQuery question']).

(** The subscriber of [submit]. *)
Definition submit_next (res : ChatResponse) (p : Page) : Page :=
  {| question := question p;
     messages := messages p ++ [{| role := assistant; text := narrative res |}];
     response := Some res; loading := false |}.

(** What happens to the page: the user edits the question (the two-way
    binding of the input), submits, or a response arrives. *)
Inductive Event :=
| Typed (s : string)
| Submit
| Responded (res : ChatResponse).

Definition step (e : Event) (st : Page * list Api.Request) : Page * list Api.Request :=
  match e with
  | Typed s =>
      ({| question := s; messages := messages st.1; response := response st.1;
          loading := loading st.1 |}, st.2)
  | Submit => let r := submit st.1 in (r.1, st.2 ++ r.2)
  | Responded res => (submit_next res st.1, st.2)
  end.

(** The page and the requests sent after a run of events, oldest first. *)
Definition run (events : list Event) (p : Page) : Page * list Api.Request :=
  fold_left (λ st e, step e st) events (p, []).

End WithStrings.

(** What an event adds to the assistant's messages. *)
Definition narrated (e : Event) : option string :=
  match e with
  | Responded res => Some (narrative res)
  | _ => None
  end.

(** The texts of the messages of one role. *)
Definition texts_of (r : Role) (ms : list ChatMessage) : list string :=
  text <$> List.filter (λ m, match role m, r with
                             | user, user | assistant, assistant => true
                             | _, _ => false
                             end) ms.

End ChatPage.

(** ** The line chart (shared/line-chart.component.ts) *)

Module LineChart.

Section WithNumbers.
(** The type of the values plotted. *)
Variable Number : Type.

(** What of the chart configuration depends on the inputs: the labels, and
    the label and the data of the one dataset. *)
Record Config := {
  cfg_labels : list string;
  cfg_dataset_label : string;
  cfg_data : list Number
}.

(** The charts of the canvas that are alive, each with the identity
    [new Chart] gave it, and the next identity. *)
Record Canvas := {
  alive : list (nat * Config);
  next : nat
}.

Record Component := {
  labels : list string;
  values : list Number;
  title : string;
  chart : option nat
}.

Definition initial : Component * Canvas :=
  ({| labels := []; values := []; title := ""; chart := None |},
   {| alive := []; next := 0 |}).

(** [chart.destroy()] *)
Definition destroy (id : nat) (cv : Canvas) : Canvas :=
  {| alive := List.filter (λ e, negb (e.1 =? id)%nat) (alive cv);
     next := next cv |}.

Definition config_of (c : Component) : Config :=
  {| cfg_labels := labels c;
     cfg_dataset_label := if Js.truthy (title c) then title c else "New entities";
     cfg_data := values c |}.

Definition renderChart (st : Component * Canvas) : Component * Canvas :=
  let (c, cv) := st in
  let cv := match chart c with Some id => destroy id cv | None => cv end in
  ({| labels := labels c; values := values c; title := title c;
      chart := Some (next cv) |},
   {| alive := alive cv ++ [(next cv, config_of c)]; next := S (next cv) |}).

(** [ngOnChanges(changes)]; [changes] lists the inputs that changed. *)
Definition ngOnChanges (changes : list string) (st : Component * Canvas)
    : Component * Canvas :=
  if bool_decide ("labels" ∈ changes) || bool_decide ("values" ∈ changes)
  then renderChart st else st.

Definition ngOnDestroy (st : Component * Canvas) : Component * Canvas :=
  match chart st.1 with
  | Some id => (st.1, destroy id st.2)
  | None => st
  end.

(** A change of inputs by the parent: the inputs bound anew are assigned,
    then [ngOnChanges] is called with their names. *)
Record Change := {
  new_labels : option (list string);
  new_values : option (list Number);
  new_title : option string
}.

Definition changed (ch : Change) : list string :=
  (if new_labels ch is Some _ then ["labels"] else [])
  ++ (if new_values ch is Some _ then ["values"] else [])
  ++ (if new_title ch is Some _ then ["title"] else []).

Definition assign (ch : Change) (c : Component) : Component :=
  {| labels := default (labels c) (new_labels ch);
     values := default (values c) (new_values ch);
     title := default (title c) (new_title ch);
     chart := chart c |}.

Definition update (ch : Change) (st : Component * Canvas) : Component * Canvas :=
  ngOnChanges (changed ch) (assign ch st.1, st.2).

(** The component and its canvas after a run of input changes. *)
Definition run (changes : list Change) : Component * Canvas :=
  fold_left (λ st ch, update ch st) changes initial.

End WithNumbers.

End LineChart.

(** ** The NL→SQL core

    Modelled from the spec: the back end (slot extractors, intent
    classifier, template renderer, narrative generator, orchestrator) is
    not among the sources; only its client (core/api.service.ts), the
    warehouse schema and a smoke test of the two endpoints are.  Every
    definition of this module follows the specification's description of
    the core. *)

Module NL2SQL.

(** *** Text *)

(** Modelled from the spec: the normalized text of a question is lower
    case with white space collapsed; it is kept as the list of its words. *)
Fixpoint split_words (cur s : string) : list string :=
  match s with
  | EmptyString => if Js.truthy cur then [cur] else []
  | String c s' =>
      if Js.is_space c
      then (if Js.truthy cur then [cur] else []) ++ split_words "" s'
      else split_words (cur +:+ String c EmptyString) s'
  end.

(** Modelled from the spec: the words of the normalized question. *)
Definition words (raw : string) : list string :=
  Js.lower <$> split_words "" raw.

(** Modelled from the spec: the normalized question text. *)
Definition normalize (raw : string) : string := String.concat " " (words raw).

(** Modelled from the spec: a phrase starts at the head of a word list. *)
Fixpoint starts_with (pat ws : list string) : bool :=
  match pat, ws with
  | [], _ => true
  | p :: pat', w :: ws' => String.eqb p w && starts_with pat' ws'
  | _ :: _, [] => false
  end.

(** Modelled from the spec: a non-empty phrase occurs at word [i]. *)
Definition occurs_at (pat ws : list string) (i : nat) : bool :=
  match pat with
  | [] => false
  | _ => starts_with pat (drop i ws)
  end.

(** Modelled from the spec: the matched spans of an extractor are the
    word positions at which a phrase occurs. *)
Definition occurrences (pat ws : list string) : list nat :=
  List.filter (occurs_at pat ws) (seq 0 (length ws)).

(** Modelled from the spec: a cue phrase occurs somewhere in the question. *)
Definition has_phrase (ws pat : list string) : bool :=
  match occurrences pat ws with [] => false | _ => true end.

(** Modelled from the spec: one of the cue phrases occurs in the question. *)
Definition has_any (ws : list string) (pats : list (list string)) : bool :=
  existsb (has_phrase ws) pats.

(** Modelled from the spec: a matched span: first word and number of words. *)
Definition Span : Type := nat * nat.

(** Modelled from the spec: word [i] lies in a matched span. *)
Definition in_span (i : nat) (sp : Span) : bool :=
  (sp.1 <=? i)%nat && (i <? sp.1 + sp.2)%nat.

(** Modelled from the spec: a numeric token and its value. *)
Definition parse_number (w : string) : option Z :=
  if Js.digits_regex w then Some (Z.of_N (Js.digits_value 0 w)) else None.

(** *** Dates *)

(** Modelled from the spec: an ISO calendar date. *)
Record Date := { year : Z; month : Z; day : Z }.

#[export] Instance Date_eq_dec : EqDecision Date.
Proof. solve_decision. Defined.

(** Modelled from the spec: calendar arithmetic of the date-range extractor.
    *)
Definition leap_year (y : Z) : bool :=
  ((y mod 4 =? 0) && negb (y mod 100 =? 0) || (y mod 400 =? 0))%Z.

(** Modelled from the spec: the last day of a month, for the upper bound of
    a range. *)
Definition days_in_month (y m : Z) : Z :=
  if (m =? 2)%Z then (if leap_year y then 29 else 28)
  else if ((m =? 4) || (m =? 6) || (m =? 9) || (m =? 11))%Z then 30 else 31.

(** Modelled from the spec: the first day of a month. *)
Definition month_start (y m : Z) : Date := {| year := y; month := m; day := 1 |}.

(** Modelled from the spec: the last day of a month. *)
Definition month_end (y m : Z) : Date :=
  {| year := y; month := m; day := days_in_month y m |}.

(** Modelled from the spec: the month [k] months after month [m] of year
    [y]. *)
Definition add_months (y m k : Z) : Z * Z :=
  let t := (y * 12 + (m - 1) + k)%Z in ((t / 12)%Z, (t mod 12 + 1)%Z).

(** Modelled from the spec: the [YYYYMM] key of the warehouse aggregates. *)
Definition yyyymm (d : Date) : Z := (year d * 100 + month d)%Z.

(** Modelled from the spec: the month names of absolute ranges ("Jan 2023").
    *)
Definition month_names : list (string * Z) :=
  [("jan", 1); ("january", 1); ("feb", 2); ("february", 2); ("mar", 3);
   ("march", 3); ("apr", 4); ("april", 4); ("may", 5); ("jun", 6);
   ("june", 6); ("jul", 7); ("july", 7); ("aug", 8); ("august", 8);
   ("sep", 9); ("september", 9); ("oct", 10); ("october", 10);
   ("nov", 11); ("november", 11); ("dec", 12); ("december", 12)]%Z.

(** Modelled from the spec: the month a word names. *)
Definition month_of_name (w : string) : option Z :=
  snd <$> find (λ e, String.eqb e.1 w) month_names.

(** *** Lookups, loaded once *)

(** Modelled from the spec: the two kinds of geographic unit, planning area
    and subzone. *)
Inductive AreaKind := PlanningArea | Subzone.

#[export] Instance AreaKind_eq_dec : EqDecision AreaKind.
Proof. solve_decision. Defined.

(** Modelled from the spec: the gazetteer maps area names to area ids. *)
Record Area := {
  area_name : string;
  area_kind : AreaKind;
  area_id : string
}.

(** Modelled from the spec: the taxonomy, sector → category → keywords,
    with the SSIC code set of every category. *)
Record Category := {
  cat_id : string;
  cat_sector : string;
  cat_label : string;
  cat_keywords : list string;
  cat_codes : list string
}.

(** Modelled from the spec: the lookups loaded once at startup, gazetteer
    and taxonomy. *)
Record Lookups := {
  gazetteer : list Area;
  taxonomy : list Category
}.

(** *** Intents and slots *)

(** Modelled from the spec: the closed enumeration of intents. *)
Inductive Intent :=
| trend | ranking | hotspot | comparison | entity_lookup | general.

#[export] Instance Intent_eq_dec : EqDecision Intent.
Proof. solve_decision. Defined.

(** Modelled from the spec: the intent as the string of the response. *)
Definition intent_name (i : Intent) : string :=
  match i with
  | trend => "trend" | ranking => "ranking" | hotspot => "hotspot"
  | comparison => "comparison" | entity_lookup => "entity_lookup"
  | general => "general"
  end.

(** Modelled from the spec: the typed value of a slot. *)
Inductive SlotValue :=
| VDate (d : Date)
| VText (s : string)
| VInt (n : Z).

#[export] Instance SlotValue_eq_dec : EqDecision SlotValue.
Proof. solve_decision. Defined.

(** Modelled from the spec: a slot set maps slot names to typed values;
    a slot that was not extracted is absent. *)
Abbreviation SlotSet := (gmap string SlotValue).

(** Modelled from the spec: the date a slot holds, if it holds one. *)
Definition get_date (s : SlotSet) (k : string) : option Date :=
  match s !! k with Some (VDate d) => Some d | _ => None end.

(** Modelled from the spec: the text a slot holds, if it holds one. *)
Definition get_text (s : SlotSet) (k : string) : option string :=
  match s !! k with Some (VText t) => Some t | _ => None end.

(** Modelled from the spec: the integer a slot holds, if it holds one. *)
Definition get_int (s : SlotSet) (k : string) : option Z :=
  match s !! k with Some (VInt n) => Some n | _ => None end.

(** *** Slot extractors *)

(** Modelled from the spec: every position of [ws] at which the matcher [f]
    succeeds on the words that follow. *)
Definition scan {A} (f : list string → option A) (ws : list string)
    : list (A * nat) :=
  omap (λ i, (λ a, (a, i)) <$> f (drop i ws)) (seq 0 (length ws)).

(** Modelled from the spec: an absolute range, "from Jan 2023 to Dec 2023",
    is bounded by the first day of the first month and the last day of the
    last one. *)
Definition absolute_range_at (ws : list string) : option (Date * Date * nat) :=
  match ws with
  | "from" :: m1 :: y1 :: "to" :: m2 :: y2 :: _ =>
      a ← month_of_name m1; y ← parse_number y1;
      b ← month_of_name m2; z ← parse_number y2;
      Some (month_start y a, month_end z b, 6%nat)
  | _ => None
  end.

(** Modelled from the spec: relative ranges ("last 12 months", "this
    year") and single anchors ("since 2022") are resolved against the
    processing date; "last N months" are the N complete months before the
    current one. *)
Definition relative_range_at (today : Date) (ws : list string)
    : option (Date * Date * nat) :=
  match ws with
  | "last" :: n :: "months" :: _ =>
      k ← parse_number n;
      if (1 <=? k)%Z then
        let first := add_months (year today) (month today) (- k) in
        let last := add_months (year today) (month today) (-1) in
        Some (month_start first.1 first.2, month_end last.1 last.2, 3%nat)
      else None
  | "this" :: "year" :: _ =>
      Some (month_start (year today) 1, today, 2%nat)
  | "since" :: y :: _ =>
      k ← parse_number y;
      Some (month_start k 1, today, 2%nat)
  | _ => None
  end.

(** Modelled from the spec: the date-range extractor.  The first absolute
    range wins over relative cues; several relative cues are ambiguous and
    leave the slots unset. *)
Definition extract_dates (today : Date) (ws : list string)
    : option (Date * Date * Span) :=
  match scan absolute_range_at ws with
  | ((a, b, len), i) :: _ => Some (a, b, (i, len))
  | [] =>
      match scan (relative_range_at today) ws with
      | [((a, b, len), i)] => Some (a, b, (i, len))
      | _ => None
      end
  end.

(** Modelled from the spec: [limit] is a positive integer; it is read from
    "top N". *)
Definition limit_at (ws : list string) : option Z :=
  match ws with
  | "top" :: n :: _ =>
      k ← parse_number n; if (1 <=? k)%Z then Some k else None
  | _ => None
  end.

(** Modelled from the spec: the limit extractor; the first "top N" is taken.
    *)
Definition extract_limit (ws : list string) : option (Z * Span) :=
  match scan limit_at ws with
  | (k, i) :: _ => Some (k, (i, 2%nat))
  | [] => None
  end.

(** Modelled from the spec: what the industry extractor returns: a code, a
    category or nothing. *)
Inductive Industry :=
| Code (code : string)
| InCategory (id : string)
| NoIndustry.

(** Modelled from the spec: SSIC codes are numeric tokens of one to five
    digits; tokens inside a span another extractor matched are not
    candidates. *)
Definition code_candidates (ws : list string) (taken : list Span) : list string :=
  remove_dups
    (omap (λ iw : nat * string,
             if negb (existsb (in_span iw.1) taken)
                && Js.digits_regex iw.2 && (String.length iw.2 <=? 5)%nat
             then Some iw.2 else None)
          (imap (λ i w, (i, w)) ws)).

(** Modelled from the spec: an exact label match: the label occurs as a
    phrase. *)
Definition label_match (ws : list string) (c : Category) : bool :=
  has_phrase ws (words (cat_label c)).

(** Modelled from the spec: a keyword match: a keyword occurs as a phrase. *)
Definition keyword_match (ws : list string) (c : Category) : bool :=
  existsb (λ k, has_phrase ws (words k)) (cat_keywords c).

(** Modelled from the spec: a partial substring match: the label or a
    keyword occurs inside the text. *)
Definition partial_match (ws : list string) (c : Category) : bool :=
  let text := String.concat " " ws in
  existsb (λ k, Js.truthy k && Js.includes text (Js.lower k))
          (cat_label c :: cat_keywords c).

(** Modelled from the spec: categories are matched case-insensitively, an
    exact label match before a keyword match before a partial substring
    match. *)
Definition match_category (lk : Lookups) (ws : list string) : option Category :=
  match find (label_match ws) (taxonomy lk) with
  | Some c => Some c
  | None =>
      match find (keyword_match ws) (taxonomy lk) with
      | Some c => Some c
      | None => find (partial_match ws) (taxonomy lk)
      end
  end.

(** Modelled from the spec: the industry extractor.  Numeric-looking
    tokens are codes, not keywords; two different codes are ambiguous.  A
    word the lookup does not have matches nothing, and the slot stays
    absent: the specification gives the extractor no other means to tell
    that a word is meant as an industry. *)
Definition extract_industry (lk : Lookups) (ws : list string)
    (taken : list Span) : Industry :=
  match code_candidates ws taken with
  | [code] => Code code
  | _ :: _ :: _ => NoIndustry
  | [] =>
      match match_category lk ws with
      | Some c => InCategory (cat_id c)
      | None => NoIndustry
      end
  end.

(** Modelled from the spec: a mention of an area: the area and the span of
    its name. *)
Record Mention := {
  m_area : Area;
  m_start : nat;
  m_end : nat
}.

(** Modelled from the spec: area names are matched against the gazetteer,
    case-insensitively. *)
Definition mentions (lk : Lookups) (ws : list string) : list Mention :=
  a ← gazetteer lk;
  i ← occurrences (words (area_name a)) ws;
  [{| m_area := a; m_start := i;
      m_end := i + length (words (area_name a)) |}].

(** Modelled from the spec: the distinct areas mentioned. *)
Definition mentioned_ids (lk : Lookups) (ws : list string) : list string :=
  remove_dups ((λ m, area_id (m_area m)) <$> mentions lk ws).

(** Modelled from the spec: the comparison cues "vs", "compared to" and
    "versus". *)
Definition comparison_cues : list (list string) :=
  [["vs"]; ["compared"; "to"]; ["versus"]].

(** Modelled from the spec: the spans of the comparison cues. *)
Definition cue_spans (ws : list string) : list (nat * nat) :=
  cue ← comparison_cues;
  i ← occurrences cue ws;
  [(i, (i + length cue)%nat)].

(** Modelled from the spec: two mentions of different areas with a
    comparison cue between them. *)
Definition connected (m1 : Mention) (cue : nat * nat) (m2 : Mention) : bool :=
  bool_decide (area_id (m_area m1) ≠ area_id (m_area m2))
  && (m_end m1 <=? cue.1)%nat && (cue.2 <=? m_start m2)%nat.

(** Modelled from the spec: the pairs of different areas connected by a
    comparison cue, in the order of the question. *)
Definition connected_pairs (lk : Lookups) (ws : list string)
    : list (string * string) :=
  m1 ← mentions lk ws;
  cue ← cue_spans ws;
  m2 ← mentions lk ws;
  if connected m1 cue m2
  then [(area_id (m_area m1), area_id (m_area m2))] else [].

(** Modelled from the spec: what the area extractor returns: two compared
    areas, one area or nothing. *)
Inductive AreaSlots :=
| Compare (a b : string)
| Single (kind : AreaKind) (id : string)
| NoArea.

(** Modelled from the spec: the area extractor.  A comparison needs exactly
    two distinct areas connected by a comparison cue; one area alone fills
    [planning_area] or [subzone]; anything else leaves the slots unset. *)
Definition extract_area (lk : Lookups) (ws : list string) : AreaSlots :=
  match mentioned_ids lk ws with
  | [_; _] =>
      match connected_pairs lk ws with
      | (a, b) :: _ => Compare a b
      | [] => NoArea
      end
  | [_] =>
      match mentions lk ws with
      | m :: _ => Single (area_kind (m_area m)) (area_id (m_area m))
      | [] => NoArea
      end
  | _ => NoArea
  end.

(** Modelled from the spec: a letter of a UEN. *)
Definition is_letter (c : ascii) : bool :=
  let n := nat_of_ascii c in
  ((65 <=? n)%nat && (n <=? 90)%nat) || ((97 <=? n)%nat && (n <=? 122)%nat).

(** Modelled from the spec: the number of digits of a token. *)
Fixpoint count_digits (s : string) : nat :=
  match s with
  | EmptyString => 0
  | String c s' => (if Js.is_digit c then 1 else 0) + count_digits s'
  end.

(** Modelled from the spec: a token of letters and digits. *)
Fixpoint all_alnum (s : string) : bool :=
  match s with
  | EmptyString => true
  | String c s' => (Js.is_digit c || is_letter c) && all_alnum s'
  end.

(** Modelled from the spec: the check letter that ends a UEN. *)
Fixpoint last_is_letter (s : string) : bool :=
  match s with
  | EmptyString => false
  | String c EmptyString => is_letter c
  | String _ s' => last_is_letter s'
  end.

(** Modelled from the spec: an explicit UEN is a token of nine or ten
    letters and digits that ends in a letter and has five digits at
    least. *)
Definition is_uen (w : string) : bool :=
  ((String.length w =? 9)%nat || (String.length w =? 10)%nat)
  && all_alnum w && last_is_letter w && (5 <=? count_digits w)%nat.

(** Modelled from the spec: the double quote that delimits an exact entity
    name. *)
Definition quote : ascii := ascii_of_nat 34.

(** Modelled from the spec: the text up to the closing quote. *)
Fixpoint until_quote (s : string) : option string :=
  match s with
  | EmptyString => None
  | String c s' =>
      if Ascii.eqb c quote then Some EmptyString
      else String c <$> until_quote s'
  end.

(** Modelled from the spec: an exact entity name is quoted in the raw
    question; the first non-empty quoted text is taken. *)
Fixpoint quoted_name (s : string) : option string :=
  match s with
  | EmptyString => None
  | String c s' =>
      if Ascii.eqb c quote then
        match until_quote s' with
        | Some n => if Js.truthy n then Some n else quoted_name s'
        | None => None
        end
      else quoted_name s'
  end.

(** Modelled from the spec: what the lookup cue gives: a UEN, a quoted name
    or nothing. *)
Inductive Lookup :=
| ByUen (uen : string)
| ByName (name : string)
| NoLookup.

(** Modelled from the spec: the lookup cue, an explicit UEN before a quoted
    name. *)
Definition extract_lookup (raw : string) : Lookup :=
  match find is_uen (split_words "" raw) with
  | Some u => ByUen u
  | None =>
      match quoted_name raw with
      | Some n => ByName n
      | None => NoLookup
      end
  end.

(** *** Extraction *)

(** Modelled from the spec: what the extractors found, with the matched
    spans. *)
Record Extraction := {
  x_dates : option (Date * Date * Span);
  x_limit : option (Z * Span);
  x_industry : Industry;
  x_area : AreaSlots;
  x_lookup : Lookup
}.

(** Modelled from the spec: the spans the date and limit extractors matched.
    *)
Definition taken_spans (d : option (Date * Date * Span)) (l : option (Z * Span))
    : list Span :=
  match d with Some (_, _, sp) => [sp] | None => [] end ++
  match l with Some (_, sp) => [sp] | None => [] end.

(** Modelled from the spec: every extractor runs on the normalized words
    (the lookup extractor on the raw text as well). *)
Definition extract (lk : Lookups) (today : Date) (raw : string) : Extraction :=
  let ws := words raw in
  let d := extract_dates today ws in
  let l := extract_limit ws in
  {| x_dates := d; x_limit := l;
     x_industry := extract_industry lk ws (taken_spans d l);
     x_area := extract_area lk ws;
     x_lookup := extract_lookup raw |}.

(** Modelled from the spec: a slot is set only when its extractor found a
    value. *)
Definition put (k : string) (v : option SlotValue) (s : SlotSet) : SlotSet :=
  match v with
  | Some x => <[k := x]> s
  | None => s
  end.

(** Modelled from the spec: the slot set holds what the extractors found
    and nothing else; no default is filled in here.  The recognized slots
    are [date_from], [date_to], [ssic_code], [ssic_category],
    [planning_area], [subzone], [compare_area_a], [compare_area_b] and
    [limit]; the value of a lookup cue is kept under [uen] or
    [entity_name]. *)
Definition slots_of (x : Extraction) : SlotSet :=
  let s : SlotSet := ∅ in
  let s := put "date_from" ((λ d, VDate d.1.1) <$> x_dates x) s in
  let s := put "date_to" ((λ d, VDate d.1.2) <$> x_dates x) s in
  let s := put "limit" ((λ l, VInt l.1) <$> x_limit x) s in
  let s :=
    match x_industry x with
    | Code c => <["ssic_code" := VText c]> s
    | InCategory c => <["ssic_category" := VText c]> s
    | NoIndustry => s
    end in
  let s :=
    match x_area x with
    | Compare a b =>
        <["compare_area_b" := VText b]> (<["compare_area_a" := VText a]> s)
    | Single PlanningArea a => <["planning_area" := VText a]> s
    | Single Subzone a => <["subzone" := VText a]> s
    | NoArea => s
    end in
  match x_lookup x with
  | ByUen u => <["uen" := VText u]> s
  | ByName n => <["entity_name" := VText n]> s
  | NoLookup => s
  end.

(** *** Intent classifier *)

(** Modelled from the spec: what the classifier reads: the words and the
    extracted slots. *)
Record Signals := {
  sig_words : list string;
  sig_found : Extraction
}.

(** Modelled from the spec: the geographic cues "hotspot", "where" and
    "map". *)
Definition hotspot_cues : list (list string) := [["hotspot"]; ["where"]; ["map"]].
(** Modelled from the spec: the distribution requests "which subzones" and
    "hotspot". *)
Definition distribution_cues : list (list string) := [["which"; "subzones"]; ["hotspot"]].
(** Modelled from the spec: the ranking cues "top", "most" and "highest". *)
Definition ranking_cues : list (list string) := [["top"]; ["most"]; ["highest"]].
(** Modelled from the spec: the wordings of an explicit count request. *)
Definition count_cues : list (list string) := [["how"; "many"]; ["count"]; ["number"; "of"]].
(** Modelled from the spec: the wordings of an industry axis. *)
Definition industry_axis_cues : list (list string) :=
  [["by"; "industry"]; ["by"; "ssic"]; ["by"; "sector"]; ["per"; "industry"]].
(** Modelled from the spec: the trend cues "trend", "over time", "growth"
    and "monthly". *)
Definition trend_cues : list (list string) :=
  [["trend"]; ["over"; "time"]; ["growth"]; ["monthly"]].

(** Modelled from the spec: rule 1, two distinct areas and a comparison cue.
    *)
Definition comparison_rule (sg : Signals) : bool :=
  match x_area (sig_found sg) with Compare _ _ => true | _ => false end.

(** Modelled from the spec: rule 2, a geographic cue, or an area slot with a
    distribution request. *)
Definition hotspot_rule (sg : Signals) : bool :=
  has_any (sig_words sg) hotspot_cues
  || (match x_area (sig_found sg) with Single _ _ => true | _ => false end
      && has_any (sig_words sg) distribution_cues).

(** Modelled from the spec: rule 3, a ranking cue, or a count request with
    an industry axis. *)
Definition ranking_rule (sg : Signals) : bool :=
  has_any (sig_words sg) ranking_cues
  || (has_any (sig_words sg) count_cues
      && has_any (sig_words sg) industry_axis_cues).

(** Modelled from the spec: rule 4, a trend cue or a date range. *)
Definition trend_rule (sg : Signals) : bool :=
  has_any (sig_words sg) trend_cues
  || match x_dates (sig_found sg) with Some _ => true | None => false end.

(** Modelled from the spec: rule 5, a lookup cue. *)
Definition lookup_rule (sg : Signals) : bool :=
  match x_lookup (sig_found sg) with NoLookup => false | _ => true end.

(** Modelled from the spec: the priority list of guard and intent pairs,
    evaluated top to bottom. *)
Definition rules : list ((Signals → bool) * Intent) :=
  [(comparison_rule, comparison); (hotspot_rule, hotspot);
   (ranking_rule, ranking); (trend_rule, trend);
   (lookup_rule, entity_lookup)].

(** Modelled from the spec: the first rule that matches wins; [general]
    when none does. *)
Definition classify (sg : Signals) : Intent :=
  match find (λ r : (Signals → bool) * Intent, r.1 sg) rules with
  | Some r => r.2
  | None => general
  end.

(** *** SQL template renderer *)

(** Modelled from the spec: a bound parameter, typed: a string, an unsigned
    integer or an array of strings. *)
Inductive Param :=
| PString (s : string)
| PUInt (n : Z)
| PArray (l : list string).

(** Modelled from the spec: a filter condition; the strings are column names
    and names of bound parameters. *)
Inductive Cond :=
| CEq (col param : string)
| CIn (col param : string)
| CIn2 (col param1 param2 : string)
| CBetween (col lo hi : string)
| CFalse.

(** Modelled from the spec: the aggregation grain of a template: a series by
    key, a ranking by key, or plain rows. *)
Inductive Shape :=
| Series (key : string)
| Ranked (key : string)
| Plain.

(** Modelled from the spec: a query skeleton with named placeholders. *)
Record Query := {
  q_table : string;
  q_measure : string;
  q_where : list Cond;
  q_shape : Shape;
  q_limit : option string
}.

(** Modelled from the spec: a rendered query is the query with its named
    placeholders and the bound parameters. *)
Record Rendered := {
  r_query : Query;
  r_params : gmap string Param
}.

(** Modelled from the spec: the text of a condition; values appear as named
    placeholders only. *)
Definition print_cond (c : Cond) : string :=
  match c with
  | CEq col p => col +:+ " = {" +:+ p +:+ ":String}"
  | CIn col p => col +:+ " IN {" +:+ p +:+ ":Array(String)}"
  | CIn2 col p1 p2 =>
      col +:+ " IN ({" +:+ p1 +:+ ":String}, {" +:+ p2 +:+ ":String})"
  | CBetween col lo hi =>
      col +:+ " BETWEEN {" +:+ lo +:+ ":UInt32} AND {" +:+ hi +:+ ":UInt32}"
  | CFalse => "1 = 0"
  end.

(** Modelled from the spec: the text of a query, made of static SQL, schema
    identifiers and placeholders. *)
Definition print_query (q : Query) : string :=
  "SELECT " +:+
  match q_shape q with
  | Series key | Ranked key => key +:+ ", " +:+ q_measure q +:+ " AS new_entities"
  | Plain => "*"
  end +:+
  " FROM " +:+ q_table q +:+
  match q_where q with
  | [] => ""
  | conds => " WHERE " +:+ String.concat " AND " (print_cond <$> conds)
  end +:+
  match q_shape q with
  | Series key => " GROUP BY " +:+ key +:+ " ORDER BY " +:+ key
  | Ranked key => " GROUP BY " +:+ key +:+ " ORDER BY new_entities DESC"
  | Plain => ""
  end +:+
  match q_limit q with
  | Some p => " LIMIT {" +:+ p +:+ ":UInt32}"
  | None => ""
  end.

(** Modelled from the spec: the [sql_text] of a rendered query. *)
Definition sql_text (r : Rendered) : string := print_query (r_query r).

(** Modelled from the spec: the tables of the warehouse a template may read,
    each with the columns it has and the expression of its measure, the pre-
    aggregated tables before the entity table. *)
Definition sources : list (string * list string * string) :=
  [("new_entities_monthly_by_ssic",
    ["registration_month"; "primary_ssic_norm"], "sum(new_entities)");
   ("new_entities_monthly_by_subzone",
    ["registration_month"; "subzone_id"], "sum(new_entities)");
   ("new_entities_monthly_by_planning_area",
    ["registration_month"; "planning_area_id"], "sum(new_entities)");
   ("top_ssic_by_area_month",
    ["registration_month"; "planning_area_id"; "primary_ssic_norm"],
    "sum(new_entities)");
   ("acra_entities_enriched",
    ["registration_month"; "planning_area_id"; "subzone_id";
     "primary_ssic_norm"; "uen"; "entity_name"], "count()")].

(** Modelled from the spec: the column a condition reads. *)
Definition cond_columns (c : Cond) : list string :=
  match c with
  | CEq col _ | CIn col _ | CIn2 col _ _ | CBetween col _ _ => [col]
  | CFalse => []
  end.

(** Modelled from the spec: the grain is served by a pre-aggregated table
    whenever one has every column the query needs. *)
Definition pick_source (needed : list string) : string * string :=
  match find (λ s : string * list string * string,
                forallb (λ col, bool_decide (col ∈ s.1.2)) needed) sources with
  | Some s => (s.1.1, s.2)
  | None => ("acra_entities_enriched", "count()")
  end.

(** Modelled from the spec: the code set of a category, empty for a category
    the taxonomy does not have. *)
Definition codes_of (lk : Lookups) (category : string) : list string :=
  match find (λ c, String.eqb (cat_id c) category) (taxonomy lk) with
  | Some c => cat_codes c
  | None => []
  end.

(** Modelled from the spec: the kind of an area of the gazetteer. *)
Definition kind_of (lk : Lookups) (id : string) : AreaKind :=
  match find (λ a, String.eqb (area_id a) id) (gazetteer lk) with
  | Some a => area_kind a
  | None => PlanningArea
  end.

(** Modelled from the spec: the warehouse column of a kind of area. *)
Definition area_column (k : AreaKind) : string :=
  match k with
  | PlanningArea => "planning_area_id"
  | Subzone => "subzone_id"
  end.

(** Modelled from the spec: a filter with the parameters it binds. *)
Definition Filter : Type := list Cond * list (string * Param).

(** Modelled from the spec: a category that maps to no code is rendered
    as a condition that matches nothing; the filter is never left out. *)
Definition industry_filter (lk : Lookups) (s : SlotSet) : Filter :=
  let by_code : Filter :=
    match get_text s "ssic_code" with
    | Some c => ([CEq "primary_ssic_norm" "ssic_code"], [("ssic_code", PString c)])
    | None => ([], [])
    end in
  let by_category : Filter :=
    match get_text s "ssic_category" with
    | Some c =>
        match codes_of lk c with
        | [] => ([CFalse], [])
        | codes =>
            ([CIn "primary_ssic_norm" "ssic_codes"], [("ssic_codes", PArray codes)])
        end
    | None => ([], [])
    end in
  (by_code.1 ++ by_category.1, by_code.2 ++ by_category.2).

(** Modelled from the spec: the filter of the area slots. *)
Definition area_filter (s : SlotSet) : Filter :=
  let planning : Filter :=
    match get_text s "planning_area" with
    | Some a => ([CEq "planning_area_id" "planning_area"], [("planning_area", PString a)])
    | None => ([], [])
    end in
  let sub : Filter :=
    match get_text s "subzone" with
    | Some a => ([CEq "subzone_id" "subzone"], [("subzone", PString a)])
    | None => ([], [])
    end in
  (planning.1 ++ sub.1, planning.2 ++ sub.2).

(** Modelled from the spec: the date range defaults to the trailing twelve
    complete months. *)
Definition date_filter (today : Date) (s : SlotSet) : Filter :=
  let range :=
    match get_date s "date_from", get_date s "date_to" with
    | Some a, Some b => (yyyymm a, yyyymm b)
    | _, _ =>
        let first := add_months (year today) (month today) (-12) in
        let last := add_months (year today) (month today) (-1) in
        ((first.1 * 100 + first.2)%Z, (last.1 * 100 + last.2)%Z)
    end in
  ([CBetween "registration_month" "month_from" "month_to"],
   [("month_from", PUInt range.1); ("month_to", PUInt range.2)]).

(** Modelled from the spec: [limit] defaults to 10. *)
Definition default_limit : Z := 10.

(** Modelled from the spec: the maximum of [limit], per intent. *)
Definition max_limit (i : Intent) : Z :=
  match i with
  | ranking => 50
  | hotspot => 100
  | _ => 20
  end.

(** Modelled from the spec: [limit] is a bounded positive integer with a
    default and a maximum per intent, bound as an integer parameter. *)
Definition limit_param (i : Intent) (s : SlotSet) : list (string * Param) :=
  let n := default default_limit (get_int s "limit") in
  [("limit", PUInt (Z.max 1 (Z.min n (max_limit i))))].

(** Modelled from the spec: the stand-in of a question that cannot be
    answered, a query that returns no row. *)
Definition stand_in : Rendered :=
  {| r_query := {| q_table := "acra_entities_enriched"; q_measure := "count()";
                   q_where := [CFalse]; q_shape := Plain; q_limit := None |};
     r_params := ∅ |}.

(** Modelled from the spec: a template instantiated: the conditions of its
    filters, the table that serves them and the bound parameters. *)
Definition assemble (shape : Shape) (filters : list Filter) (limit : list (string * Param))
    : Rendered :=
  let conds := concat (fst <$> filters) in
  let key :=
    match shape with Series k | Ranked k => [k] | Plain => [] end in
  let source := pick_source (key ++ concat (cond_columns <$> conds)) in
  {| r_query := {| q_table := source.1; q_measure := source.2;
                   q_where := conds; q_shape := shape;
                   q_limit := match limit with [] => None | _ => Some "limit" end |};
     r_params := list_to_map (concat (snd <$> filters) ++ limit) |}.

(** Modelled from the spec: one template per intent.  [comparison] needs
    both areas and [entity_lookup] a UEN or a name; without them the
    stand-in is rendered. *)
Definition render (lk : Lookups) (today : Date) (i : Intent) (s : SlotSet)
    : Rendered :=
  match i with
  | trend =>
      assemble (Series "registration_month")
        [date_filter today s; industry_filter lk s; area_filter s] []
  | ranking =>
      assemble (Ranked "primary_ssic_norm")
        [date_filter today s; industry_filter lk s; area_filter s]
        (limit_param i s)
  | hotspot =>
      assemble (Ranked "subzone_id")
        [date_filter today s; industry_filter lk s; area_filter s]
        (limit_param i s)
  | comparison =>
      match get_text s "compare_area_a", get_text s "compare_area_b" with
      | Some a, Some b =>
          let col := area_column (kind_of lk a) in
          assemble (Ranked col)
            [([CIn2 col "area_a" "area_b"],
              [("area_a", PString a); ("area_b", PString b)]);
             date_filter today s; industry_filter lk s] []
      | _, _ => stand_in
      end
  | entity_lookup =>
      match get_text s "uen", get_text s "entity_name" with
      | Some u, _ =>
          assemble Plain
            [([CEq "uen" "uen"], [("uen", PString u)]); industry_filter lk s]
            (limit_param i s)
      | None, Some n =>
          assemble Plain
            [([CEq "entity_name" "entity_name"], [("entity_name", PString n)]);
             industry_filter lk s]
            (limit_param i s)
      | None, None => stand_in
      end
  | general => stand_in
  end.

(** *** Query executor *)

(** Modelled from the spec: a value of a warehouse column. *)
Inductive Value :=
| VS (s : string)
| VN (n : Z)
| VNull.

#[export] Instance Value_eq_dec : EqDecision Value.
Proof. solve_decision. Defined.

(** Modelled from the spec: a result row maps column names to values. *)
Abbreviation Row := (gmap string Value).

(** Modelled from the spec: a condition holds of a row, under the bound
    parameters. *)
Definition eval_cond (params : gmap string Param) (row : Row) (c : Cond) : bool :=
  match c with
  | CEq col p =>
      match row !! col, params !! p with
      | Some (VS v), Some (PString x) => String.eqb v x
      | _, _ => false
      end
  | CIn col p =>
      match row !! col, params !! p with
      | Some (VS v), Some (PArray l) => bool_decide (v ∈ l)
      | _, _ => false
      end
  | CIn2 col p1 p2 =>
      match row !! col, params !! p1, params !! p2 with
      | Some (VS v), Some (PString x), Some (PString y) =>
          String.eqb v x || String.eqb v y
      | _, _, _ => false
      end
  | CBetween col lo hi =>
      match row !! col, params !! lo, params !! hi with
      | Some (VN v), Some (PUInt a), Some (PUInt b) => ((a <=? v) && (v <=? b))%Z
      | _, _, _ => false
      end
  | CFalse => false
  end.

(** Modelled from the spec: what a stored row adds to the measure: its
    [new_entities] in an aggregate table, one in the entity table. *)
Definition weight (row : Row) : Z :=
  match row !! "new_entities" with
  | Some (VN n) => n
  | _ => 1%Z
  end.

(** Modelled from the spec: the value of the grouping column, NULL when the
    row has none. *)
Definition key_of (key : string) (row : Row) : Value := default VNull (row !! key).

(** Modelled from the spec: the summed measure of a group. *)
Definition total (rows : list Row) : Z := foldr Z.add 0%Z (weight <$> rows).

(** Modelled from the spec: [GROUP BY key] with the summed measure: one row
    per key value. *)
Definition group_by (key : string) (rows : list Row) : list Row :=
  (λ k, <[key := k]> ({["new_entities" :=
       VN (total (List.filter (λ r, bool_decide (key_of key r = k)) rows))]} : Row))
    <$> remove_dups (key_of key <$> rows).

(** Modelled from the spec: the order of [ORDER BY]. *)
Definition rank_leb (a b : Z * Row) : Prop := (a.1 ≤ b.1)%Z.

#[export] Instance rank_leb_dec : RelDecision rank_leb.
Proof. intros a b. unfold rank_leb. apply _. Defined.

(** Modelled from the spec: [ORDER BY], ascending in the rank. *)
Definition order_by (rank : Row → Z) (rows : list Row) : list Row :=
  snd <$> merge_sort rank_leb ((λ r, (rank r, r)) <$> rows).

(** Modelled from the spec: the number a value stands for. *)
Definition numeric (v : Value) : Z :=
  match v with VN n => n | _ => 0%Z end.

(** Modelled from the spec: the rows a rendered query returns on the tables
    of the warehouse. *)
Definition run_query (tables : gmap string (list Row)) (r : Rendered) : list Row :=
  let q := r_query r in
  let rows :=
    List.filter (λ row, forallb (eval_cond (r_params r) row) (q_where q))
                (default [] (tables !! q_table q)) in
  let shaped :=
    match q_shape q with
    | Plain => rows
    | Series key => order_by (λ row, numeric (key_of key row)) (group_by key rows)
    | Ranked key => order_by (λ row, (- weight row)%Z) (group_by key rows)
    end in
  match q_limit q with
  | Some p =>
      match r_params r !! p with
      | Some (PUInt n) => take (Z.to_nat n) shaped
      | _ => shaped
      end
  | None => shaped
  end.

(** Modelled from the spec: the placeholders of a condition. *)
Definition cond_params (c : Cond) : list string :=
  match c with
  | CEq _ p | CIn _ p => [p]
  | CIn2 _ p1 p2 => [p1; p2]
  | CBetween _ lo hi => [lo; hi]
  | CFalse => []
  end.

(** Modelled from the spec: the placeholders of a query. *)
Definition placeholders (q : Query) : list string :=
  concat (cond_params <$> q_where q) ++
  match q_limit q with Some p => [p] | None => [] end.

(** Modelled from the spec: every placeholder of the query has a bound
    parameter. *)
Definition well_bound (r : Rendered) : bool :=
  forallb (λ p, bool_decide (is_Some (r_params r !! p))) (placeholders (r_query r)).

(** Modelled from the spec: the states of the warehouse client: answering,
    unreachable, too slow. *)
Inductive ClientStatus := Up | Unreachable | Slow.

(** Modelled from the spec: the warehouse client,
    [execute(sql_text, parameters) → rows], which fails with conditions
    of its own when the warehouse cannot be reached, rejects the query or
    does not answer within the bounded wait. *)
Record Client := {
  tables : gmap string (list Row);
  status : ClientStatus
}.

(** Modelled from the spec: the failure conditions of the warehouse client. *)
Inductive Condition :=
| UpstreamExecutionError
| UpstreamTimeout.

(** Modelled from the spec: one execution attempt by the warehouse client. *)
Definition execute (c : Client) (r : Rendered) : Condition + list Row :=
  match status c with
  | Unreachable => inl UpstreamExecutionError
  | Slow => inl UpstreamTimeout
  | Up =>
      if well_bound r then inr (run_query (tables c) r)
      else inl UpstreamExecutionError
  end.

(** *** Narrative generator *)

(** Modelled from the spec: the fixed guidance string of [general]. *)
Definition fallback_narrative : string :=
  "I could not map this question to a supported analysis. Try asking about trends, rankings, hotspots, area comparisons or a specific entity.".

(** Modelled from the spec: the phrase of an empty result. *)
Definition no_data_narrative : string := "No data found for this filter.".

(** Modelled from the spec: a value as text. *)
Definition show_value (v : Value) : string :=
  match v with
  | VS s => s
  | VN n => pretty n
  | VNull => "unknown"
  end.

(** Modelled from the spec: the label of the first row. *)
Definition top_label (i : Intent) (row : Row) : string :=
  match i with
  | trend => show_value (key_of "registration_month" row)
  | ranking => show_value (key_of "primary_ssic_norm" row)
  | hotspot => show_value (key_of "subzone_id" row)
  | comparison =>
      match row !! "planning_area_id" with
      | Some v => show_value v
      | None => show_value (key_of "subzone_id" row)
      end
  | entity_lookup => show_value (key_of "entity_name" row)
  | general => ""
  end.

(** Modelled from the spec: fixed phrase templates filled with computed
    values; a fixed guidance string for [general]; an explicit phrase for
    an empty result. *)
Definition narrate (i : Intent) (rows : list Row) : string :=
  match i with
  | general => fallback_narrative
  | _ =>
      match rows with
      | [] => no_data_narrative
      | first :: _ =>
          "Found " +:+ pretty (length rows) +:+ " result rows for the "
          +:+ intent_name i +:+ " question; the first is " +:+ top_label i first
          +:+ " with " +:+ pretty (weight first) +:+ " new entities."
      end
  end.

(** *** Orchestrator *)

(** Modelled from the spec: the response of [explain]. *)
Record Explanation := {
  e_intent : Intent;
  e_slots : SlotSet;
  e_sql : string
}.

(** Modelled from the spec: the response of [answer]. *)
Record Answer := {
  a_intent : Intent;
  a_slots : SlotSet;
  a_sql : string;
  a_data : list Row;
  a_narrative : string
}.

(** Modelled from the spec: a user-visible failure carries the classified
    intent and the extracted slots. *)
Record Failure := {
  f_condition : Condition;
  f_intent : Intent;
  f_slots : SlotSet
}.

(** Modelled from the spec: what an operation can act on: the warehouse
    client and the queries sent to it so far, oldest first. *)
Record World := {
  client : Client;
  executed : list Rendered
}.

(** Modelled from the spec: extraction and classification of one question. *)
Definition understand (lk : Lookups) (today : Date) (question : string)
    : Intent * SlotSet :=
  let x := extract lk today question in
  (classify {| sig_words := words question; sig_found := x |}, slots_of x).

(** Modelled from the spec: [explain] extracts, classifies and renders; it
    executes nothing. *)
Definition explain (lk : Lookups) (today : Date) (question : string)
    (w : World) : Explanation * World :=
  let u := understand lk today question in
  ({| e_intent := u.1; e_slots := u.2;
      e_sql := sql_text (render lk today u.1 u.2) |}, w).

(** Modelled from the spec: [answer] is [explain], then one execution,
    then the narrative; no query is executed for [general]. *)
Definition answer (lk : Lookups) (today : Date) (question : string)
    (w : World) : (Failure + Answer) * World :=
  let u := understand lk today question in
  let r := render lk today u.1 u.2 in
  match u.1 with
  | general =>
      (inr {| a_intent := general; a_slots := u.2; a_sql := sql_text r;
              a_data := []; a_narrative := narrate general [] |}, w)
  | i =>
      let w' := {| client := client w; executed := executed w ++ [r] |} in
      match execute (client w) r with
      | inl c => (inl {| f_condition := c; f_intent := i; f_slots := u.2 |}, w')
      | inr rows =>
          (inr {| a_intent := i; a_slots := u.2; a_sql := sql_text r;
                  a_data := rows; a_narrative := narrate i rows |}, w')
      end
  end.

(** *** What the claims speak of *)

(** The type of a slot value. *)
Inductive Tag := TagDate | TagText | TagInt.

(** The type of the value a slot holds. *)
Definition tag_of (v : SlotValue) : Tag :=
  match v with
  | VDate _ => TagDate
  | VText _ => TagText
  | VInt _ => TagInt
  end.

(** What is left of a slot set once every value a question supplied is
    forgotten: the names of the slots with the types of their values,
    whether the category of [ssic_category] has codes, and whether the
    first area of a comparison is a planning area or a subzone. *)
Definition profile (lk : Lookups) (s : SlotSet)
    : gmap string Tag * option bool * option AreaKind :=
  (tag_of <$> s,
   (λ c, bool_decide (codes_of lk c = [])) <$> get_text s "ssic_category",
   kind_of lk <$> get_text s "compare_area_a").

(** The area [id] is mentioned: one of its names occurs in the question. *)
Definition mentioned (lk : Lookups) (ws : list string) (id : string) : Prop :=
  ∃ a i, a ∈ gazetteer lk ∧ area_id a = id
         ∧ occurs_at (words (area_name a)) ws i = true.

(** A mention of [a], then a comparison cue, then a mention of [b]. *)
Definition connected_by_cue (lk : Lookups) (ws : list string) (a b : string)
    : Prop :=
  ∃ x i y j cue k,
    x ∈ gazetteer lk ∧ area_id x = a ∧ occurs_at (words (area_name x)) ws i = true
    ∧ y ∈ gazetteer lk ∧ area_id y = b ∧ occurs_at (words (area_name y)) ws j = true
    ∧ cue ∈ comparison_cues ∧ occurs_at cue ws k = true
    ∧ (i + length (words (area_name x)) ≤ k)%nat ∧ (k + length cue ≤ j)%nat.

(** The question has no recognizable cue: no extractor finds anything in
    it, and it has none of the cue phrases of the classifier. *)
Definition no_cues (lk : Lookups) (today : Date) (question : string) : Prop :=
  let ws := words question in
  extract_dates today ws = None
  ∧ extract_limit ws = None
  ∧ code_candidates ws [] = []
  ∧ match_category lk ws = None
  ∧ mentions lk ws = []
  ∧ extract_lookup question = NoLookup
  ∧ has_any ws (hotspot_cues ++ ranking_cues ++ count_cues ++ trend_cues) = false.

(** *** Sample lookups for the examples *)

(** Lookups for the examples, in the form the loader provides. *)
Definition sample_lookups : Lookups :=
  {| gazetteer :=
       [{| area_name := "Tampines"; area_kind := PlanningArea; area_id := "TM" |};
        {| area_name := "Jurong West"; area_kind := PlanningArea; area_id := "JW" |};
        {| area_name := "Woodlands"; area_kind := PlanningArea; area_id := "WD" |};
        {| area_name := "Tampines East"; area_kind := Subzone; area_id := "TMSZ02" |}];
     taxonomy :=
       [{| cat_id := "fnb"; cat_sector := "services";
           cat_label := "Food and Beverage"; cat_keywords := ["f&b"; "restaurants"];
           cat_codes := ["56111"; "56121"] |};
        {| cat_id := "retail"; cat_sector := "trade"; cat_label := "Retail";
           cat_keywords := ["shops"]; cat_codes := ["47111"] |};
        {| cat_id := "space"; cat_sector := "services"; cat_label := "Space Travel";
           cat_keywords := ["rockets"]; cat_codes := [] |}] |}.

(** A processing date for the examples. *)
Definition sample_today : Date := {| year := 2024; month := 3; day := 15 |}.

(** A row of the top-SSIC aggregate, for the examples. *)
Definition sample_row (month : Z) (area ssic : string) (n : Z) : Row :=
  <["registration_month" := VN month]>
    (<["planning_area_id" := VS area]>
       (<["primary_ssic_norm" := VS ssic]> {["new_entities" := VN n]})).

(** A warehouse for the examples. *)
Definition sample_world : World :=
  {| client :=
       {| tables :=
            {["top_ssic_by_area_month" :=
                [sample_row 202306 "TM" "56111" 7; sample_row 202307 "TM" "47111" 4;
                 sample_row 202308 "JW" "56111" 5; sample_row 202309 "WD" "56121" 3;
                 sample_row 202309 "TM" "56111" 2]]};
          status := Up |};
     executed := [] |}.

End NL2SQL.

(** * Theorems *)

(** ** Tactics *)

(** Membership in a list that is written out. *)
Ltac in_list :=
  solve [repeat first [apply list_elem_of_here | apply list_elem_of_further]].

(** Case analysis on membership in a list that is written out. *)
Ltac split_in :=
  repeat match goal with
         | H : _ ∈ [] |- _ => by apply elem_of_nil in H
         | H : _ ∈ _ :: _ |- _ => apply elem_of_cons in H as [->|H]
         | H : _ ∈ _ ++ _ |- _ => apply elem_of_app in H as [H|H]
         end.

(** ** Lists *)

Lemma find_first {A} (f : A → bool) (l : list A) (x : A) :
  find f l = Some x →
  ∃ pre post, l = pre ++ x :: post ∧ f x = true ∧ Forall (λ y, f y = false) pre.
Proof.
  induction l as [|y l IH]; simpl; [discriminate|].
  destruct (f y) eqn:Hy.
  - intros [= ->]. exists [], l. auto.
  - intros Hl. destruct (IH Hl) as (pre & post & -> & Hx & Hpre).
    exists (y :: pre), post. auto.
Qed.

Lemma find_is_none {A} (f : A → bool) (l : list A) :
  find f l = None ↔ ∀ x, x ∈ l → f x = false.
Proof.
  split.
  - intros Hn x Hx. apply (find_none f l Hn). by apply list_elem_of_In.
  - induction l as [|y l IH]; simpl; [done|]. intros Hall.
    rewrite (Hall y) by left. apply IH. intros x Hx. apply Hall. by right.
Qed.

(** ** The filter bar *)

Section FilterBarFacts.
Context `{JsString}.
Import FilterBar.

Lemma label_equals_eqb value d :
  String.eqb (toLowerCase (label (category d))) (toLowerCase value) = true
  ↔ label_equals value d.
Proof. unfold label_equals. apply String.eqb_eq. Qed.

Lemma keyword_equals_existsb value d :
  existsb (λ k, String.eqb (toLowerCase k) (toLowerCase value))
          (default [] (keywords (category d))) = true
  ↔ keyword_equals value d.
Proof.
  unfold keyword_equals. rewrite existsb_exists. split.
  - intros (k & Hin & Heq). exists k. split; [by apply list_elem_of_In|].
    by apply String.eqb_eq.
  - intros (k & Hin & Heq). exists k. split; [by apply list_elem_of_In|].
    by apply String.eqb_eq.
Qed.

Lemma not_true_false (b : bool) : b = false ↔ ¬ (b = true).
Proof. destruct b; split; congruence. Qed.

(** The loop of [updateGroupedCategories] throws exactly when an item has
    a sector key that names an inherited property; otherwise it is the
    plain loop. *)
Lemma group_all_groupable items grouped :
  groupable items →
  group_all items grouped
  = Some (fold_left (λ g d, group_push (sector_key d) d g) items grouped).
Proof.
  intros Hitems. revert grouped.
  induction Hitems as [|d items Hd _ IH]; intros grouped; [done|].
  cbn [group_all fold_left]. by rewrite Hd, IH.
Qed.

Lemma group_all_throws items grouped :
  group_all items grouped = None ↔ ¬ groupable items.
Proof.
  split.
  - intros Hnone Hitems. by rewrite group_all_groupable in Hnone.
  - revert grouped. induction items as [|d items IH]; intros grouped Hno.
    + exfalso. apply Hno. constructor.
    + cbn [group_all]. destruct (Js.inherited (sector_key d)) eqn:Hd; [done|].
      apply IH. intros Hitems. apply Hno. by constructor.
Qed.

Lemma groupable_dec items : groupable items ∨ ¬ groupable items.
Proof.
  unfold groupable.
  destruct (decide (Forall (λ d, Js.inherited (sector_key d) = false) items));
    auto.
Qed.

(** [updateGroupedCategories] either throws and leaves the component as it
    was, or returns and changes the groups only. *)
Lemma updateGroupedCategories_outcome filter c :
  match updateGroupedCategories filter c with
  | Thrown c' => c' = c ∧ ¬ groupable (items_of filter c)
  | Returned c' =>
      groupable (items_of filter c)
      ∧ state c' = state c ∧ categories c' = categories c
      ∧ filteredCategories c' = filteredCategories c
      ∧ categoryInput c' = categoryInput c ∧ sectorLabel c' = sectorLabel c
      ∧ showCategoryList c' = showCategoryList c
      ∧ stateChange c' = stateChange c
  end.
Proof.
  unfold updateGroupedCategories.
  destruct (group_all (items_of filter c) []) as [grouped|] eqn:Hg.
  - split; [|repeat split].
    destruct (groupable_dec (items_of filter c)) as [|Hno]; [done|].
    apply (group_all_throws _ []) in Hno. congruence.
  - split; [done|]. by apply (group_all_throws _ []).
Qed.

(** The slots [onCategoryInput] assigns, case by case. *)
Abbreviation slots_for := (λ (value : string) (c : Component),
  if negb (Js.truthy value)
  then set_ssic None (set_ssicCategory None (state c))
  else
    match find_match (toLowerCase value) (filteredCategories c) with
    | Some m =>
        set_ssic None (set_ssicCategory (Some (id (category m))) (state c))
    | None =>
        if Js.digits_regex value
        then set_ssicCategory None (set_ssic (Some value) (state c))
        else set_ssicCategory None (set_ssic None (state c))
    end).

(** [onCategoryInput] throws where [updateGroupedCategories] does, before
    anything is assigned; otherwise it sets the slots, opens the list and
    emits the state. *)
Lemma onCategoryInput_outcome c :
  let value := trim (categoryInput c) in
  match onCategoryInput c with
  | Thrown c' => c' = c ∧ ¬ groupable (items_of value c)
  | Returned c' =>
      groupable (items_of value c)
      ∧ state c' = slots_for value c
      ∧ categories c' = categories c
      ∧ filteredCategories c' = filteredCategories c
      ∧ categoryInput c' = categoryInput c
      ∧ sectorLabel c' = sectorLabel c
      ∧ showCategoryList c' = true
      ∧ (∃ c1, updateGroupedCategories value c = Returned c1
               ∧ groupedCategories c' = groupedCategories c1)
      ∧ stateChange c' = stateChange c ++ [state c']
  end.
Proof.
  intros value. unfold onCategoryInput. fold value.
  pose proof (updateGroupedCategories_outcome value c) as Hupdate.
  destruct (updateGroupedCategories value c) as [c1|c1]; [|exact Hupdate].
  destruct Hupdate as (Hitems & Hstate & Hcats & Hfilt & Hinput & Hlab & _ & Hemit).
  cbv beta. rewrite <- Hstate, <- Hfilt.
  destruct (negb (Js.truthy value)).
  { repeat split; try done. by exists c1. cbn. by rewrite Hemit. }
  lazy zeta.
  destruct (find_match _ _).
  { repeat split; try done. by exists c1. cbn. by rewrite Hemit. }
  destruct (Js.digits_regex value).
  { repeat split; try done. by exists c1. cbn. by rewrite Hemit. }
  repeat split; try done. by exists c1. cbn. by rewrite Hemit.
Qed.

Lemma onCategoryInput_returns c :
  groupable (items_of (trim (categoryInput c)) c) →
  ∃ c', onCategoryInput c = Returned c'
        ∧ state c' = slots_for (trim (categoryInput c)) c.
Proof.
  intros Hitems. pose proof (onCategoryInput_outcome c) as Hout.
  destruct (onCategoryInput c) as [c'|c'].
  - exists c'. split; [done|]. apply Hout.
  - by destruct Hout as [_ Hno].
Qed.

Lemma find_match_none value l :
  find_match (toLowerCase value) l = None ↔
  ∀ d, d ∈ l → ¬ label_equals value d ∧ ¬ keyword_equals value d.
Proof.
  unfold find_match, find_direct, find_keyword. split.
  - destruct (find _ l) eqn:Hd; [discriminate|]. intros Hk d Hin.
    rewrite find_is_none in Hd. rewrite find_is_none in Hk.
    rewrite <- label_equals_eqb, <- keyword_equals_existsb, <- !not_true_false.
    auto.
  - intros Hno.
    assert (find (λ d, String.eqb (toLowerCase (label (category d)))
                                  (toLowerCase value)) l = None) as ->.
    { apply find_is_none. intros d Hin. apply not_true_false.
      rewrite label_equals_eqb. by apply Hno. }
    apply find_is_none. intros d Hin. apply not_true_false.
    rewrite keyword_equals_existsb. by apply Hno.
Qed.

(** A label match is found first, whatever the keywords. *)
Lemma find_match_label value l d1 :
  d1 ∈ l → label_equals value d1 →
  ∃ pre d post, l = pre ++ d :: post ∧ label_equals value d
    ∧ Forall (λ e, ¬ label_equals value e) pre
    ∧ find_match (toLowerCase value) l = Some d.
Proof.
  intros Hin Hlab. unfold find_match, find_direct.
  destruct (find _ l) as [d|] eqn:Hd; cycle 1.
  { rewrite find_is_none in Hd. apply label_equals_eqb in Hlab.
    rewrite (Hd d1 Hin) in Hlab. discriminate. }
  destruct (find_first _ _ _ Hd) as (pre & post & -> & Hx & Hpre).
  exists pre, d, post. repeat split; [by apply label_equals_eqb|].
  eapply Forall_impl; [exact Hpre|]. intros e He.
  rewrite <- label_equals_eqb. by apply not_true_false.
Qed.

(** Without a label match, the first keyword match is found. *)
Lemma find_match_keyword value l d2 :
  (∀ d, d ∈ l → ¬ label_equals value d) →
  d2 ∈ l → keyword_equals value d2 →
  ∃ pre d post, l = pre ++ d :: post ∧ keyword_equals value d
    ∧ Forall (λ e, ¬ keyword_equals value e) pre
    ∧ find_match (toLowerCase value) l = Some d.
Proof.
  intros Hno Hin Hkey. unfold find_match, find_direct, find_keyword.
  assert (find (λ d, String.eqb (toLowerCase (label (category d)))
                                (toLowerCase value)) l = None) as ->.
  { apply find_is_none. intros d Hd. apply not_true_false.
    rewrite label_equals_eqb. by apply Hno. }
  destruct (find _ l) as [d|] eqn:Hd; cycle 1.
  { rewrite find_is_none in Hd. apply keyword_equals_existsb in Hkey.
    rewrite (Hd d2 Hin) in Hkey. discriminate. }
  destruct (find_first _ _ _ Hd) as (pre & post & -> & Hx & Hpre).
  exists pre, d, post. repeat split; [by apply keyword_equals_existsb|].
  eapply Forall_impl; [exact Hpre|]. intros e He.
  rewrite <- keyword_equals_existsb. by apply not_true_false.
Qed.

End FilterBarFacts.

(** C9.  The claim fails where grouping the suggestions throws.  The
    parent bound a state with both slots defined; the one category,
    [Crafts], is of a sector called [constructor]; the text typed is
    [craft], which is no label, no keyword and no digit string.  The
    category is listed for this text, [grouped[key].push] throws on the
    inherited [constructor], and [onCategoryInput] ends before it assigns a
    slot: both slots are still defined after the call, where the claim has
    at most one of them, and for this text none. *)
Lemma slots_kept_where_grouping_throws :
  let c := FilterBar.sample_constructor "craft" in
  let value := trim (FilterBar.categoryInput c) in
  (∀ d, d ∈ FilterBar.filteredCategories c →
        ¬ FilterBar.label_equals value d ∧ ¬ FilterBar.keyword_equals value d)
  ∧ Js.digits_regex value = false
  ∧ FilterBar.onCategoryInput c = FilterBar.Thrown c
  ∧ FilterBar.ssic (FilterBar.state (FilterBar.after (FilterBar.onCategoryInput c)))
    = Some "47"
  ∧ FilterBar.ssicCategory
      (FilterBar.state (FilterBar.after (FilterBar.onCategoryInput c)))
    = Some "retail"
  ∧ ¬ FilterBar.at_most_one
        (FilterBar.state (FilterBar.after (FilterBar.onCategoryInput c))).
Proof.
  intros c value. split; [|split; [reflexivity|]].
  - intros d Hd. apply list_elem_of_singleton in Hd as ->.
    split; [by vm_compute|]. intros (k & Hk & _). by apply elem_of_nil in Hk.
  - split; [reflexivity|]. split; [reflexivity|]. split; [reflexivity|].
    by intros [|].
Qed.

(** C5, as stated, fails: the input [56] consists of digits, but it is a
    keyword of the first category, so the category is selected and the
    code slot stays undefined. *)
Lemma digits_keyword_selects_category :
  let c := FilterBar.sample "56" in
  ∃ typed,
    FilterBar.onCategoryInput c = FilterBar.Returned typed
    ∧ Js.digits_regex (trim (FilterBar.categoryInput c)) = true
    ∧ FilterBar.ssic (FilterBar.state typed) = None
    ∧ FilterBar.ssicCategory (FilterBar.state typed) = Some "fnb".
Proof. eexists. split; [reflexivity|]. vm_compute. auto. Qed.

(** C5, amended.  When the call completes (no category listed for the input
    has a sector key that names an inherited property), an input that, once
    trimmed, consists of digits only and equals no category label and no
    category keyword (in lower case) is taken as an SSIC code: [state.ssic]
    is the digit string and [state.ssicCategory] is left undefined. *)
Theorem digits_set_code `{JsString} (c : FilterBar.Component) :
  let value := trim (FilterBar.categoryInput c) in
  FilterBar.groupable (FilterBar.items_of value c) →
  Js.digits_regex value = true →
  (∀ d, d ∈ FilterBar.filteredCategories c →
     ¬ FilterBar.label_equals value d ∧ ¬ FilterBar.keyword_equals value d) →
  ∃ typed,
    FilterBar.onCategoryInput c = FilterBar.Returned typed
    ∧ FilterBar.ssic (FilterBar.state typed) = Some value
    ∧ FilterBar.ssicCategory (FilterBar.state typed) = None.
Proof.
  intros value Hitems Hdigits Hno.
  destruct (onCategoryInput_returns c Hitems) as (typed & Hout & Hstate).
  exists typed. split; [exact Hout|]. rewrite Hstate. fold value.
  apply find_match_none in Hno. rewrite Hno, Hdigits.
  assert (Js.truthy value = true) as ->; [|done].
  unfold Js.digits_regex in Hdigits. by apply andb_true_iff in Hdigits as [? _].
Qed.

(** The input [ 56111 ] equals no label and no keyword of the sample bar:
    it becomes the code. *)
Lemma digits_set_code_witness :
  let c := FilterBar.sample " 56111 " in
  ∃ typed,
    FilterBar.onCategoryInput c = FilterBar.Returned typed
    ∧ FilterBar.ssic (FilterBar.state typed) = Some "56111"
    ∧ FilterBar.ssicCategory (FilterBar.state typed) = None.
Proof.
  assert (∀ d, d ∈ FilterBar.filteredCategories (FilterBar.sample " 56111 ") →
            ¬ FilterBar.label_equals "56111" d
            ∧ ¬ FilterBar.keyword_equals "56111" d) as Hno.
  { intros d Hd. unfold FilterBar.label_equals, FilterBar.keyword_equals.
    apply list_elem_of_In in Hd. simpl in Hd.
    destruct Hd as [<-|[<-|[]]]; (split; [by vm_compute|]);
      intros (k & Hk & Heq); apply list_elem_of_In in Hk; simpl in Hk;
      destruct Hk as [<-|[<-|[]]]; by vm_compute in Heq. }
  assert (FilterBar.groupable
            (FilterBar.items_of "56111" (FilterBar.sample " 56111 "))) as Hitems.
  { constructor. }
  exact (digits_set_code (FilterBar.sample " 56111 ") Hitems eq_refl Hno).
Defined.

(** C6, as stated, fails: the empty input is the label of the first
    category and a keyword of the second one, yet no category is selected:
    an empty input clears both slots before any comparison. *)
Lemma blank_label_not_selected :
  let c := FilterBar.sample_blank "" in
  ∃ d1 d2 typed,
    FilterBar.filteredCategories c = [d1; d2]
    ∧ FilterBar.label (FilterBar.category d1) = FilterBar.categoryInput c
    ∧ FilterBar.categoryInput c
      ∈ default [] (FilterBar.keywords (FilterBar.category d2))
    ∧ FilterBar.label_equals (trim (FilterBar.categoryInput c)) d1
    ∧ FilterBar.keyword_equals (trim (FilterBar.categoryInput c)) d2
    ∧ FilterBar.onCategoryInput c = FilterBar.Returned typed
    ∧ FilterBar.ssicCategory (FilterBar.state typed) = None.
Proof.
  do 3 eexists. split; [reflexivity|]. split; [reflexivity|].
  split; [simpl; left|]. split; [reflexivity|].
  split; [exists ""; split; [simpl; left|reflexivity]|].
  split; reflexivity.
Qed.

(** C6, amended.  For an input that is not empty once trimmed, when the
    call completes (no category listed for the input has a sector key that
    names an inherited property): when the input equals the label of some
    category (in lower case), the first category with such a label is
    selected, whatever the keywords of the others; when it equals no label
    but a keyword of some category, the first category with such a keyword
    is selected, whatever labels or keywords merely contain the input.  The
    code slot is cleared in both cases. *)
Theorem label_before_keyword `{JsString} (c : FilterBar.Component) :
  let value := trim (FilterBar.categoryInput c) in
  let cats := FilterBar.filteredCategories c in
  value ≠ "" →
  FilterBar.groupable (FilterBar.items_of value c) →
  ∃ typed,
    FilterBar.onCategoryInput c = FilterBar.Returned typed
    ∧ (∀ d1, d1 ∈ cats → FilterBar.label_equals value d1 →
         ∃ pre d post, cats = pre ++ d :: post
           ∧ FilterBar.label_equals value d
           ∧ Forall (λ e, ¬ FilterBar.label_equals value e) pre
           ∧ FilterBar.ssicCategory (FilterBar.state typed)
             = Some (FilterBar.id (FilterBar.category d))
           ∧ FilterBar.ssic (FilterBar.state typed) = None)
    ∧ ((∀ d, d ∈ cats → ¬ FilterBar.label_equals value d) →
       ∀ d2, d2 ∈ cats → FilterBar.keyword_equals value d2 →
       ∃ pre d post, cats = pre ++ d :: post
         ∧ FilterBar.keyword_equals value d
         ∧ Forall (λ e, ¬ FilterBar.keyword_equals value e) pre
         ∧ FilterBar.ssicCategory (FilterBar.state typed)
           = Some (FilterBar.id (FilterBar.category d))
         ∧ FilterBar.ssic (FilterBar.state typed) = None).
Proof.
  intros value cats Hvalue Hitems.
  assert (negb (Js.truthy value) = false) as Htruthy.
  { destruct value; [done|reflexivity]. }
  destruct (onCategoryInput_returns c Hitems) as (typed & Hout & Hstate).
  exists typed. split; [exact Hout|]. rewrite Hstate. fold value cats.
  rewrite Htruthy. split.
  - intros d1 Hin Hlab.
    destruct (find_match_label value cats d1 Hin Hlab)
      as (pre & d & post & Hcats & Hd & Hpre & Hfind).
    exists pre, d, post. rewrite Hfind. done.
  - intros Hno d2 Hin Hkey.
    destruct (find_match_keyword value cats d2 Hno Hin Hkey)
      as (pre & d & post & Hcats & Hd & Hpre & Hfind).
    exists pre, d, post. rewrite Hfind. done.
Qed.

(** The input [ food AND beverage] is the label of the first category and a
    keyword of the second one: the first category is selected. *)
Lemma label_before_keyword_witness :
  let c := FilterBar.sample " food AND beverage" in
  trim (FilterBar.categoryInput c) ≠ ""
  ∧ ∃ typed,
      FilterBar.onCategoryInput c = FilterBar.Returned typed
      ∧ FilterBar.ssicCategory (FilterBar.state typed) = Some "fnb".
Proof.
  split; [by vm_compute|].
  destruct (label_before_keyword (FilterBar.sample " food AND beverage"))
    as (typed & Hout & Hlabel & _); [by vm_compute| |].
  { apply (bool_decide_unpack _). by vm_compute. }
  exists typed. split; [exact Hout|].
  destruct (Hlabel (nth 0 (FilterBar.filteredCategories
                             (FilterBar.sample " food AND beverage"))
                      (FilterBar.Build_DisplayCategory
                         (FilterBar.Build_SsicCategory "" "" None None) "")))
    as (pre & d & post & Hcats & Hd & Hpre & Hcat & _).
  - simpl. by left.
  - reflexivity.
  - rewrite Hcat. destruct pre as [|e pre].
    + by injection Hcats as <- _.
    + exfalso. injection Hcats as <- _. inversion Hpre as [|? ? Hne _].
      by apply Hne.
Defined.

(** ** The footprint map *)

Lemma max_with_last (xs : list Z) (last : Z) : (last ≤ Num.max_with xs last)%Z.
Proof. induction xs as [|x xs IH]; simpl; lia. Qed.

Lemma max_with_elem (xs : list Z) (last : Z) :
  Forall (λ x, (x ≤ Num.max_with xs last)%Z) xs.
Proof.
  induction xs as [|x xs IH]; constructor; simpl; [lia|].
  eapply Forall_impl; [exact IH|]. simpl. intros y Hy. lia.
Qed.

Lemma div_finite (a b : Z) :
  b ≠ 0%Z → Num.div a b = Num.Finite (inject_Z a / inject_Z b).
Proof.
  intros Hb. unfold Num.div. by rewrite (proj2 (Z.eqb_neq b 0) Hb).
Qed.

Section MapPageFacts.
Variable Geometry : Type.
Variable JSON_parse : string → option Geometry.
Variable geometryToLayer : Geometry → MapPage.Drawing.

Lemma feature_of_count h f :
  MapPage.feature_of Geometry JSON_parse h = Some f →
  MapPage.prop_count Geometry f = MapPage.count h.
Proof.
  unfold MapPage.feature_of. destruct (JSON_parse _); simpl; [|discriminate].
  by intros [= <-].
Qed.

Lemma features_counts hs fs :
  mapM (MapPage.feature_of Geometry JSON_parse) hs = Some fs →
  Forall (λ f, (MapPage.prop_count Geometry f ≤ MapPage.maxCount_of hs)%Z) fs.
Proof.
  intros Hm. apply mapM_Some in Hm.
  pose proof (max_with_elem (MapPage.count <$> hs) 1) as Hmax.
  rewrite Forall_fmap in Hmax. fold (MapPage.maxCount_of hs) in Hmax.
  generalize dependent (MapPage.maxCount_of hs). intros m Hmax.
  induction Hm as [|h f hs fs Hf _ IH]; [constructor|].
  inversion Hmax as [|? ? Hh Hrest]; subst. constructor; [|by apply IH].
  rewrite (feature_of_count _ _ Hf). exact Hh.
Qed.

(** [addData] throws on the first invalid geometry, and otherwise keeps
    the features it draws, in order. *)
Lemma addData_Some fs added :
  MapPage.addData Geometry geometryToLayer fs = Some added →
  added = List.filter
            (λ f, if geometryToLayer (MapPage.feat_geometry _ f) is MapPage.Drawn
                  then true else false) fs
  ∧ Forall (λ f, geometryToLayer (MapPage.feat_geometry _ f) ≠ MapPage.Invalid) fs.
Proof.
  revert added. induction fs as [|f fs IH]; intros added; cbn [MapPage.addData].
  - by intros [= <-].
  - cbn [List.filter].
    destruct (geometryToLayer (MapPage.feat_geometry _ f)) eqn:Hf; [|done|].
    + intros Hadd. destruct (IH _ Hadd) as [-> Hall]. split; [done|].
      constructor; [congruence|done].
    + destruct (MapPage.addData _ _ fs) as [rest|]; [|done].
      intros [= <-]. destruct (IH _ eq_refl) as [-> Hall]. split; [done|].
      constructor; [congruence|done].
Qed.

Lemma addData_None fs :
  MapPage.addData Geometry geometryToLayer fs = None →
  Exists (λ f, geometryToLayer (MapPage.feat_geometry _ f) = MapPage.Invalid) fs.
Proof.
  induction fs as [|f fs IH]; cbn [MapPage.addData]; [done|].
  destruct (geometryToLayer (MapPage.feat_geometry _ f)) eqn:Hf.
  - intros Hadd. right. by apply IH.
  - intros _. by left.
  - destruct (MapPage.addData _ _ fs); [done|]. intros _. right. by apply IH.
Qed.

(** The layer [renderGeo] builds on a map that exists. *)
Lemma renderGeo_layer hotspots (p p' : MapPage.Page Geometry) :
  MapPage.renderGeo _ JSON_parse geometryToLayer hotspots p
  = MapPage.Returned _ p' →
  is_Some (MapPage.map _ p) →
  ∃ features added,
    mapM (MapPage.feature_of _ JSON_parse) hotspots = Some features
    ∧ MapPage.addData _ geometryToLayer features = Some added
    ∧ MapPage.geoLayer _ p'
      = Some {| MapPage.layer_maxCount := MapPage.maxCount_of hotspots;
                MapPage.layer_features :=
                  (λ f, (f, MapPage.style_of _ (MapPage.maxCount_of hotspots) f,
                         MapPage.popup_of _ f)) <$> added |}
    ∧ MapPage.map _ p' = Some (MapPage.geoLayer _ p')
    ∧ MapPage.loading _ p' = MapPage.loading _ p.
Proof.
  intros Hrender [shown Hmap]. revert Hrender.
  unfold MapPage.renderGeo. rewrite Hmap.
  destruct (mapM _ hotspots) as [features|]; [|discriminate].
  destruct (MapPage.addData _ _ features) as [added|] eqn:Hadded;
    [|discriminate].
  intros [= <-]. by exists features, added.
Qed.

(** The features that got a layer are among the features built. *)
Lemma added_counts hs fs added :
  mapM (MapPage.feature_of Geometry JSON_parse) hs = Some fs →
  MapPage.addData _ geometryToLayer fs = Some added →
  Forall (λ f, (MapPage.prop_count Geometry f ≤ MapPage.maxCount_of hs)%Z) added.
Proof.
  intros Hfs Hadded. apply addData_Some in Hadded as [-> _].
  pose proof (features_counts _ _ Hfs) as Hall.
  apply Forall_forall. intros f Hf. apply list_elem_of_In, filter_In in Hf as [Hf _].
  apply list_elem_of_In in Hf. by eapply Forall_forall in Hall.
Qed.

End MapPageFacts.

(** C10. For every list of hotspots, the empty one included, the maximum
    [renderGeo] computes is the largest of the counts and 1, so it is at
    least 1.  Whenever [renderGeo] builds a layer, the intensity of every
    feature rendered is the finite quotient of its count by that maximum,
    never a division by zero. *)
Theorem maxCount_at_least_one (Geometry : Type)
    (JSON_parse : string → option Geometry)
    (geometryToLayer : Geometry → MapPage.Drawing)
    (hotspots : list MapPage.MapHotspot) (p : MapPage.Page Geometry) :
  let maxCount := MapPage.maxCount_of hotspots in
  (1 ≤ maxCount)%Z
  ∧ MapPage.maxCount_of [] = 1%Z
  ∧ Forall (λ h, (MapPage.count h ≤ maxCount)%Z) hotspots
  ∧ match MapPage.renderGeo Geometry JSON_parse geometryToLayer hotspots p with
    | MapPage.Returned _ p' =>
        (MapPage.map Geometry p = None ∧ p' = p)
        ∨ ∃ layer,
            MapPage.geoLayer Geometry p' = Some layer
            ∧ MapPage.map Geometry p' = Some (Some layer)
            ∧ MapPage.layer_maxCount Geometry layer = maxCount
            ∧ Forall (λ entry : MapPage.Feature Geometry * MapPage.Style * string,
                        MapPage.intensity entry.1.2
                        = Num.Finite (inject_Z (MapPage.prop_count Geometry entry.1.1)
                                      / inject_Z maxCount)
                        ∧ (MapPage.prop_count Geometry entry.1.1 ≤ maxCount)%Z)
                     (MapPage.layer_features Geometry layer)
    | MapPage.Thrown _ _ => True
    end.
Proof.
  intros maxCount.
  assert (1 ≤ maxCount)%Z as Hone by apply max_with_last.
  split; [exact Hone|]. split; [reflexivity|]. split.
  { pose proof (max_with_elem (MapPage.count <$> hotspots) 1) as Hmax.
    by rewrite Forall_fmap in Hmax. }
  destruct (MapPage.renderGeo _ _ _ hotspots p) as [p'|] eqn:Hrender; [|done].
  destruct (MapPage.map Geometry p) as [shown|] eqn:Hmap.
  2: { left. unfold MapPage.renderGeo in Hrender. rewrite Hmap in Hrender.
       split; [done|congruence]. }
  right.
  destruct (renderGeo_layer _ _ _ _ _ _ Hrender (mk_is_Some _ _ Hmap))
    as (features & added & Hfeatures & Hadded & Hlayer & Hshown & _).
  eexists. split; [exact Hlayer|]. split; [by rewrite Hshown, Hlayer|].
  split; [reflexivity|]. cbn [MapPage.layer_features].
  rewrite Forall_fmap.
  eapply Forall_impl; [exact (added_counts _ _ _ _ _ _ Hfeatures Hadded)|].
  intros f Hf. simpl. split; [|exact Hf].
  apply div_finite. fold maxCount. lia.
Qed.

(** ** The chat operations *)

(** C8. [chatSql] and [chatQuery] send a POST request whose body is
    [{question}] to [/api/chat/sql-only] and to [/api/chat/query]; the
    response of the first has exactly the members [intent: string],
    [slots: Record<string, unknown>] and [sql: string], and the response of
    the second has these followed by [data: Record<string, unknown>[]] and
    [narrative: string]. *)
Theorem chat_operations (question : string) :
  let sql_only := Api.chatSql question in
  let query := Api.chatQuery question in
  let body := Some (Api.JObject [("question", Api.JString question)]) in
  let base :=
    [("intent", Api.TString);
     ("slots", Api.TRecord Api.TString Api.TUnknown);
     ("sql", Api.TString)] in
  (Api.method sql_only = Api.POST
   ∧ Api.path_of (Api.url sql_only) = "/api/chat/sql-only"
   ∧ Api.body sql_only = body
   ∧ Api.shape_of (Api.response_type sql_only) = Some base)
  ∧ (Api.method query = Api.POST
     ∧ Api.path_of (Api.url query) = "/api/chat/query"
     ∧ Api.body query = body
     ∧ Api.shape_of (Api.response_type query)
       = Some (base ++ [("data", Api.TArray (Api.TRecord Api.TString Api.TUnknown));
                        ("narrative", Api.TString)])).
Proof. repeat split; reflexivity. Qed.

(** ** The NL→SQL core: classification *)

Section Classification.
Import NL2SQL.

Lemma has_any_app ws pats1 pats2 :
  has_any ws (pats1 ++ pats2) = has_any ws pats1 || has_any ws pats2.
Proof. unfold has_any. apply existsb_app. Qed.

(** [general] is the intent when no rule fires. *)
Lemma classify_general sg :
  comparison_rule sg = false → hotspot_rule sg = false →
  ranking_rule sg = false → trend_rule sg = false → lookup_rule sg = false →
  classify sg = general.
Proof.
  unfold classify, rules. cbn [find fst snd].
  by intros -> -> -> -> ->.
Qed.

(** Without cues, no extractor returns anything. *)
Lemma no_cues_extract lk today question :
  no_cues lk today question →
  extract lk today question =
    {| x_dates := None; x_limit := None; x_industry := NoIndustry;
       x_area := NoArea; x_lookup := NoLookup |}.
Proof.
  intros (Hdates & Hlimit & Hcodes & Hcat & Hareas & Hlookup & _).
  unfold extract. rewrite Hdates, Hlimit, Hlookup. f_equal.
  - unfold extract_industry, taken_spans. simpl. by rewrite Hcodes, Hcat.
  - unfold extract_area, mentioned_ids. by rewrite Hareas.
Qed.

(** Without cues, no rule of the classifier fires. *)
Lemma no_cues_classify lk today question :
  no_cues lk today question →
  classify {| sig_words := words question;
              sig_found := extract lk today question |} = general.
Proof.
  intros Hno. rewrite (no_cues_extract _ _ _ Hno).
  destruct Hno as (_ & _ & _ & _ & _ & _ & Hcues).
  rewrite !has_any_app in Hcues.
  apply orb_false_iff in Hcues as [Hhot Hcues].
  apply orb_false_iff in Hcues as [Hrank Hcues].
  apply orb_false_iff in Hcues as [Hcount Htrend].
  apply classify_general.
  - reflexivity.
  - unfold hotspot_rule. cbn [sig_words sig_found x_area]. by rewrite Hhot.
  - unfold ranking_rule. cbn [sig_words]. by rewrite Hrank, Hcount.
  - unfold trend_rule. cbn [sig_words sig_found x_dates]. by rewrite Htrend.
  - reflexivity.
Qed.

End Classification.

(** C4. A question without recognizable cue is answered, whatever the
    state of the warehouse client, by a response and not by a failure: the
    intent is [general], the slot set is empty, the data is empty and the
    narrative is the fixed fallback text; no query is sent to the
    warehouse. *)
Theorem no_cues_general (lk : NL2SQL.Lookups) (today : NL2SQL.Date)
    (question : string) (w : NL2SQL.World) :
  NL2SQL.no_cues lk today question →
  NL2SQL.answer lk today question w =
    (inr {| NL2SQL.a_intent := NL2SQL.general;
            NL2SQL.a_slots := ∅;
            NL2SQL.a_sql := NL2SQL.sql_text NL2SQL.stand_in;
            NL2SQL.a_data := [];
            NL2SQL.a_narrative := NL2SQL.fallback_narrative |}, w)
  ∧ NL2SQL.executed (NL2SQL.answer lk today question w).2 = NL2SQL.executed w.
Proof.
  intros Hno.
  assert (NL2SQL.understand lk today question = (NL2SQL.general, ∅)) as Hu.
  { unfold NL2SQL.understand. rewrite (no_cues_classify _ _ _ Hno).
    by rewrite (no_cues_extract _ _ _ Hno). }
  unfold NL2SQL.answer. rewrite Hu. split; reflexivity.
Qed.

(** The question [asdkjasd] has no cue under the sample lookups. *)
Lemma no_cues_general_witness :
  let a := NL2SQL.answer NL2SQL.sample_lookups NL2SQL.sample_today "asdkjasd"
             NL2SQL.sample_world in
  NL2SQL.no_cues NL2SQL.sample_lookups NL2SQL.sample_today "asdkjasd"
  ∧ a.1 = inr {| NL2SQL.a_intent := NL2SQL.general;
                 NL2SQL.a_slots := ∅;
                 NL2SQL.a_sql := "SELECT * FROM acra_entities_enriched WHERE 1 = 0";
                 NL2SQL.a_data := [];
                 NL2SQL.a_narrative := NL2SQL.fallback_narrative |}
  ∧ a.2 = NL2SQL.sample_world.
Proof.
  assert (NL2SQL.no_cues NL2SQL.sample_lookups NL2SQL.sample_today "asdkjasd")
    as Hno by (repeat split; by vm_compute).
  destruct (no_cues_general NL2SQL.sample_lookups NL2SQL.sample_today
              "asdkjasd" NL2SQL.sample_world Hno) as [Hanswer _].
  split; [exact Hno|]. rewrite Hanswer. split; reflexivity.
Defined.

(** ** The NL→SQL core: the text of the query *)

Section QueryText.
Import NL2SQL.

Lemma profile_tags lk (s1 s2 : SlotSet) k :
  profile lk s1 = profile lk s2 →
  tag_of <$> (s1 !! k) = tag_of <$> (s2 !! k).
Proof.
  intros [= Htags _ _]. rewrite <- !lookup_fmap. by rewrite Htags.
Qed.

(** Slot sets with one profile have the same text slots, up to values. *)
Lemma get_text_same lk (s1 s2 : SlotSet) k :
  profile lk s1 = profile lk s2 →
  match get_text s1 k, get_text s2 k with
  | Some _, Some _ | None, None => True
  | _, _ => False
  end.
Proof.
  intros Hp. pose proof (profile_tags lk s1 s2 k Hp) as Hk.
  unfold get_text.
  destruct (s1 !! k) as [[]|], (s2 !! k) as [[]|]; simpl in Hk;
    try done; discriminate.
Qed.

Lemma area_filter_same lk (s1 s2 : SlotSet) :
  profile lk s1 = profile lk s2 → (area_filter s1).1 = (area_filter s2).1.
Proof.
  intros Hp. unfold area_filter.
  pose proof (get_text_same lk s1 s2 "planning_area" Hp) as Ha.
  pose proof (get_text_same lk s1 s2 "subzone" Hp) as Hs.
  destruct (get_text s1 "planning_area"), (get_text s2 "planning_area");
    destruct (get_text s1 "subzone"), (get_text s2 "subzone");
    done.
Qed.

Lemma industry_filter_same lk (s1 s2 : SlotSet) :
  profile lk s1 = profile lk s2 →
  (industry_filter lk s1).1 = (industry_filter lk s2).1.
Proof.
  intros Hp. unfold industry_filter.
  pose proof (get_text_same lk s1 s2 "ssic_code" Hp) as Hcode.
  injection Hp as _ Hcat _.
  destruct (get_text s1 "ssic_code"), (get_text s2 "ssic_code"); try done;
    destruct (get_text s1 "ssic_category") as [c1|],
             (get_text s2 "ssic_category") as [c2|]; try done;
    simpl in Hcat; injection Hcat as Hcat;
    destruct (codes_of lk c1), (codes_of lk c2); done.
Qed.

(** The query of [assemble] is made of the shape, the conditions and the
    presence of a limit; the parameters play no part. *)
Lemma assemble_query shape filters1 filters2 limit1 limit2 :
  fst <$> filters1 = fst <$> filters2 →
  (limit1 = [] ↔ limit2 = []) →
  r_query (assemble shape filters1 limit1)
  = r_query (assemble shape filters2 limit2).
Proof.
  intros Hconds Hlimit. unfold assemble. cbn [r_query]. rewrite Hconds.
  destruct limit1, limit2; try done.
  - discriminate (proj1 Hlimit eq_refl).
  - discriminate (proj2 Hlimit eq_refl).
Qed.

Lemma limit_param_same i (s1 s2 : SlotSet) :
  limit_param i s1 = [] ↔ limit_param i s2 = [].
Proof. done. Qed.

(** The rendered query, placeholders included, is a function of the intent
    and the profile of the slot set. *)
Lemma render_query_same lk today1 today2 i (s1 s2 : SlotSet) :
  profile lk s1 = profile lk s2 →
  r_query (render lk today1 i s1) = r_query (render lk today2 i s2).
Proof.
  intros Hp.
  pose proof (area_filter_same lk s1 s2 Hp) as Harea.
  pose proof (industry_filter_same lk s1 s2 Hp) as Hind.
  destruct i; unfold render; lazy beta iota.
  - apply assemble_query; [|done]. cbn [fmap list_fmap]. by rewrite Harea, Hind.
  - apply assemble_query; [|apply limit_param_same].
    cbn [fmap list_fmap]. by rewrite Harea, Hind.
  - apply assemble_query; [|apply limit_param_same].
    cbn [fmap list_fmap]. by rewrite Harea, Hind.
  - pose proof (get_text_same lk s1 s2 "compare_area_a" Hp) as Ha.
    pose proof (get_text_same lk s1 s2 "compare_area_b" Hp) as Hb.
    injection Hp as _ _ Hkind.
    destruct (get_text s1 "compare_area_a") as [a1|],
             (get_text s2 "compare_area_a") as [a2|]; try done.
    destruct (get_text s1 "compare_area_b"), (get_text s2 "compare_area_b");
      try done.
    simpl in Hkind. injection Hkind as ->.
    apply assemble_query; [|done]. cbn [fmap list_fmap]. by rewrite Hind.
  - pose proof (get_text_same lk s1 s2 "uen" Hp) as Hu.
    pose proof (get_text_same lk s1 s2 "entity_name" Hp) as Hn.
    destruct (get_text s1 "uen"), (get_text s2 "uen"); try done.
    + apply assemble_query; [|apply limit_param_same].
      cbn [fmap list_fmap]. by rewrite Hind.
    + destruct (get_text s1 "entity_name"), (get_text s2 "entity_name");
        try done.
      apply assemble_query; [|apply limit_param_same].
      cbn [fmap list_fmap]. by rewrite Hind.
  - reflexivity.
Qed.

End QueryText.

(** ** The NL→SQL core: bound parameters *)

Section Binding.
Import NL2SQL.

Lemma list_to_map_bound (l : list (string * Param)) (p : string) :
  p ∈ l.*1 → is_Some ((list_to_map l : gmap string Param) !! p).
Proof.
  intros Hp. destruct (list_to_map l !! p) eqn:Hl; [by eexists|].
  by apply not_elem_of_list_to_map in Hl.
Qed.

(** A filter binds every placeholder of its conditions. *)
Abbreviation closed := (λ f : Filter,
  ∀ c p, c ∈ f.1 → p ∈ cond_params c → p ∈ f.2.*1).

Lemma date_filter_closed today (s : SlotSet) : closed (date_filter today s).
Proof.
  intros c p Hc Hp. unfold date_filter in *. cbn [fst snd] in *.
  split_in. cbn [cond_params] in Hp. split_in; cbn; in_list.
Qed.

Lemma industry_filter_closed lk (s : SlotSet) : closed (industry_filter lk s).
Proof.
  intros c p Hc Hp. unfold industry_filter in *.
  destruct (get_text s "ssic_code"), (get_text s "ssic_category") as [cat|];
    try destruct (codes_of lk cat); cbn in *; split_in;
    cbn [cond_params] in Hp; split_in; in_list.
Qed.

Lemma area_filter_closed (s : SlotSet) : closed (area_filter s).
Proof.
  intros c p Hc Hp. unfold area_filter in *.
  destruct (get_text s "planning_area"), (get_text s "subzone");
    cbn in *; split_in; cbn [cond_params] in Hp; split_in; in_list.
Qed.

Lemma assemble_well_bound shape (filters : list Filter) limit :
  Forall closed filters →
  limit = [] ∨ "limit" ∈ limit.*1 →
  well_bound (assemble shape filters limit) = true.
Proof.
  intros Hclosed Hlimit. unfold well_bound. apply forallb_forall.
  intros p Hp. apply bool_decide_eq_true. unfold assemble. cbn [r_params].
  apply list_to_map_bound. rewrite fmap_app. apply elem_of_app.
  unfold placeholders, assemble in Hp. cbn [r_query q_where q_limit] in Hp.
  apply in_app_or in Hp as [Hp|Hp].
  - left. apply in_concat in Hp as (ps & Hps & Hp).
    apply in_map_iff in Hps as (c & <- & Hc).
    apply in_concat in Hc as (conds & Hconds & Hc).
    apply in_map_iff in Hconds as (f & <- & Hf).
    rewrite Forall_forall in Hclosed.
    apply list_elem_of_In in Hf, Hc, Hp.
    pose proof (Hclosed f Hf c p Hc Hp) as Hbound.
    apply list_elem_of_fmap in Hbound as (entry & -> & Hentry).
    apply list_elem_of_fmap. exists entry. split; [done|].
    apply list_elem_of_In, in_concat. exists f.2.
    split; [|by apply list_elem_of_In].
    apply list_elem_of_In, list_elem_of_fmap. by exists f.
  - right. destruct Hlimit as [->|Hlimit]; [done|].
    destruct limit; [by apply elem_of_nil in Hlimit|].
    simpl in Hp. by destruct Hp as [<-|[]].
Qed.

(** Every placeholder of a rendered query has a bound parameter. *)
Lemma render_well_bound lk today i (s : SlotSet) :
  well_bound (render lk today i s) = true.
Proof.
  pose proof (date_filter_closed today s) as Hdate.
  pose proof (industry_filter_closed lk s) as Hind.
  pose proof (area_filter_closed s) as Harea.
  assert (∀ i, "limit" ∈ (limit_param i s).*1) as Hlimit by (intros; in_list).
  assert (∀ a b col : string,
            closed ([CIn2 col "area_a" "area_b"],
                    [("area_a", PString a); ("area_b", PString b)])) as Hpair.
  { intros a b col c p Hc Hp. cbn in *. split_in. cbn [cond_params] in Hp.
    split_in; in_list. }
  assert (∀ col v : string, closed ([CEq col col], [(col, PString v)])) as Hone.
  { intros col v c p Hc Hp. cbn in *. split_in. cbn [cond_params] in Hp.
    split_in; in_list. }
  destruct i; unfold render; lazy beta iota; try reflexivity.
  - apply assemble_well_bound; [|by left].
    repeat (constructor; [assumption|]). constructor.
  - apply assemble_well_bound; [|by right].
    repeat (constructor; [assumption|]). constructor.
  - apply assemble_well_bound; [|by right].
    repeat (constructor; [assumption|]). constructor.
  - destruct (get_text s "compare_area_a"), (get_text s "compare_area_b");
      try reflexivity.
    apply assemble_well_bound; [|by left].
    constructor; [apply Hpair|]. repeat (constructor; [assumption|]).
    constructor.
  - destruct (get_text s "uen"), (get_text s "entity_name"); try reflexivity;
      (apply assemble_well_bound; [|by right]);
      (constructor; [apply Hone|]); repeat (constructor; [assumption|]);
      constructor.
Qed.

End Binding.

(** C1. The text of the rendered query is a function of the intent and of
    the profile of the slot set (which slots are present and of which type,
    whether the category has codes, the kind of the first compared area):
    two questions with the same intent and profile get the same [sql], byte
    for byte, whatever text, SQL metacharacters included, the user typed
    and whatever values were extracted.  The values reach the query as
    bound parameters: every placeholder of the text has one. *)
Theorem sql_text_has_no_user_text (lk : NL2SQL.Lookups)
    (today1 today2 : NL2SQL.Date) (question1 question2 : string)
    (w1 w2 : NL2SQL.World) :
  let e1 := (NL2SQL.explain lk today1 question1 w1).1 in
  let e2 := (NL2SQL.explain lk today2 question2 w2).1 in
  NL2SQL.e_intent e1 = NL2SQL.e_intent e2 →
  NL2SQL.profile lk (NL2SQL.e_slots e1) = NL2SQL.profile lk (NL2SQL.e_slots e2) →
  NL2SQL.e_sql e1 = NL2SQL.e_sql e2
  ∧ NL2SQL.well_bound
      (NL2SQL.render lk today1 (NL2SQL.e_intent e1) (NL2SQL.e_slots e1)) = true.
Proof.
  intros e1 e2 Hintent Hprofile. split; [|apply render_well_bound].
  subst e1 e2. unfold NL2SQL.explain in *. cbn [fst NL2SQL.e_sql] in *.
  cbn [NL2SQL.e_intent NL2SQL.e_slots] in Hintent, Hprofile.
  unfold NL2SQL.sql_text. rewrite Hintent. f_equal.
  by apply render_query_same.
Qed.

(** Two ranking questions on different areas and date ranges, the second
    with SQL metacharacters: one and the same text. *)
Lemma sql_text_has_no_user_text_witness :
  let question1 := "Top SSICs in Tampines last 12 months" in
  let question2 := "top ssics in Woodlands since 2020 '; DROP TABLE x; --" in
  let e1 := (NL2SQL.explain NL2SQL.sample_lookups NL2SQL.sample_today
               question1 NL2SQL.sample_world).1 in
  let e2 := (NL2SQL.explain NL2SQL.sample_lookups NL2SQL.sample_today
               question2 NL2SQL.sample_world).1 in
  NL2SQL.e_slots e1 !! "planning_area" = Some (NL2SQL.VText "TM")
  ∧ NL2SQL.e_slots e2 !! "planning_area" = Some (NL2SQL.VText "WD")
  ∧ NL2SQL.e_sql e1 = NL2SQL.e_sql e2
  ∧ Js.includes (NL2SQL.e_sql e2) "DROP" = false.
Proof.
  split; [by vm_compute|]. split; [by vm_compute|]. split; [|by vm_compute].
  refine (proj1 (sql_text_has_no_user_text NL2SQL.sample_lookups
                   NL2SQL.sample_today NL2SQL.sample_today
                   "Top SSICs in Tampines last 12 months"
                   "top ssics in Woodlands since 2020 '; DROP TABLE x; --"
                   NL2SQL.sample_world NL2SQL.sample_world _ _));
    by vm_compute.
Defined.

(** ** The NL→SQL core: areas and comparisons *)

Section Areas.
Import NL2SQL.

Lemma occurs_at_bound pat ws i : occurs_at pat ws i = true → i < length ws.
Proof.
  unfold occurs_at. destruct pat as [|p pat]; [discriminate|].
  intros Hs. destruct (decide (i < length ws)) as [|Hge]; [done|].
  rewrite drop_ge in Hs by lia. discriminate.
Qed.

Lemma elem_of_occurrences pat ws i :
  i ∈ occurrences pat ws ↔ occurs_at pat ws i = true.
Proof.
  unfold occurrences. rewrite list_elem_of_In, filter_In, in_seq. split.
  - by intros [_ ?].
  - intros Hocc. pose proof (occurs_at_bound _ _ _ Hocc). split; [lia|done].
Qed.

Lemma elem_of_mentions lk ws m :
  m ∈ mentions lk ws ↔
  ∃ a i, a ∈ gazetteer lk ∧ occurs_at (words (area_name a)) ws i = true
         ∧ m = {| m_area := a; m_start := i;
                  m_end := i + length (words (area_name a)) |}.
Proof.
  unfold mentions. rewrite list_elem_of_bind. split.
  - intros (a & Hm & Ha). apply list_elem_of_bind in Hm as (i & Hm & Hi).
    apply list_elem_of_singleton in Hm. apply elem_of_occurrences in Hi.
    by exists a, i.
  - intros (a & i & Ha & Hi & ->). exists a. split; [|done].
    apply list_elem_of_bind. exists i. split; [by apply list_elem_of_singleton|].
    by apply elem_of_occurrences.
Qed.

Lemma elem_of_mentioned_ids lk ws x :
  x ∈ mentioned_ids lk ws ↔ mentioned lk ws x.
Proof.
  unfold mentioned_ids, mentioned.
  rewrite elem_of_remove_dups, list_elem_of_fmap. split.
  - intros (m & -> & Hm). apply elem_of_mentions in Hm as (a & i & Ha & Hi & ->).
    by exists a, i.
  - intros (a & i & Ha & <- & Hi). eexists. split; [|apply elem_of_mentions; eauto].
    done.
Qed.

Lemma elem_of_cue_spans ws span :
  span ∈ cue_spans ws ↔
  ∃ cue k, cue ∈ comparison_cues ∧ occurs_at cue ws k = true
           ∧ span = (k, k + length cue).
Proof.
  unfold cue_spans. rewrite list_elem_of_bind. split.
  - intros (cue & Hs & Hcue). apply list_elem_of_bind in Hs as (k & Hs & Hk).
    apply list_elem_of_singleton in Hs. apply elem_of_occurrences in Hk.
    by exists cue, k.
  - intros (cue & k & Hcue & Hk & ->). exists cue. split; [|done].
    apply list_elem_of_bind. exists k. split; [by apply list_elem_of_singleton|].
    by apply elem_of_occurrences.
Qed.

Lemma elem_of_connected_pairs lk ws x y :
  (x, y) ∈ connected_pairs lk ws ↔
  ∃ m1 cue m2, m1 ∈ mentions lk ws ∧ cue ∈ cue_spans ws ∧ m2 ∈ mentions lk ws
    ∧ connected m1 cue m2 = true
    ∧ x = area_id (m_area m1) ∧ y = area_id (m_area m2).
Proof.
  unfold connected_pairs. rewrite list_elem_of_bind. split.
  - intros (m1 & Hp & Hm1). apply list_elem_of_bind in Hp as (cue & Hp & Hcue).
    apply list_elem_of_bind in Hp as (m2 & Hp & Hm2).
    destruct (connected m1 cue m2) eqn:Hc; [|by apply elem_of_nil in Hp].
    apply list_elem_of_singleton in Hp. injection Hp as -> ->.
    by exists m1, cue, m2.
  - intros (m1 & cue & m2 & Hm1 & Hcue & Hm2 & Hc & -> & ->).
    exists m1. split; [|done]. apply list_elem_of_bind. exists cue.
    split; [|done]. apply list_elem_of_bind. exists m2. split; [|done].
    rewrite Hc. by apply list_elem_of_singleton.
Qed.

(** The pairs the extractor considers are pairs of different mentioned
    areas. *)
Lemma connected_pairs_sound lk ws x y :
  (x, y) ∈ connected_pairs lk ws →
  x ≠ y ∧ mentioned lk ws x ∧ mentioned lk ws y.
Proof.
  intros (m1 & cue & m2 & Hm1 & _ & Hm2 & Hc & -> & ->)%elem_of_connected_pairs.
  unfold connected in Hc. apply andb_true_iff in Hc as [Hc _].
  apply andb_true_iff in Hc as [Hne _]. apply bool_decide_eq_true in Hne.
  split; [done|].
  split; apply elem_of_mentioned_ids; unfold mentioned_ids;
    apply elem_of_remove_dups, list_elem_of_fmap; eauto.
Qed.

(** A mention, a cue and a mention in this order are found. *)
Lemma connected_pairs_complete lk ws a b :
  a ≠ b → connected_by_cue lk ws a b → (a, b) ∈ connected_pairs lk ws.
Proof.
  intros Hne (x & i & y & j & cue & k & Hx & <- & Hi & Hy & <- & Hj
              & Hcue & Hk & Hbefore & Hafter).
  apply elem_of_connected_pairs.
  exists {| m_area := x; m_start := i; m_end := i + length (words (area_name x)) |},
         (k, k + length cue),
         {| m_area := y; m_start := j; m_end := j + length (words (area_name y)) |}.
  split; [apply elem_of_mentions; eauto|].
  split; [apply elem_of_cue_spans; eauto|].
  split; [apply elem_of_mentions; eauto|].
  split; [|done]. unfold connected. cbn [m_area m_start m_end fst snd].
  rewrite bool_decide_eq_true_2 by done.
  rewrite (proj2 (Nat.leb_le _ _) Hbefore), (proj2 (Nat.leb_le _ _) Hafter).
  done.
Qed.

(** A duplicate-free list whose elements are [a] and [b] has length two. *)
Lemma two_elements (l : list string) a b :
  a ≠ b → NoDup l → (∀ x, x ∈ l ↔ x = a ∨ x = b) →
  l = [a; b] ∨ l = [b; a].
Proof.
  intros Hne Hnd Hl.
  assert (a ∈ l) as Ha by (apply Hl; auto).
  assert (b ∈ l) as Hb by (apply Hl; auto).
  destruct l as [|x [|y [|z l]]].
  - by apply elem_of_nil in Ha.
  - apply list_elem_of_singleton in Ha, Hb. congruence.
  - apply NoDup_cons in Hnd as [Hxy _].
    assert (x = a ∨ x = b) as Hx by (apply Hl; in_list).
    assert (y = a ∨ y = b) as Hy by (apply Hl; in_list).
    destruct Hx as [->| ->], Hy as [->| ->]; auto; exfalso; apply Hxy; in_list.
  - apply NoDup_cons in Hnd as [Hx Hnd]. apply NoDup_cons in Hnd as [Hy Hnd].
    apply NoDup_cons in Hnd as [Hz _].
    assert (x = a ∨ x = b) as Hx' by (apply Hl; in_list).
    assert (y = a ∨ y = b) as Hy' by (apply Hl; in_list).
    assert (z = a ∨ z = b) as Hz' by (apply Hl; in_list).
    exfalso.
    destruct Hx' as [->| ->], Hy' as [->| ->], Hz' as [->| ->];
      first [apply Hx; in_list | apply Hy; in_list].
Qed.

Lemma mentioned_two lk ws a b :
  a ≠ b → (∀ x, mentioned lk ws x ↔ x = a ∨ x = b) →
  mentioned_ids lk ws = [a; b] ∨ mentioned_ids lk ws = [b; a].
Proof.
  intros Hne Hm. apply two_elements; [done|apply NoDup_remove_dups|].
  intros x. by rewrite elem_of_mentioned_ids.
Qed.

End Areas.

Section Comparison.
Import NL2SQL.

Lemma slots_of_compare x a b :
  x_area x = Compare a b →
  slots_of x !! "compare_area_a" = Some (VText a)
  ∧ slots_of x !! "compare_area_b" = Some (VText b).
Proof.
  intros Harea. unfold slots_of. rewrite Harea.
  destruct (x_lookup x); split;
    rewrite ?(lookup_insert_ne _ "uen"), ?(lookup_insert_ne _ "entity_name")
      by done.
  all: first [ apply lookup_insert_eq
             | rewrite lookup_insert_ne by done; apply lookup_insert_eq ].
Qed.

Lemma put_lookup_ne k k' v (s : SlotSet) :
  k ≠ k' → put k v s !! k' = s !! k'.
Proof.
  intros Hne. destruct v; simpl; [by apply lookup_insert_ne|done].
Qed.

Lemma slots_of_no_compare x :
  (∀ a b, x_area x ≠ Compare a b) →
  slots_of x !! "compare_area_a" = None
  ∧ slots_of x !! "compare_area_b" = None.
Proof.
  intros Harea. unfold slots_of.
  destruct (x_area x) as [a b|[] a|]; [by destruct (Harea a b)|..];
    destruct (x_lookup x), (x_industry x); split;
    rewrite ?lookup_insert_ne by done;
    rewrite !put_lookup_ne by done; apply lookup_empty.
Qed.

Lemma classify_comparison sg :
  classify sg = comparison ↔ comparison_rule sg = true.
Proof.
  unfold classify, rules. cbn [find fst snd].
  destruct (comparison_rule sg); [done|].
  destruct (hotspot_rule sg), (ranking_rule sg), (trend_rule sg),
    (lookup_rule sg); done.
Qed.

End Comparison.

(** C3. When the areas mentioned in a question are exactly two different
    ones and a comparison cue ("vs", "compared to", "versus") stands
    between a mention of one and a mention of the other, the intent is
    [comparison] and [compare_area_a] and [compare_area_b] hold the two
    areas, one each.  When the areas mentioned are not exactly two
    different ones, both slots stay unset and the intent is not
    [comparison]. *)
Theorem comparison_needs_two_areas (lk : NL2SQL.Lookups) (today : NL2SQL.Date)
    (question : string) :
  let ws := NL2SQL.words question in
  let u := NL2SQL.understand lk today question in
  (∀ a b, a ≠ b →
     (∀ x, NL2SQL.mentioned lk ws x ↔ x = a ∨ x = b) →
     NL2SQL.connected_by_cue lk ws a b ∨ NL2SQL.connected_by_cue lk ws b a →
     u.1 = NL2SQL.comparison
     ∧ ∃ x y, u.2 !! "compare_area_a" = Some (NL2SQL.VText x)
              ∧ u.2 !! "compare_area_b" = Some (NL2SQL.VText y)
              ∧ x ≠ y ∧ ((x = a ∧ y = b) ∨ (x = b ∧ y = a)))
  ∧ ((¬ ∃ a b, a ≠ b ∧ ∀ x, NL2SQL.mentioned lk ws x ↔ x = a ∨ x = b) →
     u.1 ≠ NL2SQL.comparison
     ∧ u.2 !! "compare_area_a" = None
     ∧ u.2 !! "compare_area_b" = None).
Proof.
  intros ws u. subst u. unfold NL2SQL.understand. cbn [fst snd]. split.
  - intros a b Hne Hm Hcue.
    assert (∃ x y, NL2SQL.extract_area lk ws = NL2SQL.Compare x y
                   ∧ x ≠ y ∧ ((x = a ∧ y = b) ∨ (x = b ∧ y = a)))
      as (x & y & Harea & Hxy & Hab).
    { assert (∃ pair, pair ∈ NL2SQL.connected_pairs lk ws) as [pair0 Hpair0].
      { destruct Hcue as [Hcue|Hcue].
        - exists (a, b). by apply connected_pairs_complete.
        - exists (b, a). apply connected_pairs_complete; [congruence|done]. }
      unfold NL2SQL.extract_area.
      assert (∃ c d, NL2SQL.mentioned_ids lk ws = [c; d]) as (c & d & ->).
      { destruct (mentioned_two lk ws a b Hne Hm) as [->| ->]; eauto. }
      destruct (NL2SQL.connected_pairs lk ws) as [|[x y] rest] eqn:Hpairs;
        [by apply elem_of_nil in Hpair0|].
      exists x, y. split; [done|].
      destruct (connected_pairs_sound lk ws x y) as (Hxy & Hx & Hy).
      { rewrite Hpairs. in_list. }
      split; [done|]. apply Hm in Hx, Hy.
      destruct Hx as [->| ->], Hy as [->| ->]; auto; done. }
    split.
    + apply classify_comparison. unfold NL2SQL.comparison_rule, NL2SQL.extract.
      cbn [NL2SQL.sig_found NL2SQL.x_area]. fold ws. by rewrite Harea.
    + exists x, y.
      destruct (slots_of_compare (NL2SQL.extract lk today question) x y)
        as [Hx Hy]; [exact Harea|]. auto.
  - intros Hnot.
    assert (∀ a b, NL2SQL.extract_area lk ws ≠ NL2SQL.Compare a b) as Harea.
    { intros a b. unfold NL2SQL.extract_area.
      destruct (NL2SQL.mentioned_ids lk ws) as [|c [|d [|e rest]]] eqn:Hids;
        try done.
      - by destruct (NL2SQL.mentions lk ws).
      - exfalso. apply Hnot. exists c, d.
        pose proof (NoDup_remove_dups
                      ((λ m, NL2SQL.area_id (NL2SQL.m_area m))
                         <$> NL2SQL.mentions lk ws)) as Hnd.
        fold (NL2SQL.mentioned_ids lk ws) in Hnd. rewrite Hids in Hnd.
        apply NoDup_cons in Hnd as [Hcd _]. split.
        + intros ->. apply Hcd. in_list.
        + intros x. rewrite <- elem_of_mentioned_ids, Hids.
          rewrite !elem_of_cons. split; [intros [|[|H]]; auto|intros [|]; auto].
          by apply elem_of_nil in H. }
    split.
    + intros Hc. apply classify_comparison in Hc.
      unfold NL2SQL.comparison_rule, NL2SQL.extract in Hc.
      cbn [NL2SQL.sig_found NL2SQL.x_area] in Hc. fold ws in Hc.
      destruct (NL2SQL.extract_area lk ws) as [a b| |] eqn:He; try done.
      by destruct (Harea a b).
    + by apply slots_of_no_compare.
Qed.

(** The smoke-test question compares Jurong West and Woodlands. *)
Lemma comparison_needs_two_areas_witness :
  let question := "Compare Jurong West vs Woodlands for new F&B entities" in
  let u := NL2SQL.understand NL2SQL.sample_lookups NL2SQL.sample_today question in
  u.1 = NL2SQL.comparison
  ∧ ∃ x y, u.2 !! "compare_area_a" = Some (NL2SQL.VText x)
           ∧ u.2 !! "compare_area_b" = Some (NL2SQL.VText y)
           ∧ x ≠ y ∧ ((x = "JW" ∧ y = "WD") ∨ (x = "WD" ∧ y = "JW")).
Proof.
  apply (proj1 (comparison_needs_two_areas NL2SQL.sample_lookups
                  NL2SQL.sample_today
                  "Compare Jurong West vs Woodlands for new F&B entities")
           "JW" "WD").
  - done.
  - intros x. rewrite <- elem_of_mentioned_ids.
    assert (NL2SQL.mentioned_ids NL2SQL.sample_lookups
              (NL2SQL.words "Compare Jurong West vs Woodlands for new F&B entities")
            = ["JW"; "WD"]) as -> by (by vm_compute).
    rewrite !elem_of_cons. split; [intros [|[|H]]; auto|intros [|]; auto].
    by apply elem_of_nil in H.
  - left.
    exists {| NL2SQL.area_name := "Jurong West";
              NL2SQL.area_kind := NL2SQL.PlanningArea;
              NL2SQL.area_id := "JW" |}, 1,
           {| NL2SQL.area_name := "Woodlands";
              NL2SQL.area_kind := NL2SQL.PlanningArea;
              NL2SQL.area_id := "WD" |}, 4, ["vs"], 3.
    repeat split; try in_list; try (by vm_compute).
Defined.

(** * Further properties of the front end *)

(** ** The GET operations *)

Section ServiceFacts.
Context `{JsNumber}.
Import Service.

Lemma set_fresh key value (hp : HttpParams) :
  key ∉ hp.*1 → set key value hp = hp ++ [(key, value)].
Proof.
  induction hp as [|[k v] hp IH]; simpl; [done|].
  rewrite not_elem_of_cons. intros [Hne Hrest].
  rewrite (proj2 (String.eqb_neq k key)) by congruence.
  by rewrite IH.
Qed.

Lemma set_keys key value (hp : HttpParams) :
  (set key value hp).*1 = if bool_decide (key ∈ hp.*1) then hp.*1 else hp.*1 ++ [key].
Proof.
  induction hp as [|[k v] hp IH]; [done|]. cbn [set].
  destruct (String.eqb k key) eqn:Hk; rewrite !fmap_cons; cbn [fst].
  - apply String.eqb_eq in Hk as ->.
    rewrite bool_decide_eq_true_2; [done|left].
  - rewrite IH. apply String.eqb_neq in Hk.
    destruct (bool_decide (key ∈ hp.*1)) eqn:Hin.
    + apply bool_decide_eq_true in Hin.
      rewrite bool_decide_eq_true_2; [done|by right].
    + apply bool_decide_eq_false in Hin.
      rewrite bool_decide_eq_false_2; [done|].
      rewrite not_elem_of_cons. split; [congruence|done].
Qed.

Lemma set_NoDup key value (hp : HttpParams) :
  NoDup hp.*1 → NoDup (set key value hp).*1.
Proof.
  intros Hnd. rewrite set_keys. case_bool_decide as Hin; [done|].
  apply NoDup_app. split; [done|]. split; [|apply NoDup_singleton].
  intros k Hk ->%list_elem_of_singleton. done.
Qed.

Lemma set_values (P : string → Prop) key value (hp : HttpParams) :
  P value → Forall (λ kv, P kv.2) hp → Forall (λ kv, P kv.2) (set key value hp).
Proof.
  intros Hv. induction 1 as [|[k v] hp Hkv Hrest IH]; simpl.
  - by repeat constructor.
  - destruct (String.eqb k key); constructor; auto.
Qed.

(** Both loops, over entries with distinct keys that the parameters so
    far do not have: every kept entry is added at the end, in order. *)
Lemma loop_appends {V} (keep : V → option string)
    (entries : list (string * option V)) (hp : HttpParams) :
  NoDup entries.*1 → (∀ k, k ∈ entries.*1 → k ∉ hp.*1) →
  fold_left
    (λ hp e, match kept keep e with Some kv => set kv.1 kv.2 hp | None => hp end)
    entries hp
  = hp ++ omap (kept keep) entries.
Proof.
  revert hp. induction entries as [|[k v] entries IH]; intros hp Hnd Hfresh.
  - simpl. by rewrite app_nil_r.
  - simpl in Hnd. apply NoDup_cons in Hnd as [Hk Hnd]. cbn [fold_left omap].
    destruct (kept keep (k, v)) as [[k' s]|] eqn:Hkept.
    + assert (k' = k) as ->.
      { unfold kept in Hkept. simpl in Hkept. destruct v as [v|]; [|done].
        simpl in Hkept. destruct (keep v); [|done]. by injection Hkept. }
      cbn [fst snd list_omap]. rewrite Hkept.
      rewrite set_fresh by (apply Hfresh; left).
      rewrite IH; [by rewrite <- app_assoc|done|].
      intros j Hj. rewrite fmap_app, not_elem_of_app. split.
      * apply Hfresh. by right.
      * simpl. rewrite list_elem_of_singleton. intros ->. done.
    + cbn [list_omap]. rewrite Hkept. apply IH; [done|].
      intros j Hj. apply Hfresh. by right.
Qed.

Lemma truthy_params_loop entries hp :
  fold_left
    (λ hp (e : string * option string),
       match e.2 with
       | Some value => if Js.truthy value then set e.1 value hp else hp
       | None => hp
       end) entries hp
  = fold_left
      (λ hp e, match kept keep_truthy e with
               | Some kv => set kv.1 kv.2 hp | None => hp end)
      entries hp.
Proof.
  revert hp. induction entries as [|[k [v|]] entries IH]; intros hp;
    cbn [fold_left]; [done| |apply IH].
  rewrite IH. f_equal. unfold kept, keep_truthy. cbn.
  by destruct (Js.truthy v).
Qed.

Lemma defined_params_loop entries hp :
  fold_left
    (λ hp (e : string * option QueryValue),
       match e.2 with
       | Some value =>
           if defined (Some value) then set e.1 (String_of value) hp else hp
       | None => hp
       end) entries hp
  = fold_left
      (λ hp e, match kept keep_defined e with
               | Some kv => set kv.1 kv.2 hp | None => hp end)
      entries hp.
Proof.
  revert hp. induction entries as [|[k [v|]] entries IH]; intros hp;
    cbn [fold_left]; [done| |apply IH].
  rewrite IH. f_equal. unfold kept, keep_defined. cbn [fst snd mbind option_bind].
  by destruct (defined (Some v)).
Qed.

(** Whatever the entries, the parameters keep distinct keys and values
    that satisfy what every value set satisfies. *)
Lemma loop_invariant {V} (keep : V → option string) (P : string → Prop)
    (entries : list (string * option V)) (hp : HttpParams) :
  (∀ v s, keep v = Some s → P s) →
  NoDup hp.*1 → Forall (λ kv, P kv.2) hp →
  let out :=
    fold_left
      (λ hp e, match kept keep e with Some kv => set kv.1 kv.2 hp | None => hp end)
      entries hp in
  NoDup out.*1 ∧ Forall (λ kv, P kv.2) out.
Proof.
  intros Hkeep. revert hp.
  induction entries as [|[k v] entries IH]; intros hp Hnd Hall; simpl; [done|].
  destruct (kept keep (k, v)) as [[k' s]|] eqn:Hkept; [|by apply IH].
  apply IH; [by apply set_NoDup|]. apply set_values; [|done].
  unfold kept in Hkept. simpl in Hkept. destruct v as [v|]; [|done].
  simpl in Hkept. destruct (keep v) as [s'|] eqn:Hv; [|done].
  injection Hkept as _ <-. by eapply Hkeep.
Qed.

(** For an object, whose keys are distinct, each loop sends the entries it
    keeps, in order. *)
Lemma truthy_params_omap (entries : list (string * option string)) :
  NoDup entries.*1 → truthy_params entries = omap (kept keep_truthy) entries.
Proof.
  intros Hkeys. unfold truthy_params. rewrite truthy_params_loop.
  rewrite loop_appends; [done|done|].
  intros k _ Hk. by apply elem_of_nil in Hk.
Qed.

Lemma defined_params_omap (entries : list (string * option QueryValue)) :
  NoDup entries.*1 → defined_params entries = omap (kept keep_defined) entries.
Proof.
  intros Hkeys. unfold defined_params. rewrite defined_params_loop.
  rewrite loop_appends; [done|done|].
  intros k _ Hk. by apply elem_of_nil in Hk.
Qed.

(** The parameters of the first loop, field by field. *)
Lemma truthy_params_fields (entries : list (string * option string)) :
  NoDup entries.*1 →
  truthy_params entries = concat ((λ e, field e.1 e.2) <$> entries).
Proof.
  intros Hnd. rewrite truthy_params_omap by exact Hnd. clear.
  induction entries as [|[k [v|]] entries IH]; [done|..];
    cbn [omap list_omap fmap list_fmap concat fst snd field];
    cbn [omap fmap] in IH; rewrite <- IH; [|done].
  unfold kept, keep_truthy. cbn [fst snd mbind option_bind].
  by destruct (Js.truthy v).
Qed.

End ServiceFacts.

Lemma omap_ext_fun {A B} (f g : A → option B) (l : list A) :
  (∀ x, f x = g x) → omap f l = omap g l.
Proof.
  intros Hfg. induction l as [|x l IH]; [done|].
  cbn [omap list_omap]. rewrite Hfg. cbn [omap] in IH. by rewrite IH.
Qed.

(** Keys written out in an object literal are distinct. *)
Ltac distinct_keys :=
  match goal with
  | |- NoDup ?l => apply (bool_decide_unpack (NoDup l)); vm_compute; exact I
  end.

(** The parameters of a ranking request whose limit is an integer literal. *)
Lemma top_ssic_params `{JsNumber} from to area (limit : Z) :
  (Z.abs limit < 2 ^ 53)%Z →
  Service.params
    (Service.getTopSsic
       (Some [("from", Service.text from); ("to", Service.text to);
              ("area", Service.text area);
              ("limit", Some (Service.QNumber (number_of_Z limit)))]))
  = Service.field "from" from ++ Service.field "to" to
    ++ Service.field "area" area ++ [("limit", pretty limit)].
Proof.
  intros Hlimit. unfold Service.getTopSsic.
  cbn [Service.params default from_option id].
  rewrite defined_params_omap by distinct_keys.
  unfold Service.field, Service.text, Service.kept, Service.keep_defined.
  destruct from as [from|], to as [to|], area as [area|];
    cbn [omap list_omap fst snd fmap option_fmap option_map mbind option_bind
           Service.defined Service.String_of];
    repeat match goal with |- context [Js.truthy ?s] => destruct (Js.truthy s) end;
    cbn [omap list_omap fst snd mbind option_bind app];
    by rewrite String_of_integer.
Qed.

(** X1. [getOverview], [getTrends] and [getHotspots] send the same
    parameters for the same object: never two values for one key and never
    an empty value; for an object (distinct keys) exactly the entries whose
    value is a non-empty string, in the order of the object; nothing for a
    missing object. *)
Theorem truthy_parameters_sent (ps : option (list (string * option string))) :
  let entries := default [] ps in
  let sent := Service.params (Service.getOverview ps) in
  Service.params (Service.getTrends ps) = sent
  ∧ Service.params (Service.getHotspots ps) = sent
  ∧ NoDup sent.*1
  ∧ Forall (λ kv, kv.2 ≠ "") sent
  ∧ (ps = None → sent = [])
  ∧ (NoDup entries.*1 →
     sent = omap (λ e : string * option string,
                    match e.2 with
                    | Some value =>
                        if Js.truthy value then Some (e.1, value) else None
                    | None => None
                    end) entries).
Proof.
  intros entries sent. split; [done|]. split; [done|].
  subst sent. cbn [Service.getOverview Service.params]. fold entries.
  unfold Service.truthy_params. rewrite truthy_params_loop.
  destruct (loop_invariant Service.keep_truthy (λ s, s ≠ "") entries [])
    as [Hnd Hall].
  { intros v s. unfold Service.keep_truthy. destruct v; [done|].
    by intros [= <-]. }
  { constructor. }
  { constructor. }
  split; [exact Hnd|]. split; [exact Hall|]. split.
  - intros ->. reflexivity.
  - intros Hkeys. rewrite <- truthy_params_loop.
    fold (Service.truthy_params entries). rewrite truthy_params_omap by done.
    apply omap_ext_fun. intros [k [v|]]; [|done].
    unfold Service.kept, Service.keep_truthy. simpl. by destruct (Js.truthy v).
Qed.

(** The filters of a page with an undefined and an empty field. *)
Lemma truthy_parameters_sent_witness :
  let ps := Some [("from", Some "2024-01"); ("to", None);
                  ("ssic", Some ""); ("area", Some "TM")] in
  Service.params (Service.getHotspots ps) = [("from", "2024-01"); ("area", "TM")].
Proof.
  intros ps.
  destruct (truthy_parameters_sent ps) as (_ & Hhot & _ & _ & _ & Hsent).
  rewrite Hhot, Hsent; [reflexivity|].
  apply (bool_decide_unpack (NoDup (default [] ps).*1)). by vm_compute.
Defined.

(** X2. [getTopSsic] and [searchEntities] send, for an object (distinct
    keys), exactly the entries whose value is a number or a non-empty
    string, in the order of the object; a number is always sent, zero
    included, as [String] prints it, which for an integer of magnitude
    below 2^53 is its decimal form.  They never send two values for one
    key. *)
Theorem defined_parameters_sent `{JsNumber}
    (entries : list (string * option Service.QueryValue)) :
  let sent := Service.params (Service.searchEntities entries) in
  Service.params (Service.getTopSsic (Some entries)) = sent
  ∧ Service.params (Service.getTopSsic None) = []
  ∧ NoDup sent.*1
  ∧ (NoDup entries.*1 →
     sent = omap (λ e : string * option Service.QueryValue,
                    match e.2 with
                    | Some (Service.QString s) =>
                        if Js.truthy s then Some (e.1, s) else None
                    | Some (Service.QNumber n) => Some (e.1, String_of_number n)
                    | None => None
                    end) entries)
  ∧ (∀ z : Z, (Z.abs z < 2 ^ 53)%Z →
       Service.params
         (Service.searchEntities
            [("limit", Some (Service.QNumber (number_of_Z z)))])
       = [("limit", pretty z)]).
Proof.
  intros sent. split; [done|]. split; [done|].
  subst sent. cbn [Service.searchEntities Service.params].
  split; [|split].
  - unfold Service.defined_params. rewrite defined_params_loop.
    by destruct (loop_invariant Service.keep_defined (λ _, True) entries [])
      as [Hnd _]; [done|constructor|constructor|].
  - intros Hkeys. rewrite defined_params_omap by done.
    apply omap_ext_fun. intros [k [[s|n]|]]; try done.
    unfold Service.kept, Service.keep_defined. simpl. by destruct (Js.truthy s).
  - intros z Hz. cbn. by rewrite String_of_integer.
Qed.

(** A ranking request with no area and the limit zero. *)
Lemma defined_parameters_sent_witness :
  let entries := [("from", Some (Service.QString "2024-01"));
                  ("area", Some (Service.QString ""));
                  ("to", None);
                  ("limit", Some (Service.QNumber (number_of_Z 0)))] in
  Service.params (Service.getTopSsic (Some entries))
  = [("from", "2024-01"); ("limit", "0")].
Proof.
  intros entries.
  destruct (defined_parameters_sent entries) as (Htop & _ & _ & Hsent & _).
  rewrite Htop, Hsent; [by vm_compute|].
  apply (bool_decide_unpack (NoDup entries.*1)). by vm_compute.
Defined.

(** ** The pages *)

(** X3. [search] of the entities page sets [loading] and sends one request
    to [/api/entities/search]: [q], [ssic] and [status] each only when the
    field is not empty, then always [limit=50] and [offset=0]; the other
    fields of the page (the three search fields, the items, the total and
    the selection) stay as they are. *)
Theorem entities_search_request `{JsNumber} (EntityDetail : Type)
    (p : EntitiesPage.Page EntityDetail) :
  let field := λ key value, Service.field key (Some value) in
  let after := (EntitiesPage.search EntityDetail p).1 in
  (EntitiesPage.search EntityDetail p).2 =
    [{| Service.url := "http://localhost:8000/api/entities/search";
        Service.params :=
          field "q" (EntitiesPage.query _ p)
          ++ field "ssic" (EntitiesPage.ssic _ p)
          ++ field "status" (EntitiesPage.status _ p)
          ++ [("limit", "50"); ("offset", "0")];
        Service.response_type := "EntitySearchResponse" |}]
  ∧ EntitiesPage.loading _ after = true
  ∧ EntitiesPage.query _ after = EntitiesPage.query _ p
  ∧ EntitiesPage.status _ after = EntitiesPage.status _ p
  ∧ EntitiesPage.ssic _ after = EntitiesPage.ssic _ p
  ∧ EntitiesPage.items _ after = EntitiesPage.items _ p
  ∧ EntitiesPage.total _ after = EntitiesPage.total _ p
  ∧ EntitiesPage.selected _ after = EntitiesPage.selected _ p.
Proof.
  intros field after. split; [|done].
  unfold EntitiesPage.search. cbn [snd]. unfold Service.searchEntities.
  rewrite defined_params_omap by distinct_keys.
  subst field. unfold Service.field, Service.kept, Service.keep_defined.
  cbn [omap list_omap fst snd mbind option_bind Service.defined
         Service.String_of].
  rewrite !String_of_integer by (by vm_compute).
  destruct (Js.truthy (EntitiesPage.query EntityDetail p)),
    (Js.truthy (EntitiesPage.ssic EntityDetail p)),
    (Js.truthy (EntitiesPage.status EntityDetail p)); reflexivity.
Qed.

(** X4. [refresh] of the industries page changes nothing on the page and
    sends one request to [/api/rankings/top-ssic], with [from], [to] and
    [area] when they are set and not empty and always [limit=15]; the SSIC
    filters are not sent.  Its subscriber stores the items and selects the
    first one: nothing is selected exactly when the list is empty, and
    what is selected is always one of the rankings. *)
Theorem industries_refresh `{JsNumber} (p : IndustriesPage.Page)
    (data : Service.RankingsResponse) :
  let f := IndustriesPage.filters p in
  let after := IndustriesPage.refresh_next data p in
  IndustriesPage.refresh p =
    (p, [{| Service.url := "http://localhost:8000/api/rankings/top-ssic";
            Service.params :=
              Service.field "from" (FilterBar.from f)
              ++ Service.field "to" (FilterBar.to f)
              ++ Service.field "area" (FilterBar.area f)
              ++ [("limit", "15")];
            Service.response_type := "RankingsResponse" |}])
  ∧ IndustriesPage.rankings after = Service.items data
  ∧ IndustriesPage.selected after = head (Service.items data)
  ∧ (IndustriesPage.selected after = None ↔ Service.items data = [])
  ∧ (∀ item, IndustriesPage.selected after = Some item →
             item ∈ IndustriesPage.rankings after).
Proof.
  intros f after. split.
  - unfold IndustriesPage.refresh. do 2 f_equal.
    pose proof (top_ssic_params (FilterBar.from f) (FilterBar.to f)
                  (FilterBar.area f) 15 ltac:(by vm_compute)) as Hp.
    unfold Service.getTopSsic in *. cbn [Service.params] in Hp.
    fold f. by rewrite Hp.
  - subst after. unfold IndustriesPage.refresh_next.
    cbn [IndustriesPage.rankings IndustriesPage.selected].
    destruct (Service.items data) as [|item rest]; simpl.
    + repeat split; try done.
    + repeat split; try done. intros item' [= <-]. left.
Qed.

(** X5. [refresh] of the overview page sets [loading] and sends three
    requests: the overview and the trends with [from], [to], [ssic] and
    [area] (those that are set and not empty), and the ranking with
    [from], [to], [area] and [limit=10], never with [ssic].  Only the
    trends response clears [loading]: it stays set while the two other
    responses arrive. *)
Theorem overview_refresh `{JsNumber} (OverviewResponse : Type)
    (p : OverviewPage.Page OverviewResponse)
    (o : OverviewResponse) (t : Service.TrendsResponse)
    (r : Service.RankingsResponse) :
  let f := OverviewPage.filters _ p in
  let filtered :=
    Service.field "from" (FilterBar.from f) ++ Service.field "to" (FilterBar.to f)
    ++ Service.field "ssic" (FilterBar.ssic f)
    ++ Service.field "area" (FilterBar.area f) in
  let after := (OverviewPage.refresh _ p).1 in
  (OverviewPage.refresh _ p).2 =
    [{| Service.url := "http://localhost:8000/api/overview";
        Service.params := filtered;
        Service.response_type := "OverviewResponse" |};
     {| Service.url := "http://localhost:8000/api/trends/new-entities";
        Service.params := filtered;
        Service.response_type := "TrendsResponse" |};
     {| Service.url := "http://localhost:8000/api/rankings/top-ssic";
        Service.params :=
          Service.field "from" (FilterBar.from f)
          ++ Service.field "to" (FilterBar.to f)
          ++ Service.field "area" (FilterBar.area f) ++ [("limit", "10")];
        Service.response_type := "RankingsResponse" |}]
  ∧ OverviewPage.loading _ after = true
  ∧ OverviewPage.loading _
      (OverviewPage.rankings_next _ r (OverviewPage.overview_next _ o after))
    = true
  ∧ OverviewPage.loading _
      (OverviewPage.overview_next _ o (OverviewPage.rankings_next _ r after))
    = true
  ∧ OverviewPage.loading _ (OverviewPage.trends_next _ t after) = false.
Proof.
  intros f filtered after. split; [|done].
  unfold OverviewPage.refresh. cbn [snd]. fold f.
  pose proof (top_ssic_params (FilterBar.from f) (FilterBar.to f)
                (FilterBar.area f) 10 ltac:(by vm_compute)) as Htop.
  unfold Service.getOverview, Service.getTrends, Service.getTopSsic in *.
  cbn [Service.params default from_option id] in *.
  rewrite Htop, truthy_params_fields by distinct_keys.
  cbn [fmap list_fmap concat fst snd]. subst filtered.
  by rewrite app_nil_r.
Qed.

(** X6. The labels and the values of the chart pair up: point by point
    they are the month, printed, and the count of the trend series; both
    lists are empty as long as no trends have arrived. *)
Theorem chart_series_aligned (OverviewResponse : Type)
    (p : OverviewPage.Page OverviewResponse) :
  let points := match OverviewPage.trends _ p with
                | Some t => Service.series t
                | None => []
                end in
  zip (OverviewPage.chartLabels _ p) (OverviewPage.chartValues _ p)
  = (λ point, (pretty (Service.month point), Service.tp_count point)) <$> points
  ∧ length (OverviewPage.chartLabels _ p) = length points
  ∧ length (OverviewPage.chartValues _ p) = length points.
Proof.
  intros points. unfold OverviewPage.chartLabels, OverviewPage.chartValues.
  subst points. destruct (OverviewPage.trends _ p) as [t|]; [|done].
  rewrite !length_fmap. split; [|done].
  induction (Service.series t) as [|point rest IH]; [done|].
  cbn [fmap list_fmap zip zip_with]. cbn [fmap zip] in IH. by rewrite IH.
Qed.

(** ** The footprint map, the rest *)

(** X7. [refresh] of the map page does nothing before the map exists: no
    request, no change.  Once it exists, [refresh] sets [loading], leaves
    the map, the layer and the filters as they are, and sends one request
    to [/api/map/hotspots] with [ssic], [from] and [to] (those that are
    set and not empty); the area filter is never sent.  [onFiltersChange]
    stores the new filters and does the same with them. *)
Theorem map_refresh_request (Geometry : Type) (s : MapFlow.State Geometry)
    (next : FilterBar.FilterState) :
  let refreshed :=
    λ (f : FilterBar.FilterState) (out : MapFlow.State Geometry * list Service.Request),
      match MapPage.map _ (MapFlow.page _ s) with
      | None => out = ({| MapFlow.page := MapFlow.page _ s;
                          MapFlow.filters := f |}, [])
      | Some shown =>
          out =
            ({| MapFlow.page :=
                  {| MapPage.map := Some shown;
                     MapPage.geoLayer := MapPage.geoLayer _ (MapFlow.page _ s);
                     MapPage.loading := true |};
                MapFlow.filters := f |},
             [{| Service.url := "http://localhost:8000/api/map/hotspots";
                 Service.params :=
                   Service.field "ssic" (FilterBar.ssic f)
                   ++ Service.field "from" (FilterBar.from f)
                   ++ Service.field "to" (FilterBar.to f);
                 Service.response_type := "MapHotspotsResponse" |}])
      end in
  refreshed (MapFlow.filters _ s) (MapFlow.refresh _ s)
  ∧ refreshed next (MapFlow.onFiltersChange _ next s).
Proof.
  intros refreshed.
  assert (∀ f, refreshed f (MapFlow.refresh _ {| MapFlow.page := MapFlow.page _ s;
                                                 MapFlow.filters := f |}))
    as Hrefresh.
  { intros f. subst refreshed. unfold MapFlow.refresh.
    cbn [MapFlow.page MapFlow.filters].
    destruct (MapPage.map Geometry (MapFlow.page _ s)) as [shown|] eqn:Hmap;
      [|done].
    unfold MapFlow.set_loading. rewrite Hmap. do 3 f_equal.
    unfold Service.getHotspots. cbn [default from_option id].
    rewrite truthy_params_fields by distinct_keys.
    cbn [fmap list_fmap concat fst snd]. by rewrite app_nil_r. }
  split; [|apply Hrefresh].
  specialize (Hrefresh (MapFlow.filters _ s)). by destruct s.
Qed.

Section MapLayerFacts.
Variable Geometry : Type.
Variable JSON_parse : string → option Geometry.
Variable geometryToLayer : Geometry → MapPage.Drawing.

(** Every feature comes from its hotspot. *)
Lemma features_of_hotspots hs fs :
  mapM (MapPage.feature_of Geometry JSON_parse) hs = Some fs →
  Forall2 (λ h f, MapPage.feature_of Geometry JSON_parse h = Some f) hs fs.
Proof. apply mapM_Some. Qed.

Lemma feature_of_geometry h f :
  MapPage.feature_of Geometry JSON_parse h = Some f →
  JSON_parse (MapPage.geometry h) = Some (MapPage.feat_geometry _ f).
Proof.
  unfold MapPage.feature_of. destruct (JSON_parse _); [|done].
  by intros [= <-].
Qed.

Lemma Forall2_filter {A B} (R : A → B → Prop) (P : A → bool) (Q : B → bool) l k :
  Forall2 R l k → (∀ x y, R x y → P x = Q y) →
  Forall2 R (List.filter P l) (List.filter Q k).
Proof.
  intros Hlk HPQ. induction Hlk as [|x y l k Hxy _ IH]; [constructor|].
  cbn [List.filter]. rewrite (HPQ x y Hxy). destruct (Q y); [by constructor|done].
Qed.

(** The features that get a layer are those of the hotspots drawn. *)
Lemma added_of_drawn hs fs added :
  mapM (MapPage.feature_of Geometry JSON_parse) hs = Some fs →
  MapPage.addData _ geometryToLayer fs = Some added →
  Forall2 (λ h f, MapPage.feature_of Geometry JSON_parse h = Some f)
          (List.filter (MapPage.drawn _ JSON_parse geometryToLayer) hs) added.
Proof.
  intros Hfs Hadded. apply (addData_Some _ geometryToLayer) in Hadded as [-> _].
  apply Forall2_filter; [by apply features_of_hotspots|].
  intros h f Hhf. unfold MapPage.drawn.
  by rewrite (feature_of_geometry _ _ Hhf).
Qed.

(** [renderGeo] on a map that exists throws exactly when a geometry does
    not parse or is refused by Leaflet. *)
Lemma renderGeo_outcome hotspots (p : MapPage.Page Geometry) shown :
  MapPage.map _ p = Some shown →
  match MapPage.renderGeo _ JSON_parse geometryToLayer hotspots p with
  | MapPage.Returned _ p' =>
      Forall (λ h, ∃ g, JSON_parse (MapPage.geometry h) = Some g
                        ∧ geometryToLayer g ≠ MapPage.Invalid) hotspots
  | MapPage.Thrown _ p' =>
      Exists (λ h, match JSON_parse (MapPage.geometry h) with
                   | Some g => geometryToLayer g = MapPage.Invalid
                   | None => True
                   end) hotspots
      ∧ p' = {| MapPage.map :=
                  Some (if MapPage.geoLayer _ p is Some _ then None else shown);
                MapPage.geoLayer := MapPage.geoLayer _ p;
                MapPage.loading := MapPage.loading _ p |}
  end.
Proof.
  intros Hmap. unfold MapPage.renderGeo. rewrite Hmap.
  destruct (mapM _ hotspots) as [features|] eqn:Hfeatures.
  - pose proof (features_of_hotspots _ _ Hfeatures) as Hall.
    destruct (MapPage.addData _ _ features) as [added|] eqn:Hadded.
    + apply (addData_Some _ geometryToLayer) in Hadded as [_ Hvalid].
      clear Hfeatures. induction Hall as [|h f hs fs Hhf _ IH]; [constructor|].
      inversion Hvalid; subst. constructor; [|by apply IH].
      exists (MapPage.feat_geometry _ f). split; [|done].
      by apply feature_of_geometry.
    + split; [|done]. apply addData_None in Hadded. clear Hfeatures.
      induction Hall as [|h f hs fs Hhf _ IH]; [by apply Exists_nil in Hadded|].
      apply Exists_cons in Hadded as [Hf|Hrest]; [left|right; by apply IH].
      by rewrite (feature_of_geometry _ _ Hhf).
  - split; [|done]. apply mapM_None in Hfeatures.
    eapply Exists_impl; [exact Hfeatures|]. intros h.
    unfold MapPage.feature_of. by destruct (JSON_parse _).
Qed.

End MapLayerFacts.

(** X8. On a page whose map exists, after [refresh]: when every geometry of
    the response parses and Leaflet refuses none, the subscriber puts the
    new layer on the map, keeps it as [geoLayer] and clears [loading]; the
    layer has one feature for each hotspot whose geometry is drawn (a null
    geometry is left out).  When a geometry does not parse or is no
    GeoJSON geometry, the subscriber throws, [loading] stays set,
    [geoLayer] still holds the previous layer and that layer is no longer
    on the map. *)
Theorem map_refresh_response (Geometry : Type)
    (JSON_parse : string → option Geometry)
    (geometryToLayer : Geometry → MapPage.Drawing)
    (s : MapFlow.State Geometry)
    (data : Service.MapHotspotsResponse) (shown : option (MapPage.Layer Geometry)) :
  MapPage.map _ (MapFlow.page _ s) = Some shown →
  let before := MapFlow.page _ s in
  let started := (MapFlow.refresh _ s).1 in
  match MapFlow.refresh_next _ JSON_parse geometryToLayer data started with
  | MapPage.Returned _ p =>
      Forall (λ h, ∃ g, JSON_parse (MapPage.geometry h) = Some g
                        ∧ geometryToLayer g ≠ MapPage.Invalid)
             (Service.hotspots data)
      ∧ MapPage.loading _ p = false
      ∧ ∃ layer, MapPage.geoLayer _ p = Some layer
                 ∧ MapPage.map _ p = Some (Some layer)
                 ∧ length (MapPage.layer_features _ layer)
                   = length (List.filter
                               (MapPage.drawn _ JSON_parse geometryToLayer)
                               (Service.hotspots data))
  | MapPage.Thrown _ p =>
      Exists (λ h, match JSON_parse (MapPage.geometry h) with
                   | Some g => geometryToLayer g = MapPage.Invalid
                   | None => True
                   end) (Service.hotspots data)
      ∧ MapPage.loading _ p = true
      ∧ MapPage.geoLayer _ p = MapPage.geoLayer _ before
      ∧ MapPage.map _ p
        = Some (if MapPage.geoLayer _ before is Some _ then None else shown)
  end.
Proof.
  intros Hmap before started.
  assert (started =
            {| MapFlow.page := {| MapPage.map := Some shown;
                                  MapPage.geoLayer := MapPage.geoLayer _ before;
                                  MapPage.loading := true |};
               MapFlow.filters := MapFlow.filters _ s |}) as ->.
  { subst started before. unfold MapFlow.refresh, MapFlow.set_loading.
    by rewrite Hmap. }
  unfold MapFlow.refresh_next. cbn [MapFlow.page].
  match goal with
  | |- context [MapPage.renderGeo _ _ _ ?hs ?p] =>
      pose proof (renderGeo_outcome _ JSON_parse geometryToLayer hs p shown
                    eq_refl) as Hout;
      destruct (MapPage.renderGeo _ JSON_parse geometryToLayer hs p)
        as [p'|p'] eqn:Hrender
  end.
  - split; [exact Hout|]. split; [done|].
    destruct (renderGeo_layer _ _ _ _ _ _ Hrender ltac:(by eexists))
      as (features & added & Hfeatures & Hadded & Hlayer & Hshown & _).
    eexists. cbn [MapFlow.set_loading MapPage.geoLayer MapPage.map].
    split; [exact Hlayer|]. split; [by rewrite Hshown, Hlayer|].
    cbn [MapPage.layer_features]. rewrite length_fmap. symmetry.
    eapply Forall2_length, added_of_drawn; eassumption.
  - destruct Hout as [Hex ->]. split; [exact Hex|]. done.
Qed.

(** A page that shows a layer receives a geometry Leaflet refuses. *)
Lemma map_refresh_response_witness :
  let parse := λ g : string, if Js.truthy g then Some g else None in
  let classify := λ g : string,
    if String.eqb g "null" then MapPage.Skipped
    else if String.eqb g "{}" then MapPage.Invalid else MapPage.Drawn in
  let layer := {| MapPage.layer_maxCount := 1; MapPage.layer_features := [] |} in
  let s := {| MapFlow.page := {| MapPage.map := Some (Some layer);
                                 MapPage.geoLayer := Some layer;
                                 MapPage.loading := false |};
              MapFlow.filters := FilterBar.state FilterBar.initial |} in
  let data := {| Service.month_start := 202401; Service.month_end := 202402;
                 Service.hotspots :=
                   [{| MapPage.subzone_id := Some "SZ"; MapPage.name := None;
                       MapPage.planning_area_id := None; MapPage.count := 2;
                       MapPage.geometry := "{}" |}] |} in
  ∃ p, MapFlow.refresh_next string parse classify data (MapFlow.refresh string s).1
       = MapPage.Thrown string p
       ∧ MapPage.loading string p = true
       ∧ MapPage.map string p = Some None.
Proof.
  intros parse classify layer s data.
  pose proof (map_refresh_response string parse classify s data (Some layer)
                eq_refl) as Hresp.
  cbv zeta in Hresp.
  destruct (MapFlow.refresh_next string parse classify data
              (MapFlow.refresh string s).1) as [p|p] eqn:Hout.
  - exfalso. destruct Hresp as [Hall _].
    inversion Hall as [|? ? (g & Hg & Hvalid) _]. injection Hg as <-.
    by apply Hvalid.
  - exists p. destruct Hresp as (_ & Hload & _ & Hmap). auto.
Defined.

Lemma or_else_truthy (a : option string) (b : string) :
  Js.truthy b = true → Js.truthy (Js.or_else a b) = true.
Proof.
  intros Hb. unfold Js.or_else. destruct a as [s|]; [|done].
  by destruct (Js.truthy s) eqn:Hs.
Qed.

Lemma truthy_not_empty (s : string) : Js.truthy s = true ↔ s ≠ "".
Proof. destruct s; split; done. Qed.

(** X9. When no count is negative, every feature of the layer [renderGeo]
    builds has an intensity between 0 and 1, and the opacity in its fill
    colour, 0.15 + intensity * 0.6, lies between 0.15 and 0.75. *)
Theorem fill_alpha_in_range (Geometry : Type)
    (JSON_parse : string → option Geometry)
    (geometryToLayer : Geometry → MapPage.Drawing)
    (hotspots : list MapPage.MapHotspot) (p p' : MapPage.Page Geometry) :
  Forall (λ h, (0 ≤ MapPage.count h)%Z) hotspots →
  is_Some (MapPage.map _ p) →
  MapPage.renderGeo _ JSON_parse geometryToLayer hotspots p
  = MapPage.Returned _ p' →
  ∃ layer,
    MapPage.geoLayer _ p' = Some layer
    ∧ Forall (λ entry : MapPage.Feature Geometry * MapPage.Style * string,
                ∃ q a, MapPage.intensity entry.1.2 = Num.Finite q
                       ∧ MapPage.fillAlpha entry.1.2 = Num.Finite a
                       ∧ (0 <= q)%Q ∧ (q <= 1)%Q
                       ∧ (0.15 <= a)%Q ∧ (a <= 0.75)%Q)
             (MapPage.layer_features _ layer).
Proof.
  intros Hcounts Hmap Hrender.
  destruct (renderGeo_layer _ _ _ _ _ _ Hrender Hmap)
    as (features & added & Hf & Hadded & Hlayer & _).
  eexists. split; [exact Hlayer|]. cbn [MapPage.layer_features].
  rewrite Forall_fmap.
  pose proof (added_counts _ _ _ _ _ _ Hf Hadded) as Hle.
  assert (Forall (λ f, (0 ≤ MapPage.prop_count Geometry f)%Z) added) as Hge.
  { pose proof (added_of_drawn _ _ _ _ _ _ Hf Hadded) as Hdrawn.
    assert (Forall (λ h, (0 ≤ MapPage.count h)%Z)
              (List.filter (MapPage.drawn _ JSON_parse geometryToLayer) hotspots))
      as Hkept.
    { apply Forall_forall. intros h Hh.
      apply list_elem_of_In, filter_In in Hh as [Hh _].
      apply list_elem_of_In in Hh. by eapply Forall_forall in Hcounts. }
    clear -Hdrawn Hkept.
    induction Hdrawn as [|h f hs fs Hhf _ IH]; [constructor|].
    inversion Hkept; subst. constructor; [|by apply IH].
    by rewrite (feature_of_count _ _ _ _ Hhf). }
  pose proof (max_with_last (MapPage.count <$> hotspots) 1) as Hone.
  fold (MapPage.maxCount_of hotspots) in Hone.
  generalize dependent (MapPage.maxCount_of hotspots). intros m _ Hle Hone.
  eapply Forall_impl; [exact (proj2 (Forall_and _ _) (conj Hle Hge))|].
  intros f [Hfm Hf0]. cbn [fst snd].
  pose proof (div_finite (MapPage.prop_count Geometry f) m ltac:(lia)) as Hdiv.
  set (q := (inject_Z (MapPage.prop_count Geometry f) / inject_Z m)%Q) in *.
  assert (0 < inject_Z m)%Q as Hm.
  { change 0%Q with (inject_Z 0). rewrite <- Zlt_Qlt. lia. }
  assert (0 <= q)%Q as Hq0.
  { apply Qle_shift_div_l; [exact Hm|]. rewrite Qmult_0_l.
    change 0%Q with (inject_Z 0). by rewrite <- Zle_Qle. }
  assert (q <= 1)%Q as Hq1.
  { apply Qle_shift_div_r; [exact Hm|]. rewrite Qmult_1_l.
    by rewrite <- Zle_Qle. }
  exists q, (0.15 + q * 0.6)%Q.
  unfold MapPage.style_of. cbn [MapPage.intensity MapPage.fillAlpha].
  rewrite Hdiv. cbn [Num.affine]. repeat split; try done; lra.
Qed.

(** Two hotspots, one of them without entities. *)
Lemma fill_alpha_in_range_witness :
  let parse := λ g : string, Some g in
  let classify := λ _ : string, MapPage.Drawn in
  let hotspots :=
    [{| MapPage.subzone_id := Some "SZ1"; MapPage.name := None;
        MapPage.planning_area_id := None; MapPage.count := 4;
        MapPage.geometry := "g1" |};
     {| MapPage.subzone_id := None; MapPage.name := Some "Bedok";
        MapPage.planning_area_id := Some "BD"; MapPage.count := 0;
        MapPage.geometry := "g2" |}] in
  let p := {| MapPage.map := Some None; MapPage.geoLayer := None;
              MapPage.loading := true |} in
  ∃ p' layer,
    MapPage.renderGeo string parse classify hotspots p = MapPage.Returned string p'
    ∧ MapPage.geoLayer string p' = Some layer
    ∧ length (MapPage.layer_features string layer) = 2%nat
    ∧ Forall (λ entry : MapPage.Feature string * MapPage.Style * string,
                ∃ q a, MapPage.intensity entry.1.2 = Num.Finite q
                       ∧ MapPage.fillAlpha entry.1.2 = Num.Finite a
                       ∧ (0 <= q)%Q ∧ (q <= 1)%Q
                       ∧ (0.15 <= a)%Q ∧ (a <= 0.75)%Q)
             (MapPage.layer_features string layer).
Proof.
  intros parse classify hotspots p. eexists.
  assert (Forall (λ h, (0 ≤ MapPage.count h)%Z) hotspots) as Hcounts.
  { repeat constructor; simpl; lia. }
  destruct (fill_alpha_in_range string parse classify hotspots p _ Hcounts
              (mk_is_Some _ _ eq_refl) eq_refl) as (layer & Hlayer & Hall).
  exists layer. split; [reflexivity|]. split; [exact Hlayer|].
  split; [|exact Hall]. by injection Hlayer as <-.
Defined.

(** X10. The features of the layer [renderGeo] builds are those of the
    hotspots whose geometry is drawn, one for one and in order (a hotspot
    with a null geometry gets none): each has the geometry parsed and the
    count of its hotspot; its name is the hotspot's name when that is not
    empty, else its subzone id when that is not empty, else [Unknown], so
    it is never empty; its popup text is made of this name and the
    count. *)
Theorem features_follow_hotspots (Geometry : Type)
    (JSON_parse : string → option Geometry)
    (geometryToLayer : Geometry → MapPage.Drawing)
    (hotspots : list MapPage.MapHotspot) (p : MapPage.Page Geometry) :
  let blank := λ v : option string, v = None ∨ v = Some "" in
  match MapPage.renderGeo _ JSON_parse geometryToLayer hotspots p with
  | MapPage.Returned _ p' =>
      MapPage.map _ p = None
      ∨ ∃ layer,
          MapPage.geoLayer _ p' = Some layer
          ∧ Forall2
              (λ h (entry : MapPage.Feature Geometry * MapPage.Style * string),
                 let name := MapPage.prop_name _ entry.1.1 in
                 JSON_parse (MapPage.geometry h)
                 = Some (MapPage.feat_geometry _ entry.1.1)
                 ∧ geometryToLayer (MapPage.feat_geometry _ entry.1.1)
                   = MapPage.Drawn
                 ∧ MapPage.prop_count _ entry.1.1 = MapPage.count h
                 ∧ name ≠ ""
                 ∧ (∀ n, MapPage.name h = Some n → n ≠ "" → name = n)
                 ∧ (blank (MapPage.name h) →
                    ∀ z, MapPage.subzone_id h = Some z → z ≠ "" → name = z)
                 ∧ (blank (MapPage.name h) → blank (MapPage.subzone_id h) →
                    name = "Unknown")
                 ∧ entry.2 = name +:+ "<br/>New entities: "
                             +:+ pretty (MapPage.count h))
              (List.filter (MapPage.drawn _ JSON_parse geometryToLayer) hotspots)
              (MapPage.layer_features _ layer)
  | MapPage.Thrown _ _ => True
  end.
Proof.
  intros blank.
  destruct (MapPage.renderGeo _ JSON_parse geometryToLayer hotspots p)
    as [p'|] eqn:Hrender; [|done].
  destruct (MapPage.map _ p) as [shown|] eqn:Hmap; [right|by left].
  destruct (renderGeo_layer _ _ _ _ _ _ Hrender (mk_is_Some _ _ Hmap))
    as (features & added & Hf & Hadded & Hlayer & _).
  eexists. split; [exact Hlayer|]. cbn [MapPage.layer_features].
  pose proof (added_of_drawn _ _ _ _ _ _ Hf Hadded) as Hdrawn.
  apply (addData_Some _ geometryToLayer) in Hadded as [Hkept _].
  assert (Forall (λ f, geometryToLayer (MapPage.feat_geometry _ f) = MapPage.Drawn)
            added) as Hall.
  { rewrite Hkept. apply Forall_forall. intros f Hin.
    apply list_elem_of_In, filter_In in Hin as [_ Hin].
    by destruct (geometryToLayer (MapPage.feat_geometry _ f)). }
  clear Hkept Hlayer Hrender Hf. apply Forall2_fmap_r.
  induction Hdrawn as [|h f hs fs Hhf _ IH]; [constructor|].
  inversion Hall as [|? ? Hfd Hrest]; subst. constructor; [|by apply IH].
  cbn [fst snd]. split; [by apply feature_of_geometry|]. split; [exact Hfd|].
  clear IH Hall Hrest Hfd. unfold MapPage.feature_of in Hhf.
  destruct (JSON_parse (MapPage.geometry h)) as [g|]; [|done].
  injection Hhf as <-. cbn [MapPage.prop_count MapPage.prop_name].
  unfold MapPage.popup_of. cbn [MapPage.prop_count MapPage.prop_name].
  split; [done|]. split; [apply truthy_not_empty; by repeat apply or_else_truthy|].
  split; [|split; [|split; [|done]]].
  - intros n -> Hn. apply truthy_not_empty in Hn. cbn [Js.or_else].
    by rewrite Hn.
  - intros Hname z -> Hz. apply truthy_not_empty in Hz.
    destruct Hname as [->| ->]; cbn [Js.or_else Js.truthy]; by rewrite Hz.
  - intros [->| ->] [->| ->]; reflexivity.
Qed.

(** ** The line chart *)

Section LineChartFacts.
Variable Number : Type.
Import LineChart.

(** A change that binds the labels or the values anew. *)
Abbreviation redraws := (λ ch : Change Number,
  match new_labels Number ch, new_values Number ch with
  | None, None => false
  | _, _ => true
  end).

Lemma destroy_own id cfg (cv : Canvas Number) :
  alive _ cv = [(id, cfg)] → alive _ (destroy _ id cv) = [].
Proof.
  intros Hcv. unfold destroy. cbn [alive]. rewrite Hcv. simpl.
  by rewrite Nat.eqb_refl.
Qed.

(** [renderChart] when the chart alive, if any, is the component's. *)
Lemma renderChart_own (c : Component Number) (cv : Canvas Number) :
  match chart _ c with
  | None => alive _ cv = []
  | Some id => ∃ cfg, alive _ cv = [(id, cfg)]
  end →
  renderChart _ (c, cv)
  = ({| labels := labels _ c; values := values _ c; title := title _ c;
        chart := Some (next _ cv) |},
     {| alive := [(next _ cv, config_of _ c)]; next := S (next _ cv) |}).
Proof.
  intros Hown. unfold renderChart.
  destruct (chart _ c) as [id|].
  - destruct Hown as (cfg & Hcv). rewrite (destroy_own _ _ _ Hcv). reflexivity.
  - by rewrite Hown.
Qed.

Lemma ngOnChanges_redraws (ch : Change Number)
    (st : Component Number * Canvas Number) :
  ngOnChanges _ (changed _ ch) st = if redraws ch then renderChart _ st else st.
Proof.
  unfold ngOnChanges, changed.
  destruct (new_labels _ ch), (new_values _ ch), (new_title _ ch); reflexivity.
Qed.

Lemma run_snoc_change changes ch :
  run _ (changes ++ [ch]) = update _ ch (run Number changes).
Proof. unfold run. by rewrite fold_left_app. Qed.

Lemma last_bound {A} (f : Change Number → option A) changes ch (d : A) :
  default d (last (omap f (changes ++ [ch])))
  = default (default d (last (omap f changes))) (f ch).
Proof.
  rewrite omap_app. cbn [omap list_omap]. destruct (f ch) as [x|].
  - by rewrite last_snoc.
  - by rewrite app_nil_r.
Qed.

(** After a run of changes: as many charts were created as changes bound
    the labels or the values; the last of them, if any, is the one chart
    alive and the one the component holds, and it shows the labels and
    the values bound last. *)
Lemma run_charts changes :
  let st := run Number changes in
  let n := length (List.filter redraws changes) in
  next _ st.2 = n
  ∧ labels _ st.1 = default [] (last (omap (new_labels _) changes))
  ∧ values _ st.1 = default [] (last (omap (new_values _) changes))
  ∧ match n with
    | O => chart _ st.1 = None ∧ alive _ st.2 = []
    | S k =>
        chart _ st.1 = Some k
        ∧ ∃ cfg, alive _ st.2 = [(k, cfg)]
                 ∧ cfg_labels _ cfg = labels _ st.1
                 ∧ cfg_data _ cfg = values _ st.1
    end.
Proof.
  induction changes as [|ch changes IH] using rev_ind; [done|].
  cbv zeta in *. rewrite run_snoc_change, List.filter_app, length_app, !last_bound.
  destruct IH as (Hnext & Hlabels & Hvalues & Hchart).
  destruct (run Number changes) as [c cv]. cbn [fst snd] in *.
  unfold update. rewrite ngOnChanges_redraws. cbn [fst snd List.filter].
  rewrite <- Hlabels, <- Hvalues, <- Hnext. rewrite <- Hnext in Hchart.
  clear Hlabels Hvalues Hnext.
  assert (match chart _ (assign _ ch c) with
          | None => alive _ cv = []
          | Some id => ∃ cfg, alive _ cv = [(id, cfg)]
          end) as Hown.
  { cbn [assign chart]. destruct (next _ cv).
    - by destruct Hchart as [-> Hcv].
    - destruct Hchart as [-> (cfg & Hcv & _)]. by exists cfg. }
  assert (∀ st : Component Number * Canvas Number,
            st = renderChart _ (assign _ ch c, cv) →
            next _ st.2 = (next _ cv + length [ch])%nat
            ∧ labels _ st.1 = labels _ (assign _ ch c)
            ∧ values _ st.1 = values _ (assign _ ch c)
            ∧ chart _ st.1 = Some (next _ cv)
            ∧ ∃ cfg, alive _ st.2 = [(next _ cv, cfg)]
                     ∧ cfg_labels _ cfg = labels _ st.1
                     ∧ cfg_data _ cfg = values _ st.1) as Hredraw.
  { intros st ->. rewrite (renderChart_own _ _ Hown).
    cbn [fst snd next labels values chart alive length].
    rewrite Nat.add_1_r. repeat split. by eexists. }
  destruct (new_labels _ ch) as [ls|] eqn:Hls;
    [|destruct (new_values _ ch) as [vs|] eqn:Hvs].
  - destruct (Hredraw _ eq_refl) as (-> & -> & -> & Hnew).
    cbn [length]. rewrite Nat.add_1_r. split; [done|].
    split; [cbn [assign labels]; by rewrite Hls|]. split; [done|exact Hnew].
  - destruct (Hredraw _ eq_refl) as (-> & -> & -> & Hnew).
    cbn [length]. rewrite Nat.add_1_r. split; [done|].
    split; [cbn [assign labels]; by rewrite Hls|].
    split; [cbn [assign values]; by rewrite Hvs|exact Hnew].
  - cbn [fst snd length assign labels values chart default from_option id].
    rewrite Hls, Hvs, Nat.add_0_r. done.
Qed.


End LineChartFacts.

(** X11. After any run of input changes, as many charts were created as
    changes bound the labels or the values.  While there was none, the
    component holds no chart and none is alive; from the first on, the
    component holds the chart created last, that chart is the only one
    alive (every re-render destroys the previous one first), and it shows
    the labels and the values bound last.  A change of the title alone
    redraws nothing.  After [ngOnDestroy] no chart is alive. *)
Theorem one_chart_alive (Number : Type) (changes : list (LineChart.Change Number)) :
  let st := LineChart.run _ changes in
  let bound := λ ch : LineChart.Change Number,
    match LineChart.new_labels _ ch, LineChart.new_values _ ch with
    | None, None => false
    | _, _ => true
    end in
  LineChart.labels _ st.1
  = default [] (last (omap (LineChart.new_labels _) changes))
  ∧ LineChart.values _ st.1
    = default [] (last (omap (LineChart.new_values _) changes))
  ∧ match length (List.filter bound changes) with
    | O => LineChart.chart _ st.1 = None ∧ LineChart.alive _ st.2 = []
    | S k =>
        LineChart.chart _ st.1 = Some k
        ∧ ∃ cfg, LineChart.alive _ st.2 = [(k, cfg)]
                 ∧ LineChart.cfg_labels _ cfg = LineChart.labels _ st.1
                 ∧ LineChart.cfg_data _ cfg = LineChart.values _ st.1
    end
  ∧ LineChart.alive _ (LineChart.ngOnDestroy _ st).2 = []
  ∧ (∀ ch, bound ch = false →
           (LineChart.update _ ch st).2 = st.2
           ∧ LineChart.chart _ (LineChart.update _ ch st).1
             = LineChart.chart _ st.1).
Proof.
  intros st bound.
  destruct (run_charts Number changes) as (_ & Hlabels & Hvalues & Hchart).
  fold st in Hlabels, Hvalues, Hchart.
  split; [exact Hlabels|]. split; [exact Hvalues|]. split; [exact Hchart|].
  split.
  - unfold LineChart.ngOnDestroy.
    destruct (length (List.filter _ changes)).
    + destruct Hchart as [-> Hcv]. exact Hcv.
    + destruct Hchart as [-> (cfg & Hcv & _)]. cbn [snd].
      by rewrite (destroy_own _ _ _ _ Hcv).
  - intros ch Hch. unfold LineChart.update. rewrite ngOnChanges_redraws.
    subst bound. cbv beta in Hch. by rewrite Hch.
Qed.

(** ** The chat page *)

Section ChatPageFacts.
Context `{JsString}.
Import ChatPage.

Lemma texts_of_app r ms1 ms2 :
  texts_of r (ms1 ++ ms2) = texts_of r ms1 ++ texts_of r ms2.
Proof. unfold texts_of. by rewrite List.filter_app, fmap_app. Qed.

Lemma run_snoc events e p : run (events ++ [e]) p = step e (run events p).
Proof. unfold run. by rewrite fold_left_app. Qed.

End ChatPageFacts.

(** X12. Over any run of edits, submits and responses of the chat page,
    every user message added comes with exactly one POST to
    [/api/chat/query] carrying the same text, in the same order, and no
    such text is empty; a submit of a blank question changes nothing and
    sends nothing.  Every response adds its narrative as an assistant
    message, and no message is ever removed. *)
Theorem chat_requests_match_messages `{JsString} (events : list ChatPage.Event)
    (p : ChatPage.Page) :
  let st := ChatPage.run events p in
  (∃ asked,
     ChatPage.texts_of ChatPage.user (ChatPage.messages st.1)
     = ChatPage.texts_of ChatPage.user (ChatPage.messages p) ++ asked
     ∧ st.2 = Api.chatQuery <$> asked
     ∧ Forall (λ q, q ≠ "") asked)
  ∧ ChatPage.texts_of ChatPage.assistant (ChatPage.messages st.1)
    = ChatPage.texts_of ChatPage.assistant (ChatPage.messages p)
      ++ omap ChatPage.narrated events
  ∧ ChatPage.messages p `prefix_of` ChatPage.messages st.1
  ∧ (Js.truthy (trim (ChatPage.question p)) = false →
     ChatPage.submit p = (p, [])).
Proof.
  intros st. subst st.
  assert (Js.truthy (trim (ChatPage.question p)) = false →
          ChatPage.submit p = (p, [])) as Hblank.
  { intros Hq. unfold ChatPage.submit. by rewrite Hq. }
  induction events as [|e events IH] using rev_ind.
  - split; [exists []; by rewrite app_nil_r|]. by rewrite app_nil_r.
  - destruct IH as ((asked & Husers & Hreqs & Hasked) & Hassist & Hprefix & _).
    rewrite run_snoc. rewrite omap_app.
    destruct (ChatPage.run events p) as [q reqs] eqn:Hrun. cbn [fst snd] in *.
    destruct e as [s| |res]; cbn [ChatPage.step fst snd ChatPage.messages].
    + split; [by exists asked|]. by rewrite app_nil_r.
    + unfold ChatPage.submit.
      destruct (Js.truthy (trim (ChatPage.question q))) eqn:Hq;
        cbn [negb fst snd ChatPage.messages].
      * split.
        { exists (asked ++ [trim (ChatPage.question q)]).
          rewrite texts_of_app, Husers, Hreqs, fmap_app, <- app_assoc.
          split; [done|]. split; [done|].
          apply Forall_app. split; [done|]. constructor; [|done].
          by apply truthy_not_empty. }
        rewrite texts_of_app, Hassist. cbn. rewrite !app_nil_r.
        split; [done|]. split; [|done]. by apply prefix_app_r.
      * rewrite !app_nil_r. split; [by exists asked|done].
    + unfold ChatPage.submit_next. cbn [ChatPage.messages].
      rewrite !texts_of_app, Husers, Hassist.
      split; [exists asked; by rewrite app_nil_r|].
      split; [by rewrite <- app_assoc|]. split; [|done]. by apply prefix_app_r.
Qed.

(** ** The filter bar, the rest *)

Lemma object_keys_Permutation (ks : list string) : Js.object_keys ks ≡ₚ ks.
Proof.
  unfold Js.object_keys.
  rewrite (merge_sort_Permutation Js.index_leb).
  induction ks as [|k ks IH]; [done|].
  cbn [omap list_omap]. rewrite filter_cons.
  destruct (Js.array_index k) as [n|] eqn:Hk; cbn [fmap option_fmap option_map].
  - rewrite decide_False by done. cbn [fmap list_fmap snd app].
    cbn [fmap omap] in IH. by rewrite IH.
  - rewrite decide_True by done. cbn [fmap omap] in IH.
    rewrite <- Permutation_middle. by rewrite IH.
Qed.

Section GroupingFacts.
Import FilterBar.

Lemma group_push_lookup key d grouped k :
  group_lookup k (group_push key d grouped)
  = group_lookup k grouped ++ (if String.eqb key k then [d] else []).
Proof.
  unfold group_lookup. induction grouped as [|[k' ds] grouped IH].
  - simpl. by destruct (String.eqb key k).
  - cbn [group_push]. destruct (String.eqb k' key) eqn:Hk'.
    + apply String.eqb_eq in Hk' as ->. cbn [find fst snd].
      destruct (String.eqb key k); [done|]. by rewrite app_nil_r.
    + cbn [find fst snd]. destruct (String.eqb k' k) eqn:Hkk; [|exact IH].
      apply String.eqb_eq in Hkk as ->. cbn [snd].
      apply String.eqb_neq in Hk'.
      rewrite (proj2 (String.eqb_neq key k)) by congruence.
      by rewrite app_nil_r.
Qed.

Lemma group_push_keys key d grouped :
  (group_push key d grouped).*1
  = if bool_decide (key ∈ grouped.*1) then grouped.*1 else grouped.*1 ++ [key].
Proof.
  induction grouped as [|[k ds] grouped IH]; [done|]. cbn [group_push].
  destruct (String.eqb k key) eqn:Hk; rewrite !fmap_cons; cbn [fst].
  - apply String.eqb_eq in Hk as ->.
    rewrite bool_decide_eq_true_2; [done|left].
  - rewrite IH. apply String.eqb_neq in Hk.
    destruct (bool_decide (key ∈ grouped.*1)) eqn:Hin.
    + apply bool_decide_eq_true in Hin.
      rewrite bool_decide_eq_true_2; [done|by right].
    + apply bool_decide_eq_false in Hin.
      rewrite bool_decide_eq_false_2; [done|].
      rewrite not_elem_of_cons. split; [congruence|done].
Qed.

(** The object [grouped] after the loop over the categories shown. *)
Lemma grouped_spec (key : DisplayCategory → string) shown grouped :
  let after := fold_left (λ g d, group_push (key d) d g) shown grouped in
  (∀ k, group_lookup k after
        = group_lookup k grouped ++ List.filter (λ d, String.eqb (key d) k) shown)
  ∧ (∀ k, k ∈ after.*1 ↔ k ∈ grouped.*1 ∨ ∃ d, d ∈ shown ∧ key d = k)
  ∧ (NoDup grouped.*1 → NoDup after.*1).
Proof.
  revert grouped. induction shown as [|d shown IH]; intros grouped after.
  - subst after. simpl. split; [intros; by rewrite app_nil_r|]. split; [|done].
    intros k. split; [auto|]. intros [|(d & Hd & _)]; [done|].
    by apply elem_of_nil in Hd.
  - subst after. cbn [fold_left].
    destruct (IH (group_push (key d) d grouped)) as (Hlookup & Hkeys & Hnd).
    split; [|split].
    + intros k. rewrite Hlookup, group_push_lookup, <- app_assoc. f_equal.
      cbn [List.filter]. by destruct (String.eqb (key d) k).
    + intros k. rewrite Hkeys, group_push_keys. split.
      * intros [Hk|(d' & Hd' & <-)].
        -- case_bool_decide; [by left|].
           apply elem_of_app in Hk as [|Hk]; [by left|].
           apply list_elem_of_singleton in Hk as ->.
           right. exists d. split; [left|done].
        -- right. exists d'. split; [by right|done].
      * intros [Hk|(d' & Hd' & <-)].
        -- left. case_bool_decide; [done|]. apply elem_of_app. by left.
        -- apply elem_of_cons in Hd' as [->|Hd'].
           ++ left. case_bool_decide; [done|]. apply elem_of_app. right. left.
           ++ right. by exists d'.
    + intros Hgrouped. apply Hnd. rewrite group_push_keys.
      case_bool_decide as Hin; [done|]. apply NoDup_app.
      split; [done|]. split; [|apply NoDup_singleton].
      intros k Hk Hk'. apply list_elem_of_singleton in Hk' as ->. done.
Qed.

End GroupingFacts.

(** The groups [updateGroupedCategories] builds when it returns, from the
    object [grouped] and its keys. *)
Lemma updateGroupedCategories_groups `{JsString} (filter : string)
    (c c' : FilterBar.Component) :
  FilterBar.updateGroupedCategories filter c = FilterBar.Returned c' →
  let shown := FilterBar.items_of filter c in
  ∃ grouped,
    FilterBar.groupedCategories c'
    = (λ k, {| FilterBar.group_sector := k;
               FilterBar.group_label :=
                 Js.or_else (FilterBar.sectorLabel c !! k) k;
               FilterBar.group_items := FilterBar.group_lookup k grouped |})
        <$> Js.object_keys grouped.*1
    ∧ NoDup (Js.object_keys grouped.*1)
    ∧ (∀ k, k ∈ Js.object_keys grouped.*1
            ↔ ∃ d, d ∈ shown ∧ FilterBar.sector_key d = k)
    ∧ (∀ k, FilterBar.group_lookup k grouped
            = List.filter (λ d, String.eqb (FilterBar.sector_key d) k) shown).
Proof.
  intros Hreturned shown.
  pose proof (updateGroupedCategories_outcome filter c) as Hout.
  rewrite Hreturned in Hout. destruct Hout as [Hitems _].
  unfold FilterBar.updateGroupedCategories in Hreturned. fold shown in Hreturned.
  rewrite (group_all_groupable _ _ Hitems) in Hreturned.
  injection Hreturned as <-.
  destruct (grouped_spec FilterBar.sector_key shown [])
    as (Hlookup & Hkeys & Hnd).
  exists (fold_left (λ g d, FilterBar.group_push (FilterBar.sector_key d) d g)
                    shown []).
  split; [reflexivity|]. split; [|split].
  - rewrite object_keys_Permutation. apply Hnd. constructor.
  - intros k. rewrite object_keys_Permutation, Hkeys. split; [|auto].
    intros [Hk|]; [by apply elem_of_nil in Hk|done].
  - intros k. by rewrite Hlookup.
Qed.

Lemma filter_key_elem {A} (key : A → string) (shown : list A) d k :
  d ∈ shown → key d = k → d ∈ List.filter (λ d, String.eqb (key d) k) shown.
Proof.
  intros Hd Hk. apply list_elem_of_In, filter_In.
  split; [by apply list_elem_of_In|]. by apply String.eqb_eq.
Qed.

(** Where the loop throws, an item has a sector key that names an
    inherited property. *)
Lemma not_groupable items :
  ¬ FilterBar.groupable items →
  Exists (λ d, Js.inherited (FilterBar.sector_key d) = true) items.
Proof.
  unfold FilterBar.groupable. intros Hno.
  apply (not_Forall_Exists _) in Hno.
  eapply Exists_impl; [exact Hno|]. intros d Hd. unfold compose in Hd.
  by destruct (Js.inherited (FilterBar.sector_key d)).
Qed.

(** X13. [updateGroupedCategories] lists all the categories for a blank
    filter, and otherwise those whose label or a keyword contains the
    filter (trimmed, in lower case).  It throws, leaving the component as
    it was, exactly when a category listed has a sector key (the sector,
    or [other] without one) that names a property of [Object.prototype].
    Otherwise it returns, and of the groups it builds no two have the same
    sector; a group holds exactly the listed categories of its sector key,
    in their order, so none is empty and every listed category is in one
    group and only one; its label is the sector's label, or the key where
    there is none. *)
Theorem groups_partition `{JsString} (filter : string) (c : FilterBar.Component) :
  let query := toLowerCase (trim filter) in
  let shown :=
    if Js.truthy query
    then List.filter (FilterBar.matches_filter query) (FilterBar.filteredCategories c)
    else FilterBar.filteredCategories c in
  let key := λ d, Js.or_else (FilterBar.sector (FilterBar.category d)) "other" in
  match FilterBar.updateGroupedCategories filter c with
  | FilterBar.Thrown c' =>
      c' = c ∧ Exists (λ d, Js.inherited (key d) = true) shown
  | FilterBar.Returned c' =>
      let groups := FilterBar.groupedCategories c' in
      Forall (λ d, Js.inherited (key d) = false) shown
      ∧ NoDup (FilterBar.group_sector <$> groups)
      ∧ Forall (λ g,
          FilterBar.group_items g
          = List.filter (λ d, String.eqb (key d) (FilterBar.group_sector g)) shown
          ∧ FilterBar.group_items g ≠ []
          ∧ FilterBar.group_label g
            = Js.or_else (FilterBar.sectorLabel c !! FilterBar.group_sector g)
                         (FilterBar.group_sector g)) groups
      ∧ (∀ d, d ∈ shown →
              ∃ g, g ∈ groups ∧ FilterBar.group_sector g = key d
                   ∧ d ∈ FilterBar.group_items g)
  end.
Proof.
  intros query shown key.
  pose proof (updateGroupedCategories_outcome filter c) as Hout.
  destruct (FilterBar.updateGroupedCategories filter c) as [c'|c'] eqn:Hupdate.
  2: { destruct Hout as [-> Hno]. split; [done|]. by apply not_groupable. }
  destruct Hout as [Hitems _]. split; [exact Hitems|].
  destruct (updateGroupedCategories_groups filter c c' Hupdate)
    as (grouped & Hgroups & Hnd & Hobj & Hlookup).
  change (FilterBar.items_of filter c) with shown in Hobj, Hlookup.
  change FilterBar.sector_key with key in Hobj, Hlookup.
  cbv zeta. rewrite Hgroups. split; [|split].
  - rewrite <- list_fmap_compose.
    erewrite (list_fmap_ext _ id); [|done].
    by rewrite list_fmap_id.
  - rewrite Forall_fmap. apply Forall_forall. intros k Hk.
    cbn [FilterBar.group_items FilterBar.group_sector FilterBar.group_label
           compose].
    split; [apply Hlookup|]. split; [|done].
    apply Hobj in Hk as (d & Hd & Hkd). rewrite Hlookup. intros Hempty.
    apply (elem_of_nil d). rewrite <- Hempty.
    by apply (filter_key_elem key).
  - intros d Hd. eexists. split.
    + apply list_elem_of_fmap. exists (key d). split; [done|].
      apply Hobj. by exists d.
    + cbn [FilterBar.group_sector FilterBar.group_items]. split; [done|].
      rewrite Hlookup. by apply filter_key_elem.
Qed.

Section FilterBarEvents.
Context `{JsString}.
Import FilterBar.

Lemma items_of_ext filter c c' :
  filteredCategories c = filteredCategories c' →
  items_of filter c = items_of filter c'.
Proof. unfold items_of. by intros ->. Qed.

(** The groups depend on the categories and the sector labels only. *)
Lemma updateGroupedCategories_ext filter c c' c1 c1' :
  filteredCategories c = filteredCategories c' →
  sectorLabel c = sectorLabel c' →
  updateGroupedCategories filter c = Returned c1 →
  updateGroupedCategories filter c' = Returned c1' →
  groupedCategories c1 = groupedCategories c1'.
Proof.
  intros Hfilt Hlab. unfold updateGroupedCategories.
  rewrite (items_of_ext filter c c' Hfilt), Hlab.
  destruct (group_all _ _); [|done].
  by intros [= <-] [= <-].
Qed.

End FilterBarEvents.

(** X14. Choosing a category from the list emits [stateChange] once, with
    the state the component is left in, and so does typing in the box when
    [onCategoryInput] returns; when it throws, nothing is emitted and the
    state is as it was.  Opening the list, regrouping and loading the
    categories emit nothing and leave the state as it was, whether they
    return or throw. *)
Theorem state_change_emitted `{JsString} (c : FilterBar.Component) :
  (∀ d, FilterBar.stateChange (FilterBar.selectCategory d c)
        = FilterBar.stateChange c
            ++ [FilterBar.state (FilterBar.selectCategory d c)])
  ∧ match FilterBar.onCategoryInput c with
    | FilterBar.Returned c' =>
        FilterBar.stateChange c'
        = FilterBar.stateChange c ++ [FilterBar.state c']
    | FilterBar.Thrown c' =>
        FilterBar.stateChange c' = FilterBar.stateChange c
        ∧ FilterBar.state c' = FilterBar.state c
    end
  ∧ (FilterBar.stateChange (FilterBar.showList c) = FilterBar.stateChange c
     ∧ FilterBar.state (FilterBar.showList c) = FilterBar.state c)
  ∧ (∀ filter,
       let c' := FilterBar.after (FilterBar.updateGroupedCategories filter c) in
       FilterBar.stateChange c' = FilterBar.stateChange c
       ∧ FilterBar.state c' = FilterBar.state c)
  ∧ (∀ data,
       let c' := FilterBar.after (FilterBar.ngOnInit data c) in
       FilterBar.stateChange c' = FilterBar.stateChange c
       ∧ FilterBar.state c' = FilterBar.state c).
Proof.
  assert (∀ filter c0,
            let c' := FilterBar.after (FilterBar.updateGroupedCategories filter c0) in
            FilterBar.stateChange c' = FilterBar.stateChange c0
            ∧ FilterBar.state c' = FilterBar.state c0) as Hupdate.
  { intros filter c0.
    pose proof (updateGroupedCategories_outcome filter c0) as Hout.
    destruct (FilterBar.updateGroupedCategories filter c0) as [c'|c'];
      cbn [FilterBar.after].
    - destruct Hout as (_ & Hstate & _ & _ & _ & _ & _ & Hemit). done.
    - by destruct Hout as [-> _]. }
  split; [done|]. split.
  { pose proof (onCategoryInput_outcome c) as Hout.
    destruct (FilterBar.onCategoryInput c) as [c'|c'].
    - apply Hout.
    - by destruct Hout as [-> _]. }
  split; [done|]. split; [intros filter; apply Hupdate|].
  intros data. unfold FilterBar.ngOnInit. lazy zeta.
  match goal with
  | |- context [FilterBar.updateGroupedCategories "" ?c1] =>
      destruct (Hupdate "" c1) as [Hemit Hstate]
  end.
  cbv zeta in Hemit, Hstate. by rewrite Hemit, Hstate.
Qed.

(** X15. Choosing a category and typing in the box change the two category
    slots only: the dates and the area of the state, the categories loaded,
    the sector labels and, for typing, the text stay as they were, whether
    [onCategoryInput] returns or throws.  When it returns the list is
    open; when it throws the component is as it was.  Choosing sets the
    text to the label, closes the list and keeps the groups. *)
Theorem category_events_frame `{JsString} (c : FilterBar.Component) :
  let kept := λ c' : FilterBar.Component,
    FilterBar.from (FilterBar.state c') = FilterBar.from (FilterBar.state c)
    ∧ FilterBar.to (FilterBar.state c') = FilterBar.to (FilterBar.state c)
    ∧ FilterBar.area (FilterBar.state c') = FilterBar.area (FilterBar.state c)
    ∧ FilterBar.categories c' = FilterBar.categories c
    ∧ FilterBar.filteredCategories c' = FilterBar.filteredCategories c
    ∧ FilterBar.sectorLabel c' = FilterBar.sectorLabel c in
  (kept (FilterBar.after (FilterBar.onCategoryInput c))
   ∧ FilterBar.categoryInput (FilterBar.after (FilterBar.onCategoryInput c))
     = FilterBar.categoryInput c
   ∧ match FilterBar.onCategoryInput c with
     | FilterBar.Returned c' => FilterBar.showCategoryList c' = true
     | FilterBar.Thrown c' => c' = c
     end)
  ∧ (∀ d, kept (FilterBar.selectCategory d c)
          ∧ FilterBar.categoryInput (FilterBar.selectCategory d c)
            = FilterBar.label (FilterBar.category d)
          ∧ FilterBar.showCategoryList (FilterBar.selectCategory d c) = false
          ∧ FilterBar.groupedCategories (FilterBar.selectCategory d c)
            = FilterBar.groupedCategories c).
Proof.
  intros kept. split; [|intros d; repeat split].
  pose proof (onCategoryInput_outcome c) as Hout.
  destruct (FilterBar.onCategoryInput c) as [c'|c']; cbn [FilterBar.after].
  2: { destruct Hout as [-> _]. repeat split. }
  destruct Hout as (_ & Hstate & Hcats & Hfilt & Hinput & Hlab & Hshow & _).
  split; [|by split]. unfold kept. rewrite Hstate.
  repeat split; try assumption;
    destruct (negb _); try reflexivity;
    destruct (FilterBar.find_match _ _); try reflexivity;
    destruct (Js.digits_regex _); reflexivity.
Qed.

(** X16. Typing the same text again changes nothing.  When
    [onCategoryInput] returns, a second call returns too, leaves the state
    and the groups of the first and emits that state a second time; when
    it throws, a second call throws again and the component is still as it
    was. *)
Theorem onCategoryInput_idempotent `{JsString} (c : FilterBar.Component) :
  match FilterBar.onCategoryInput c with
  | FilterBar.Returned once =>
      ∃ twice,
        FilterBar.onCategoryInput once = FilterBar.Returned twice
        ∧ FilterBar.state twice = FilterBar.state once
        ∧ FilterBar.groupedCategories twice = FilterBar.groupedCategories once
        ∧ FilterBar.stateChange twice
          = FilterBar.stateChange c
              ++ [FilterBar.state once; FilterBar.state once]
  | FilterBar.Thrown once =>
      once = c ∧ FilterBar.onCategoryInput once = FilterBar.Thrown c
  end.
Proof.
  pose proof (onCategoryInput_outcome c) as Hout.
  destruct (FilterBar.onCategoryInput c) as [once|once] eqn:Hfirst.
  2: { destruct Hout as [-> _]. by split. }
  cbv zeta in Hout.
  destruct Hout as (Hitems & Hstate & _ & Hfilt & Hinput & Hlab & _
                    & (c1 & Hc1 & Hgroups) & Hemit).
  pose proof (onCategoryInput_outcome once) as Hout'. cbv zeta in Hout'.
  rewrite Hinput in Hout'.
  rewrite (items_of_ext _ once c Hfilt) in Hout'.
  destruct (FilterBar.onCategoryInput once) as [twice|twice].
  2: { by destruct Hout' as [_ Hno]. }
  destruct Hout' as (_ & Hstate' & _ & _ & _ & _ & _
                     & (c1' & Hc1' & Hgroups') & Hemit').
  assert (FilterBar.state twice = FilterBar.state once) as Hsame.
  { rewrite Hstate', Hfilt, Hstate.
    destruct (negb _); [reflexivity|].
    destruct (FilterBar.find_match _ _); [reflexivity|].
    destruct (Js.digits_regex _); reflexivity. }
  exists twice. split; [done|]. split; [exact Hsame|]. split.
  - rewrite Hgroups', Hgroups.
    by apply (updateGroupedCategories_ext (trim (FilterBar.categoryInput c))
                once c c1' c1).
  - rewrite Hemit', Hemit, Hsame, <- app_assoc. reflexivity.
Qed.

(** X17. Choosing a category and then typing nothing new keeps the choice:
    when the label is not blank, trimming it does not change its lower-case
    form, and every category with that label (in lower case) has the same
    id, the [onCategoryInput] that follows [selectCategory] leaves the
    state as it is, whether it returns or throws. *)
Theorem select_then_input_keeps_selection `{JsString}
    (c : FilterBar.Component) (d : FilterBar.DisplayCategory)
    (Hin : d ∈ FilterBar.filteredCategories c)
    (Hlabel : Js.truthy (trim (FilterBar.label (FilterBar.category d))) = true)
    (Htrim : toLowerCase (trim (FilterBar.label (FilterBar.category d)))
             = toLowerCase (FilterBar.label (FilterBar.category d)))
    (Hsame : ∀ e, e ∈ FilterBar.filteredCategories c →
                  FilterBar.label_equals
                    (FilterBar.label (FilterBar.category d)) e →
                  FilterBar.id (FilterBar.category e)
                  = FilterBar.id (FilterBar.category d)) :
  FilterBar.state
    (FilterBar.after (FilterBar.onCategoryInput (FilterBar.selectCategory d c)))
  = FilterBar.state (FilterBar.selectCategory d c).
Proof.
  pose proof (onCategoryInput_outcome (FilterBar.selectCategory d c)) as Hout.
  destruct (FilterBar.onCategoryInput (FilterBar.selectCategory d c))
    as [c'|c']; cbn [FilterBar.after].
  2: { by destruct Hout as [-> _]. }
  destruct Hout as (_ & -> & _).
  change (FilterBar.categoryInput (FilterBar.selectCategory d c))
    with (FilterBar.label (FilterBar.category d)).
  change (FilterBar.filteredCategories (FilterBar.selectCategory d c))
    with (FilterBar.filteredCategories c).
  rewrite Hlabel, Htrim. cbn [negb].
  destruct (find_match_label (FilterBar.label (FilterBar.category d))
              (FilterBar.filteredCategories c) d Hin eq_refl)
    as (pre & e & post & Hcats & He & _ & ->).
  rewrite (Hsame e); [reflexivity| |exact He].
  rewrite Hcats. apply elem_of_app. right. left.
Qed.

Lemma select_then_input_keeps_selection_witness :
  let c := FilterBar.sample "" in
  let d := {| FilterBar.category :=
                {| FilterBar.id := "retail"; FilterBar.label := "Retail";
                   FilterBar.sector := Some "trade";
                   FilterBar.keywords := Some ["shops"; "food and beverage"] |};
              FilterBar.display := "Retail" |} in
  d ∈ FilterBar.filteredCategories c
  ∧ FilterBar.ssicCategory
      (FilterBar.state
         (FilterBar.after
            (FilterBar.onCategoryInput (FilterBar.selectCategory d c))))
    = Some "retail".
Proof.
  intros c d. split; [right; left|].
  rewrite (select_then_input_keeps_selection c d).
  - reflexivity.
  - right. left.
  - reflexivity.
  - reflexivity.
  - intros e He Hlab. unfold c in He. cbn [FilterBar.sample FilterBar.filteredCategories] in He.
    apply elem_of_cons in He as [->|He]; [by vm_compute in Hlab|].
    apply list_elem_of_singleton in He as ->. reflexivity.
Defined.

(** The [reduce] over the sectors: a later sector with the same id
    overwrites the label of an earlier one, and the id [__proto__] gets no
    label. *)
Lemma sector_labels_lookup (sectors : list FilterBar.Sector) (k : string) :
  fold_left (λ (acc : gmap string string) s,
               if String.eqb (FilterBar.sector_id s) "__proto__" then acc
               else <[FilterBar.sector_id s := FilterBar.sector_label s]> acc)
            sectors ∅ !! k
  = if String.eqb k "__proto__" then None
    else FilterBar.sector_label
           <$> last (filter (λ s, FilterBar.sector_id s = k) sectors).
Proof.
  induction sectors as [|s sectors IH] using rev_ind.
  { cbn. by destruct (String.eqb k "__proto__"). }
  rewrite fold_left_app, filter_app. cbn [fold_left].
  rewrite filter_cons, filter_nil.
  destruct (String.eqb (FilterBar.sector_id s) "__proto__") eqn:Hproto.
  - apply String.eqb_eq in Hproto. rewrite IH.
    destruct (String.eqb k "__proto__") eqn:Hk; [done|].
    apply String.eqb_neq in Hk.
    rewrite decide_False by congruence. by rewrite app_nil_r.
  - apply String.eqb_neq in Hproto.
    destruct (decide (FilterBar.sector_id s = k)) as [<-|Hne].
    + rewrite lookup_insert_eq, last_snoc.
      by rewrite (proj2 (String.eqb_neq _ _) Hproto).
    + by rewrite lookup_insert_ne, app_nil_r.
Qed.

(** X18. After the categories are loaded, the component holds the
    categories of the answer (none when the field is missing), each shown
    under its label, and the label of a sector is that of the last sector
    of the answer with its id (the id [__proto__] gets none), whether the
    grouping that follows returns or throws.  As the blank filter is blank
    in lower case too, every category is listed: the callback throws
    exactly when a category has a sector key that names a property of
    [Object.prototype], and the groups are then as they were; otherwise
    every category is in the group of its sector (or of [other]). *)
Theorem ngOnInit_lists_every_category `{JsString}
    (data : FilterBar.SsicCategoriesResponse) (c : FilterBar.Component)
    (Hblank : toLowerCase (trim "") = "") :
  let cats := default [] (FilterBar.resp_categories data) in
  let sectors := default [] (FilterBar.resp_sectors data) in
  let shown := λ x, {| FilterBar.category := x;
                       FilterBar.display := FilterBar.label x |} in
  let key := λ x, Js.or_else (FilterBar.sector x) "other" in
  let c' := FilterBar.after (FilterBar.ngOnInit data c) in
  FilterBar.categories c' = cats
  ∧ FilterBar.filteredCategories c' = shown <$> cats
  ∧ (∀ k, FilterBar.sectorLabel c' !! k
          = if String.eqb k "__proto__" then None
            else FilterBar.sector_label
                   <$> last (filter (λ s, FilterBar.sector_id s = k) sectors))
  ∧ match FilterBar.ngOnInit data c with
    | FilterBar.Returned c'' =>
        Forall (λ x, Js.inherited (key x) = false) cats
        ∧ ∀ x, x ∈ cats →
               ∃ g, g ∈ FilterBar.groupedCategories c''
                    ∧ FilterBar.group_sector g = key x
                    ∧ shown x ∈ FilterBar.group_items g
    | FilterBar.Thrown c'' =>
        Exists (λ x, Js.inherited (key x) = true) cats
        ∧ FilterBar.groupedCategories c'' = FilterBar.groupedCategories c
    end.
Proof.
  intros cats sectors shown key c'. subst c'.
  unfold FilterBar.ngOnInit. lazy zeta. fold cats sectors.
  match goal with
  | |- context [FilterBar.updateGroupedCategories "" ?c0] => set (c1 := c0)
  end.
  assert (FilterBar.items_of "" c1 = shown <$> cats) as Hitems.
  { unfold FilterBar.items_of. by rewrite Hblank. }
  pose proof (updateGroupedCategories_outcome "" c1) as Hout.
  rewrite Hitems in Hout.
  destruct (FilterBar.updateGroupedCategories "" c1) as [c2|c2] eqn:Hupdate;
    cbn [FilterBar.after].
  - destruct Hout as (Hgroupable & _ & -> & -> & _ & -> & _).
    split; [done|]. split; [done|].
    split; [intros k; apply sector_labels_lookup|].
    split; [by apply Forall_fmap in Hgroupable|].
    intros x Hx.
    destruct (updateGroupedCategories_groups "" c1 c2 Hupdate)
      as (grouped & -> & _ & Hobj & Hlookup).
    rewrite Hitems in Hobj, Hlookup.
    assert (shown x ∈ shown <$> cats) as Hshown.
    { apply list_elem_of_fmap. by exists x. }
    eexists. split.
    + apply list_elem_of_fmap. eexists. split; [reflexivity|].
      apply Hobj. by exists (shown x).
    + cbn [FilterBar.group_sector FilterBar.group_items]. split; [done|].
      rewrite Hlookup. by apply filter_key_elem.
  - destruct Hout as [-> Hno].
    split; [done|]. split; [done|].
    split; [intros k; apply sector_labels_lookup|].
    split; [|done]. apply not_groupable in Hno.
    by apply Exists_fmap in Hno.
Qed.

Lemma ngOnInit_lists_every_category_witness :
  let x := {| FilterBar.id := "fnb"; FilterBar.label := "Food and Beverage";
              FilterBar.sector := Some "services";
              FilterBar.keywords := None |} in
  let data := {| FilterBar.resp_categories := Some [x];
                 FilterBar.resp_sectors :=
                   Some [{| FilterBar.sector_id := "services";
                            FilterBar.sector_label := "Services" |}] |} in
  toLowerCase (trim "") = ""
  ∧ FilterBar.sectorLabel
      (FilterBar.after (FilterBar.ngOnInit data FilterBar.initial))
      !! "services" = Some "Services"
  ∧ ∃ c' g, FilterBar.ngOnInit data FilterBar.initial = FilterBar.Returned c'
            ∧ g ∈ FilterBar.groupedCategories c'
            ∧ FilterBar.group_sector g = "services".
Proof.
  intros x data.
  assert (toLowerCase (trim "") = "") as Hblank by reflexivity.
  split; [exact Hblank|].
  destruct (ngOnInit_lists_every_category data FilterBar.initial Hblank)
    as (_ & _ & Hlabels & Hgroups).
  split; [by rewrite Hlabels|].
  destruct (FilterBar.ngOnInit data FilterBar.initial) as [c'|c'] eqn:Hout.
  - destruct Hgroups as [_ Hall].
    destruct (Hall x) as (g & Hg & Hsector & _); [left|].
    by exists c', g.
  - exfalso. destruct Hgroups as [Hex _].
    apply Exists_exists in Hex as (y & Hy & Hinh).
    apply list_elem_of_singleton in Hy as ->. by vm_compute in Hinh.
Defined.

(** X19. [selectCategory] sets the category and clears the code.  Whenever
    [onCategoryInput] returns, at most one of [state.ssic] and
    [state.ssicCategory] is defined: a defined category comes with an
    undefined code and a defined code with an undefined category, and an
    input that equals no label and no keyword and is no digit string
    clears both.  When it throws, both slots are as they were.  So a state
    with at most one slot defined keeps at most one through every call. *)
Theorem slots_exclusive_on_return `{JsString} (c : FilterBar.Component)
    (d : FilterBar.DisplayCategory) :
  let picked := FilterBar.state (FilterBar.selectCategory d c) in
  let value := trim (FilterBar.categoryInput c) in
  (FilterBar.ssicCategory picked = Some (FilterBar.id (FilterBar.category d))
   ∧ FilterBar.ssic picked = None)
  ∧ match FilterBar.onCategoryInput c with
    | FilterBar.Returned c' =>
        let typed := FilterBar.state c' in
        FilterBar.at_most_one typed
        ∧ (is_Some (FilterBar.ssicCategory typed) → FilterBar.ssic typed = None)
        ∧ (is_Some (FilterBar.ssic typed) → FilterBar.ssicCategory typed = None)
        ∧ ((∀ e, e ∈ FilterBar.filteredCategories c →
              ¬ FilterBar.label_equals value e
              ∧ ¬ FilterBar.keyword_equals value e) →
           Js.digits_regex value = false →
           FilterBar.ssic typed = None ∧ FilterBar.ssicCategory typed = None)
    | FilterBar.Thrown c' => FilterBar.state c' = FilterBar.state c
    end
  ∧ (FilterBar.at_most_one (FilterBar.state c) →
     FilterBar.at_most_one
       (FilterBar.state (FilterBar.after (FilterBar.onCategoryInput c)))).
Proof.
  intros picked value.
  pose proof (onCategoryInput_outcome c) as Hout. cbv zeta in Hout.
  fold value in Hout.
  split; [split; reflexivity|].
  destruct (FilterBar.onCategoryInput c) as [c'|c']; cbn [FilterBar.after].
  2: { destruct Hout as [-> _]. by split. }
  destruct Hout as (_ & Hstate & _).
  assert (FilterBar.at_most_one (FilterBar.state c')) as Htyped.
  { rewrite Hstate.
    destruct (negb _); [by left|].
    destruct (FilterBar.find_match _ _); [by left|].
    destruct (Js.digits_regex value); by right. }
  split; [|done]. cbv zeta. split; [exact Htyped|]. split; [|split].
  - intros [x Hx]. destruct Htyped as [|Hc]; [done|]. congruence.
  - intros [x Hx]. destruct Htyped as [Hs|]; [congruence|done].
  - intros Hno Hdigits. rewrite Hstate.
    apply find_match_none in Hno. rewrite Hno, Hdigits.
    by destruct (negb _).
Qed.
